(** * The AI task-analysis service ([src/aiService.ts]), embedded in Rocq

    The development follows the source file top-down:

    - [Num]: JavaScript numbers, that is IEEE-754 doubles.  A finite
      number is given by its rational value; [NaN] and the two infinities
      are separate values.  Every operation that rounds in the language
      rounds here: a numeric literal, a product and a quotient yield the
      double nearest to the exact result (ties to the even significand,
      gradual underflow, overflow to an infinity), and a number is
      printed with the fewest digits that read back as the same double.
      The two zeros are one value: the service compares numbers and
      prints them, and neither tells [-0] from [+0].
    - strings are byte strings ([string] of the Standard Library), read as
      the UTF-8 text of the JavaScript string.  [toLowerCase] folds [A-Z]
      only, [length] counts bytes, and the class [\s] is the ASCII white
      space: the operations on characters are those of the source for
      ASCII text, and the properties that depend on them are stated for
      ASCII text.  A surrogate outside a pair has no UTF-8 text: the
      escape of one in a JSON text is kept as three bytes.
    - [JSValue]: the dynamically typed values that flow through the
      service ([undefined] and the JSON values), with the coercions the
      source relies on ([Number], which raises a [TypeError] on an object
      that has a property [toString] of its own, truthiness,
      [Array.isArray], property access, [slice]).  [Number] strips the
      white space of the language, also beyond ASCII.
    - [JSON_parse] and [JSON_stringify]: the two built-ins, written out.
      The parser is a recursive descent with fuel; [JSON_parse_fuel] shows
      that the fuel it is given is never exhausted.  The properties of an
      object are kept in the order in which the language enumerates them:
      the array indices in ascending order, then the other names in the
      order of their creation.
    - the pattern [/\{[\s\S]*\}/] is run by a small backtracking matcher.
    - the collaborators: the Redis cache is a finite map from keys to
      (ttl, value) entries, a get or a setex may raise; the remote model
      is an arbitrary function from the request to an outcome; the logger
      only appends to the trace and does not raise.  Expiry of cache
      entries is not modelled.
    - the [natural] library (tokenizer, stemmer, sentiment analyser) and
      the date parser are parameters of the development.
    - the four public operations run in a state-and-exception monad [M]
      over [World] (the [isInitialized] flag, the cache, and the trace of
      collaborator calls). *)

From Stdlib Require Import ZArith QArith Qround Qabs Qpower Lia Lqa String Ascii List Bool.
From stdpp Require Import gmap strings pretty.
Import ListNotations.
Open Scope string_scope.
Set Warnings "-register-all".
Set Warnings "-notation-incompatible-prefix".
Set Warnings "-notation-overridden".
Set Warnings "-ambiguous-paths".

(** ** JavaScript numbers *)

Inductive Num : Type :=
| NaN
| PInf
| NInf
| Fin (q : Q).

Definition num_of_Z (z : Z) : Num := Fin (inject_Z z).

Definition isNaN (n : Num) : bool :=
  match n with NaN => true | _ => false end.

Definition Qltb (x y : Q) : bool :=
  match (x ?= y)%Q with Lt => true | _ => false end.

(** [a < b]; every comparison with [NaN] is false. *)
Definition num_ltb (a b : Num) : bool :=
  match a, b with
  | NaN, _ | _, NaN => false
  | NInf, NInf => false
  | NInf, _ => true
  | _, NInf => false
  | PInf, _ => false
  | Fin _, PInf => true
  | Fin x, Fin y => Qltb x y
  end.

(** [a > b] *)
Definition num_gtb (a b : Num) : bool := num_ltb b a.

Definition Qsign (q : Q) : Z := Z.sgn (Qnum q).

Definition inf_of_sign (s : Z) : Num :=
  if (s =? 0)%Z then NaN else if (0 <? s)%Z then PInf else NInf.

Definition num_sign (n : Num) : Z :=
  match n with
  | NaN => 0
  | PInf => 1
  | NInf => -1
  | Fin q => Qsign q
  end.

(** *** Rounding to the nearest double

    A double has 53 significant bits and no binary place below
    [2^-1074]; its magnitude is below [2^1024]. *)

(** The integer part of the binary logarithm of [|q|], for [q] other than
    zero. *)
Definition ilog2 (q : Q) : Z :=
  let l := (Z.log2 (Z.abs (Qnum q)) - Z.log2 (Zpos (Qden q)))%Z in
  if Qle_bool (2 ^ l) (Qabs q) then l else (l - 1)%Z.

(** The exponent of the last binary place that a double near [q] has. *)
Definition last_place (q : Q) : Z := Z.max (ilog2 q - 52) (-1074).

(** The nearest integer, a tie going to the even one. *)
Definition round_half_even (q : Q) : Z :=
  let f := Qfloor q in
  match (q - inject_Z f ?= 1 # 2)%Q with
  | Lt => f
  | Gt => (f + 1)%Z
  | Eq => if Z.even f then f else (f + 1)%Z
  end.

(** The multiple of the last binary place that is nearest to [q], in
    lowest terms. *)
Definition nearest_double (q : Q) : Q :=
  let e := last_place q in
  Qred (inject_Z (round_half_even (q / 2 ^ e)) * 2 ^ e).

(** The number that stands for the exact value [q]: the nearest double,
    or an infinity when that is out of the range of the doubles. *)
Definition double (q : Q) : Num :=
  let r := nearest_double q in
  if Qle_bool (2 ^ 1024) (Qabs r) then (if Qle_bool 0 r then PInf else NInf)
  else Fin r.

(** [a * b] *)
Definition num_mul (a b : Num) : Num :=
  match a, b with
  | NaN, _ | _, NaN => NaN
  | Fin x, Fin y => double (x * y)
  | _, _ => inf_of_sign (num_sign a * num_sign b)
  end.

(** [a / b]; a zero divisor counts as [+0]. *)
Definition num_div (a b : Num) : Num :=
  match a, b with
  | NaN, _ | _, NaN => NaN
  | Fin x, Fin y =>
      if (Qnum y =? 0)%Z then inf_of_sign (Qsign x) else double (x / y)
  | Fin _, _ => Fin 0
  | _, Fin y => if (Qsign y <? 0)%Z then inf_of_sign (- num_sign a)
                else inf_of_sign (num_sign a)
  | _, _ => NaN
  end.

(** [Math.round]: the nearest integer, ties towards [+Infinity]; the
    result is exact. *)
Definition Math_round (n : Num) : Num :=
  match n with
  | Fin q => Fin (inject_Z (Qfloor (q + (1 # 2))))
  | _ => n
  end.

Definition Math_min (a b : Z) : Z := Z.min a b.
Definition Math_max (a b : Z) : Z := Z.max a b.

(** Equality of numbers as values: the rationals are compared by [Qeq]. *)
Definition num_eq (a b : Num) : Prop :=
  match a, b with
  | NaN, NaN | PInf, PInf | NInf, NInf => True
  | Fin x, Fin y => (x == y)%Q
  | _, _ => False
  end.

(** [min <= n <= max] for finite bounds. *)
Definition in_range (n : Num) (lo hi : Q) : Prop :=
  match n with
  | Fin q => (lo <= q /\ q <= hi)%Q
  | _ => False
  end.

(** ** Characters and strings *)

Definition dquote : ascii := "034"%char.
Definition backslash : ascii := "092"%char.
Definition str1 (c : ascii) : string := String c EmptyString.

Definition is_digit (c : ascii) : bool :=
  let n := nat_of_ascii c in (48 <=? n)%nat && (n <=? 57)%nat.

Definition digit_val (c : ascii) : Z := Z.of_nat (nat_of_ascii c) - 48.

(** JSON white space: space, tab, line feed, carriage return. *)
Definition is_json_ws (c : ascii) : bool :=
  match nat_of_ascii c with
  | 32%nat | 9%nat | 10%nat | 13%nat => true
  | _ => false
  end.

(** The ASCII part of the regular-expression class [\s] and of the white
    space trimmed by [Number]: tab, LF, VT, FF, CR, space. *)
Definition is_space (c : ascii) : bool :=
  match nat_of_ascii c with
  | 32%nat | 9%nat | 10%nat | 11%nat | 12%nat | 13%nat => true
  | _ => false
  end.

Definition lower_char (c : ascii) : ascii :=
  let n := nat_of_ascii c in
  if (65 <=? n)%nat && (n <=? 90)%nat then ascii_of_nat (n + 32) else c.

Fixpoint toLowerCase (s : string) : string :=
  match s with
  | EmptyString => EmptyString
  | String c s' => String (lower_char c) (toLowerCase s')
  end.

(** [s.includes(k)] *)
Fixpoint includes (s k : string) : bool :=
  String.prefix k s ||
  match s with
  | EmptyString => false
  | String _ s' => includes s' k
  end.

Fixpoint take_while (p : ascii -> bool) (s : string) : string :=
  match s with
  | String c s' => if p c then String c (take_while p s') else EmptyString
  | EmptyString => EmptyString
  end.

Fixpoint drop_while (p : ascii -> bool) (s : string) : string :=
  match s with
  | String c s' => if p c then drop_while p s' else s
  | EmptyString => EmptyString
  end.

Fixpoint string_rev_onto (s acc : string) : string :=
  match s with
  | EmptyString => acc
  | String c s' => string_rev_onto s' (String c acc)
  end.

Definition string_rev (s : string) : string := string_rev_onto s EmptyString.

Definition bytes (l : list nat) : string :=
  fold_right (fun n s => String (ascii_of_nat n) s) EmptyString l.

(** The white space and the line terminators of the language beyond
    ASCII, in UTF-8: U+00A0, U+1680, U+2000 to U+200A, U+2028, U+2029,
    U+202F, U+205F, U+3000 and U+FEFF. *)
Definition wide_spaces : list string :=
  map bytes
    ([ [194; 160]; [225; 154; 128] ] ++
     map (fun n => [226; 128; n]) (seq 128 11) ++
     [ [226; 128; 168]; [226; 128; 169]; [226; 128; 175]; [226; 129; 159];
       [227; 128; 128]; [239; 187; 191] ])%list%nat.

(** The text behind [m], when [s] starts with [m]. *)
Fixpoint strip_prefix (m s : string) : option string :=
  match m, s with
  | EmptyString, _ => Some s
  | String a m', String b s' => if Ascii.eqb a b then strip_prefix m' s' else None
  | String _ _, EmptyString => None
  end.

(** The text behind the first of the [marks] that [s] starts with. *)
Fixpoint strip_mark (marks : list string) (s : string) : option string :=
  match marks with
  | [] => None
  | m :: marks' =>
      match strip_prefix m s with
      | Some rest => Some rest
      | None => strip_mark marks' s
      end
  end.

(** The text without the white space at its start; [marks] are the
    white-space characters of more than one byte. *)
Fixpoint trim_from (marks : list string) (fuel : nat) (s : string) : string :=
  match fuel with
  | O => s
  | S fuel' =>
      match s with
      | EmptyString => s
      | String c s' =>
          if is_space c then trim_from marks fuel' s'
          else match strip_mark marks s with
               | Some rest => trim_from marks fuel' rest
               | None => s
               end
      end
  end.

Definition trimStart (s : string) : string :=
  trim_from wide_spaces (String.length s) s.

(** [s.trim()], and the white space that [Number] strips: at the end of
    the text the bytes of a character are met in reverse. *)
Definition trim (s : string) : string :=
  let t := string_rev (trimStart s) in
  string_rev (trim_from (map string_rev wide_spaces) (String.length t) t).

Fixpoint digits_val (s : string) (acc : Z) : Z :=
  match s with
  | EmptyString => acc
  | String c s' => digits_val s' (10 * acc + digit_val c)
  end.

Fixpoint repeat_string (n : nat) (s : string) : string :=
  match n with
  | O => EmptyString
  | S n' => s +:+ repeat_string n' s
  end.

Fixpoint concat_strings (l : list string) : string :=
  match l with
  | [] => EmptyString
  | s :: l' => s +:+ concat_strings l'
  end.

(** The value [(-1)^neg * m * 10^e] of a decimal literal. *)
Definition decimal_value (neg : bool) (m e : Z) : Q :=
  let m' := if neg then (- m)%Z else m in
  if (0 <=? e)%Z then inject_Z (m' * 10 ^ e)
  else Qred (Qmake m' (Z.to_pos (10 ^ (- e)))).

(** ** Numeric literals *)

(** The text behind a leading [c], when the text starts with [c]. *)
Definition expect (c : ascii) (s : string) : option string :=
  match s with
  | String c' r => if Ascii.eqb c c' then Some r else None
  | EmptyString => None
  end.

(** An optional sign. *)
Definition scan_sign (plus : bool) (s : string) : bool * string :=
  match expect "-" s with
  | Some r => (true, r)
  | None =>
      match (if plus then expect "+" s else None) with
      | Some r => (false, r)
      | None => (false, s)
      end
  end.

(** [e] or [E] followed by an optionally signed, non-empty digit run. *)
Definition scan_exponent (s : string) : option (Z * string) :=
  match s with
  | String c r =>
      if Ascii.eqb c "e" || Ascii.eqb c "E" then
        let '(neg, r1) := scan_sign true r in
        let ds := take_while is_digit r1 in
        match ds with
        | EmptyString => None
        | _ => Some (if neg then (- digits_val ds 0)%Z else digits_val ds 0,
                     drop_while is_digit r1)
        end
      else Some (0%Z, s)
  | EmptyString => Some (0%Z, s)
  end.

(** What a decimal literal is made of: the integer digits, whether a dot
    is present, the fraction digits, the exponent, and the text left. *)
Record decimal_scan := mkScan {
  scan_int : string;
  scan_dot : bool;
  scan_frac : string;
  scan_exp : Z;
  scan_rest : string
}.

Definition scan_decimal (s : string) : option decimal_scan :=
  let ints := take_while is_digit s in
  let r1 := drop_while is_digit s in
  let '(dot, fracs, r2) :=
    match expect "." r1 with
    | Some r => (true, take_while is_digit r, drop_while is_digit r)
    | None => (false, EmptyString, r1)
    end in
  match ints, fracs with
  | EmptyString, EmptyString => None
  | _, _ =>
      match scan_exponent r2 with
      | Some (e, r3) => Some (mkScan ints dot fracs e r3)
      | None => None
      end
  end.

Definition scan_value (neg : bool) (d : decimal_scan) : Q :=
  decimal_value neg (digits_val (scan_int d +:+ scan_frac d) 0)
                (scan_exp d - Z.of_nat (String.length (scan_frac d))).

Definition digit_in_radix (radix : Z) (c : ascii) : option Z :=
  let n := Z.of_nat (nat_of_ascii (lower_char c)) in
  let v := if (48 <=? n)%Z && (n <=? 57)%Z then (n - 48)%Z
           else if (97 <=? n)%Z && (n <=? 122)%Z then (n - 87)%Z
           else radix in
  if (v <? radix)%Z then Some v else None.

Fixpoint radix_val (radix : Z) (s : string) (acc : Z) : option Z :=
  match s with
  | EmptyString => Some acc
  | String c s' =>
      match digit_in_radix radix c with
      | Some v => radix_val radix s' (radix * acc + v)
      | None => None
      end
  end.

Definition radix_literal (radix : Z) (s : string) : Num :=
  match s with
  | EmptyString => NaN
  | _ => match radix_val radix s 0 with
         | Some v => double (inject_Z v)
         | None => NaN
         end
  end.

Definition signed_decimal (t : string) : Num :=
  let '(neg, u) := scan_sign true t in
  if String.eqb u "Infinity" then (if neg then NInf else PInf)
  else match scan_decimal u with
       | Some d =>
           match scan_rest d with
           | EmptyString => double (scan_value neg d)
           | _ => NaN
           end
       | None => NaN
       end.

(** [Number(s)] for a string [s]. *)
Definition StringToNumber (s : string) : Num :=
  match trim s with
  | EmptyString => num_of_Z 0
  | String "0" (String c r) as t =>
      match lower_char c with
      | "x"%char => radix_literal 16 r
      | "o"%char => radix_literal 8 r
      | "b"%char => radix_literal 2 r
      | _ => signed_decimal t
      end
  | t => signed_decimal t
  end.

(** [String(n)] for a number.  The digits are those of the integer [s]
    with the fewest digits [k] for which [s * 10^(n-k)] is read as the
    number, and among these of the one nearest to it; [n] is the decimal
    exponent: [10^(n-1) <= q < 10^n]. *)

Fixpoint exponent_down (fuel : nat) (q : Q) (n : Z) : Z :=
  match fuel with
  | O => n
  | S fuel' =>
      if Qltb q (10 ^ (n - 1)) then exponent_down fuel' q (n - 1)%Z else n
  end.

Fixpoint exponent_up (fuel : nat) (q : Q) (n : Z) : Z :=
  match fuel with
  | O => n
  | S fuel' => if Qltb q (10 ^ n) then n else exponent_up fuel' q (n + 1)%Z
  end.

(** The decimal exponent of [q > 0], found from an estimate that is off
    by two at most. *)
Definition decimal_exponent (q : Q) : Z :=
  exponent_up 4 q (exponent_down 4 q (ilog2 q * 30103 / 100000)%Z).

Definition same_num (a b : Num) : bool :=
  match a, b with
  | NaN, NaN | PInf, PInf | NInf, NInf => true
  | Fin x, Fin y => Qeq_bool x y
  | _, _ => false
  end.

(** The decimal [s * 10^(n-k)] is read as the number [q]. *)
Definition reads_as (q : Q) (n k s : Z) : bool :=
  same_num (double (inject_Z s * 10 ^ (n - k))) (Fin q).

(** The digits of [q > 0], as an integer, and their number: [k] grows
    from one digit on; a double needs 17 digits at most. *)
Fixpoint shortest_digits (fuel : nat) (q : Q) (n k : Z) : Z * Z :=
  let x := (q * 10 ^ (k - n))%Q in
  let lo := Qfloor x in
  let hi := (lo + 1)%Z in
  match fuel with
  | O => (lo, k)
  | S fuel' =>
      match reads_as q n k lo, reads_as q n k hi with
      | true, true =>
          match (x - inject_Z lo ?= inject_Z hi - x)%Q with
          | Lt => (lo, k)
          | Gt => (hi, k)
          | Eq => (if Z.even lo then lo else hi, k)
          end
      | true, false => (lo, k)
      | false, true => (hi, k)
      | false, false => shortest_digits fuel' q n (k + 1)
      end
  end.

Fixpoint strip_zeros (fuel : nat) (m e : Z) : Z * Z :=
  match fuel with
  | O => (m, e)
  | S fuel' =>
      if ((m mod 10 =? 0) && negb (m =? 0))%Z
      then strip_zeros fuel' (m / 10)%Z (e + 1)%Z
      else (m, e)
  end.

Definition string_take (n : nat) (s : string) : string := String.substring 0 n s.
Definition string_drop (n : nat) (s : string) : string :=
  String.substring n (String.length s - n) s.

(** The digits [ds] of [0.ds * 10^n], laid out as the language does. *)
Definition format_digits (ds : string) (n : Z) : string :=
  let k := Z.of_nat (String.length ds) in
  if ((k <=? n) && (n <=? 21))%Z then
    ds +:+ repeat_string (Z.to_nat (n - k)) "0"
  else if ((0 <? n) && (n <=? 21))%Z then
    string_take (Z.to_nat n) ds +:+ "." +:+ string_drop (Z.to_nat n) ds
  else if ((-6 <? n) && (n <=? 0))%Z then
    "0." +:+ repeat_string (Z.to_nat (- n)) "0" +:+ ds
  else
    let e := (n - 1)%Z in
    let es := (if (e <? 0)%Z then "-" else "+") +:+ pretty (Z.abs e) in
    match ds with
    | String d EmptyString => str1 d +:+ "e" +:+ es
    | String d rest => str1 d +:+ "." +:+ rest +:+ "e" +:+ es
    | EmptyString => "0"
    end.

Definition Number_toString (x : Num) : string :=
  match x with
  | NaN => "NaN"
  | PInf => "Infinity"
  | NInf => "-Infinity"
  | Fin q =>
      if (Qnum q =? 0)%Z then "0"
      else
        let a := Qabs q in
        let n := decimal_exponent a in
        let '(s, k) := shortest_digits 17 a n 1 in
        let '(m, e) := strip_zeros 18 s (n - k)%Z in
        let ds := pretty m in
        (if (Qnum q <? 0)%Z then "-" else EmptyString)
          +:+ format_digits ds (Z.of_nat (String.length ds) + e)
  end.

(** ** Exceptions *)

Inductive Exn : Type :=
| Error (message : string)
| SyntaxError
| TypeError
| RangeError
| CustomError (message : string) (statusCode : Z)
| CollaboratorFailure (detail : string).

Inductive Outcome (A : Type) : Type :=
| Return (a : A)
| Throw (e : Exn).
Arguments Return {A} a.
Arguments Throw {A} e.

(** Evaluation in sequence: the first exception ends it. *)
Definition and_then {A B : Type} (o : Outcome A) (k : A -> Outcome B) : Outcome B :=
  match o with
  | Return a => k a
  | Throw e => Throw e
  end.

Notation "'let?' x ':=' o 'in' k" := (and_then o (fun x => k))
  (at level 10, x name, o at level 100, k at level 200, only parsing).

(** ** JavaScript values *)

Inductive JSValue : Type :=
| JUndefined
| JNull
| JBool (b : bool)
| JNum (n : Num)
| JStr (s : string)
| JArr (items : list JSValue)
| JObj (fields : list (string * JSValue)).

Definition JInt (z : Z) : JSValue := JNum (num_of_Z z).

Fixpoint assoc_lookup (k : string) (l : list (string * JSValue)) : option JSValue :=
  match l with
  | [] => None
  | (k', v) :: l' => if String.eqb k k' then Some v else assoc_lookup k l'
  end.

(** [String(v)], as the conversion of an operand to a primitive value
    computes it.  An array gives the strings of its elements joined by
    commas, [null] and [undefined] counting as the empty string.  An
    object of the service is a plain object: it gives [[object Object]]
    through the method [toString] that it inherits, unless it has a
    property [toString] of its own; such a property hides the method and
    is not callable, being JSON data, and the conversion raises a
    [TypeError]. *)
Fixpoint ToString (v : JSValue) : Outcome string :=
  match v with
  | JUndefined => Return "undefined"
  | JNull => Return "null"
  | JBool b => Return (if b then "true" else "false")
  | JNum n => Return (Number_toString n)
  | JStr s => Return s
  | JArr items =>
      (fix elements (l : list JSValue) (acc : string) : Outcome string :=
         match l with
         | [] => Return acc
         | x :: l' =>
             match (match x with
                    | JUndefined | JNull => Return EmptyString
                    | _ => ToString x
                    end) with
             | Return str =>
                 match l' with
                 | [] => Return (acc +:+ str)
                 | _ => elements l' (acc +:+ str +:+ ",")
                 end
             | Throw e => Throw e
             end
         end) items EmptyString
  | JObj fields =>
      match assoc_lookup "toString" fields with
      | Some _ => Throw TypeError
      | None => Return "[object Object]"
      end
  end.

(** The primitive value of an operand: that of an array and of an
    object is its string. *)
Definition ToPrimitive (v : JSValue) : Outcome JSValue :=
  match v with
  | JArr _ | JObj _ => let? str := ToString v in Return (JStr str)
  | _ => Return v
  end.

(** [Number(v)] *)
Definition Number (v : JSValue) : Outcome Num :=
  let? primitive := ToPrimitive v in
  Return match primitive with
         | JUndefined => NaN
         | JNull => num_of_Z 0
         | JBool b => if b then num_of_Z 1 else num_of_Z 0
         | JNum n => n
         | JStr s => StringToNumber s
         | JArr _ | JObj _ => NaN
         end.

(** Truthiness, as tested by [if (v)], [!v] and [v || w]. *)
Definition ToBoolean (v : JSValue) : bool :=
  match v with
  | JUndefined | JNull => false
  | JBool b => b
  | JNum NaN => false
  | JNum (Fin q) => negb (Qnum q =? 0)%Z
  | JNum _ => true
  | JStr EmptyString => false
  | JStr _ => true
  | JArr _ | JObj _ => true
  end.

(** [a || b] *)
Definition js_or (a b : JSValue) : JSValue := if ToBoolean a then a else b.

Definition Array_isArray (v : JSValue) : bool :=
  match v with JArr _ => true | _ => false end.

(** The new value of a property that the object has: the property keeps
    its place. *)
Fixpoint assoc_set (k : string) (v : JSValue) (l : list (string * JSValue))
  : list (string * JSValue) :=
  match l with
  | [] => [(k, v)]
  | (k', v') :: l' =>
      if String.eqb k k' then (k, v) :: l' else (k', v') :: assoc_set k v l'
  end.

Fixpoint all_digits (s : string) : bool :=
  match s with
  | EmptyString => true
  | String c s' => is_digit c && all_digits s'
  end.

(** An array index: the decimal text, without a leading zero, of an
    integer below [2^32 - 1]. *)
Definition array_index (k : string) : option Z :=
  match k with
  | EmptyString => None
  | String c r =>
      if all_digits k &&
         (negb (Ascii.eqb c "0") || String.eqb r EmptyString) &&
         (digits_val k 0 <? 4294967295)%Z
      then Some (digits_val k 0)
      else None
  end.

(** The place of a new array index among the properties of an object:
    behind the smaller indices and before every other property. *)
Fixpoint insert_index (i : Z) (k : string) (v : JSValue)
    (l : list (string * JSValue)) : list (string * JSValue) :=
  match l with
  | [] => [(k, v)]
  | (k', v') :: l' =>
      match array_index k' with
      | Some j =>
          if (i <? j)%Z then (k, v) :: l else (k', v') :: insert_index i k v l'
      | None => (k, v) :: l
      end
  end.

(** Definition of the property [k] of an object that is being built, in
    the order in which the properties are enumerated afterwards: a
    property that the object has keeps its place and takes the new
    value; a new array index goes among the indices, which come first
    in ascending order; any other new name goes last. *)
Definition define_property (k : string) (v : JSValue)
    (l : list (string * JSValue)) : list (string * JSValue) :=
  match assoc_lookup k l with
  | Some _ => assoc_set k v l
  | None =>
      match array_index k with
      | Some i => insert_index i k v l
      | None => l ++ [(k, v)]
      end
  end.

(** [v.name] for a value that is neither [null] nor [undefined], and for
    the property names that the service reads (none of them is defined on
    a primitive or on an array). *)
Definition prop (v : JSValue) (name : string) : JSValue :=
  match v with
  | JObj fields => default JUndefined (assoc_lookup name fields)
  | _ => JUndefined
  end.

Definition is_nullish (v : JSValue) : bool :=
  match v with JUndefined | JNull => true | _ => false end.

Inductive IntOrInf : Type :=
| NegInfinity
| Integer (z : Z)
| PosInfinity.

Definition ToIntegerOrInfinity (n : Num) : IntOrInf :=
  match n with
  | NaN => Integer 0
  | PInf => PosInfinity
  | NInf => NegInfinity
  | Fin q => Integer (Z.quot (Qnum q) (Zpos (Qden q)))
  end.

(** [l.slice(0, end)] *)
Definition Array_slice0 {A : Type} (l : list A) (end_ : Num) : list A :=
  let len := Z.of_nat (length l) in
  match ToIntegerOrInfinity end_ with
  | NegInfinity => []
  | PosInfinity => l
  | Integer k =>
      if (k <? 0)%Z then firstn (Z.to_nat (Z.max (len + k) 0)) l
      else firstn (Z.to_nat (Z.min k len)) l
  end.

(** [validValues.includes(value)] for a list of strings. *)
Definition Array_includes (validValues : list string) (value : JSValue) : bool :=
  match value with
  | JStr s => existsb (String.eqb s) validValues
  | _ => false
  end.

(** ** [JSON.parse] *)

Inductive parsed (A : Type) : Type :=
| Parsed (a : A) (rest : string)
| SyntaxErr
| NoFuel.
Arguments Parsed {A} a rest.
Arguments SyntaxErr {A}.
Arguments NoFuel {A}.

Definition skip_ws (s : string) : string := drop_while is_json_ws s.

Definition hex4 (a b c d : ascii) : option Z :=
  radix_val 16 (String a (String b (String c (String d EmptyString)))) 0.

Definition byte_of_Z (z : Z) : ascii := ascii_of_nat (Z.to_nat z).

(** The code unit of a [\uXXXX] escape, pushed in UTF-8 onto a reversed
    accumulator.  A surrogate that is not part of a pair is pushed like
    any code unit, in three bytes. *)
Definition push_code_unit (cp : Z) (acc : string) : string :=
  if (cp <? 128)%Z then String (byte_of_Z cp) acc
  else if (cp <? 2048)%Z then
    String (byte_of_Z (128 + cp mod 64)) (String (byte_of_Z (192 + cp / 64)) acc)
  else
    String (byte_of_Z (128 + cp mod 64))
      (String (byte_of_Z (128 + (cp / 64) mod 64))
         (String (byte_of_Z (224 + cp / 4096)) acc)).

(** A code point, pushed in UTF-8: above [0xFFFF] it takes four bytes. *)
Definition push_code_point (cp : Z) (acc : string) : string :=
  if (cp <? 65536)%Z then push_code_unit cp acc
  else
    String (byte_of_Z (128 + cp mod 64))
      (String (byte_of_Z (128 + (cp / 64) mod 64))
         (String (byte_of_Z (128 + (cp / 4096) mod 64))
            (String (byte_of_Z (240 + cp / 262144)) acc))).

(** The code point of the surrogate pair that the code unit [hi] makes
    with the escape [b u g1 g2 g3 g4] behind it, if these are a high
    surrogate and the escape of a low one. *)
Definition surrogate_pair (hi : Z) (b u g1 g2 g3 g4 : ascii) : option Z :=
  if (55296 <=? hi)%Z && (hi <? 56320)%Z && Ascii.eqb b backslash && Ascii.eqb u "u"
  then match hex4 g1 g2 g3 g4 with
       | Some lo =>
           if (56320 <=? lo)%Z && (lo <? 57344)%Z
           then Some (65536 + (hi - 55296) * 1024 + (lo - 56320))%Z
           else None
       | None => None
       end
  else None.

Definition simple_escape (e : ascii) : option ascii :=
  if Ascii.eqb e dquote then Some dquote
  else if Ascii.eqb e backslash then Some backslash
  else match e with
       | "/"%char => Some "/"%char
       | "b"%char => Some "008"%char
       | "f"%char => Some "012"%char
       | "n"%char => Some "010"%char
       | "r"%char => Some "013"%char
       | "t"%char => Some "009"%char
       | _ => None
       end.

(** The characters of a string literal after its opening quote, up to
    and including the closing quote. *)
Fixpoint parse_string_chars (s acc : string) : option (string * string) :=
  match s with
  | EmptyString => None
  | String c r =>
      if Ascii.eqb c dquote then Some (string_rev acc, r)
      else if Ascii.eqb c backslash then
        match r with
        | String e r' =>
            if Ascii.eqb e "u" then
              match r' with
              | String h1 (String h2 (String h3 (String h4 r''))) =>
                  match hex4 h1 h2 h3 h4 with
                  | Some cp =>
                      match r'' with
                      | String b (String u (String g1 (String g2
                          (String g3 (String g4 r3))))) =>
                          match surrogate_pair cp b u g1 g2 g3 g4 with
                          | Some point =>
                              parse_string_chars r3 (push_code_point point acc)
                          | None =>
                              parse_string_chars r'' (push_code_unit cp acc)
                          end
                      | _ => parse_string_chars r'' (push_code_unit cp acc)
                      end
                  | None => None
                  end
              | _ => None
              end
            else
              match simple_escape e with
              | Some x => parse_string_chars r' (String x acc)
              | None => None
              end
        | EmptyString => None
        end
      else if (nat_of_ascii c <? 32)%nat then None
      else parse_string_chars r (String c acc)
  end.

Definition leading_zero (ints : string) : bool :=
  match ints with
  | String "0" (String _ _) => true
  | _ => false
  end.

(** A JSON number: [-? int frac? exp?] *)
Definition parse_number (s : string) : parsed JSValue :=
  let '(neg, u) := scan_sign false s in
  match scan_decimal u with
  | Some d =>
      match scan_int d with
      | EmptyString => SyntaxErr
      | ints =>
          if leading_zero ints then SyntaxErr
          else if scan_dot d && (String.length (scan_frac d) =? 0)%nat then SyntaxErr
          else Parsed (JNum (double (scan_value neg d))) (scan_rest d)
      end
  | None => SyntaxErr
  end.

Definition parse_literal (word : string) (v : JSValue) (s : string) : parsed JSValue :=
  if String.prefix word s
  then Parsed v (string_drop (String.length word) s)
  else SyntaxErr.

Fixpoint parse_value (fuel : nat) (s : string) : parsed JSValue :=
  match fuel with
  | O => NoFuel
  | S fuel' =>
      match skip_ws s with
      | EmptyString => SyntaxErr
      | String c r as t =>
          if Ascii.eqb c dquote then
            match parse_string_chars r EmptyString with
            | Some (str, r') => Parsed (JStr str) r'
            | None => SyntaxErr
            end
          else if Ascii.eqb c "{" then
            match expect "}" (skip_ws r) with
            | Some r' => Parsed (JObj []) r'
            | None => parse_members fuel' (skip_ws r) []
            end
          else if Ascii.eqb c "[" then
            match expect "]" (skip_ws r) with
            | Some r' => Parsed (JArr []) r'
            | None => parse_elements fuel' (skip_ws r) []
            end
          else if Ascii.eqb c "t" then parse_literal "true" (JBool true) t
          else if Ascii.eqb c "f" then parse_literal "false" (JBool false) t
          else if Ascii.eqb c "n" then parse_literal "null" JNull t
          else if Ascii.eqb c "-" || is_digit c then parse_number t
          else SyntaxErr
      end
  end
with parse_elements (fuel : nat) (s : string) (acc : list JSValue) : parsed JSValue :=
  match fuel with
  | O => NoFuel
  | S fuel' =>
      match parse_value fuel' s with
      | Parsed v r =>
          match skip_ws r with
          | String c r' =>
              if Ascii.eqb c "," then parse_elements fuel' r' (v :: acc)
              else if Ascii.eqb c "]" then Parsed (JArr (rev (v :: acc))) r'
              else SyntaxErr
          | EmptyString => SyntaxErr
          end
      | SyntaxErr => SyntaxErr
      | NoFuel => NoFuel
      end
  end
with parse_members (fuel : nat) (s : string) (acc : list (string * JSValue))
  : parsed JSValue :=
  match fuel with
  | O => NoFuel
  | S fuel' =>
      match expect dquote (skip_ws s) with
      | Some r =>
          match parse_string_chars r EmptyString with
          | Some (k, r1) =>
              match expect ":" (skip_ws r1) with
              | Some r2 =>
                  match parse_value fuel' r2 with
                  | Parsed v r3 =>
                      match skip_ws r3 with
                      | String c r4 =>
                          if Ascii.eqb c ","
                          then parse_members fuel' r4 (define_property k v acc)
                          else if Ascii.eqb c "}"
                          then Parsed (JObj (define_property k v acc)) r4
                          else SyntaxErr
                      | EmptyString => SyntaxErr
                      end
                  | SyntaxErr => SyntaxErr
                  | NoFuel => NoFuel
                  end
              | None => SyntaxErr
              end
          | None => SyntaxErr
          end
      | None => SyntaxErr
      end
  end.

(** Fuel that no text exhausts (see [JSON_parse_fuel]). *)
Definition parse_fuel (text : string) : nat := 2 * String.length text + 1.

Definition JSON_parse (text : string) : Outcome JSValue :=
  match parse_value (parse_fuel text) text with
  | Parsed v rest =>
      match skip_ws rest with
      | EmptyString => Return v
      | _ => Throw SyntaxError
      end
  | SyntaxErr => Throw SyntaxError
  | NoFuel => Throw RangeError
  end.

(** ** [JSON.stringify] *)

Definition hex_digit (z : Z) : ascii :=
  if (z <? 10)%Z then byte_of_Z (48 + z) else byte_of_Z (87 + z).

Definition escape_char (c : ascii) : string :=
  if Ascii.eqb c dquote then String backslash (str1 dquote)
  else if Ascii.eqb c backslash then String backslash (str1 backslash)
  else
    let n := Z.of_nat (nat_of_ascii c) in
    match n with
    | 8%Z => String backslash "b"
    | 12%Z => String backslash "f"
    | 10%Z => String backslash "n"
    | 13%Z => String backslash "r"
    | 9%Z => String backslash "t"
    | _ => if (n <? 32)%Z
           then String backslash "u00" +:+ String (hex_digit (n / 16)) (str1 (hex_digit (n mod 16)))
           else str1 c
    end.

Fixpoint escape_chars (s : string) : string :=
  match s with
  | EmptyString => EmptyString
  | String c s' => escape_char c +:+ escape_chars s'
  end.

Definition quote (s : string) : string :=
  String dquote (escape_chars s +:+ str1 dquote).

Fixpoint join (sep : string) (l : list string) : string :=
  match l with
  | [] => EmptyString
  | [x] => x
  | x :: l' => x +:+ sep +:+ join sep l'
  end.

Definition newline : string := str1 "010"%char.

Definition wrap (open close gap indent : string) (parts : list string) : string :=
  match parts with
  | [] => open +:+ close
  | _ =>
      match gap with
      | EmptyString => open +:+ join "," parts +:+ close
      | _ =>
          let stepped := indent +:+ gap in
          open +:+ newline +:+ stepped
            +:+ join ("," +:+ newline +:+ stepped) parts
            +:+ newline +:+ indent +:+ close
      end
  end.

(** [None] stands for [undefined]: no text is produced. *)
Fixpoint serialize (gap indent : string) (v : JSValue) {struct v} : option string :=
  match v with
  | JUndefined => None
  | JNull => Some "null"
  | JBool true => Some "true"
  | JBool false => Some "false"
  | JNum (Fin q) => Some (Number_toString (Fin q))
  | JNum _ => Some "null"
  | JStr s => Some (quote s)
  | JArr items =>
      let stepped := indent +:+ gap in
      Some (wrap "[" "]" gap indent
              ((fix elements (l : list JSValue) : list string :=
                  match l with
                  | [] => []
                  | x :: l' => default "null" (serialize gap stepped x) :: elements l'
                  end) items))
  | JObj fields =>
      let stepped := indent +:+ gap in
      let colon := match gap with EmptyString => ":" | _ => ": " end in
      Some (wrap "{" "}" gap indent
              ((fix members (l : list (string * JSValue)) : list string :=
                  match l with
                  | [] => []
                  | (k, x) :: l' =>
                      match serialize gap stepped x with
                      | Some str => (quote k +:+ colon +:+ str) :: members l'
                      | None => members l'
                      end
                  end) fields))
  end.

(** [JSON.stringify(v)] and [JSON.stringify(v, null, 2)], as the text a
    template literal or a string parameter receives. *)
Definition JSON_stringify (v : JSValue) : string :=
  default "undefined" (serialize EmptyString EmptyString v).

Definition JSON_stringify_indent2 (v : JSValue) : string :=
  default "undefined" (serialize "  " EmptyString v).

(** ** Regular expressions

    The constructs of the pattern [/\{[\s\S]*\}/]: a literal character,
    the greedy star of the class of all characters, and sequencing.  The
    matcher is a backtracking matcher with a continuation; it returns the
    number of characters matched. *)

Inductive regex : Type :=
| RChar (c : ascii)
| RAnyStar
| RSeq (r1 r2 : regex).

(** Greedy: the longest run is tried first, then shorter ones. *)
Fixpoint any_star (s : string) (k : string -> option nat) : option nat :=
  match s with
  | EmptyString => k s
  | String _ s' =>
      match any_star s' k with
      | Some n => Some (S n)
      | None => k s
      end
  end.

Fixpoint match_here (r : regex) (s : string) (k : string -> option nat) : option nat :=
  match r with
  | RChar c =>
      match s with
      | String c' s' => if Ascii.eqb c c' then option_map S (k s') else None
      | EmptyString => None
      end
  | RAnyStar => any_star s k
  | RSeq r1 r2 => match_here r1 s (fun s' => match_here r2 s' k)
  end.

(** [s.match(r)] for a pattern without the global flag: the match at the
    leftmost position where there is one. *)
Fixpoint String_match (r : regex) (s : string) : option string :=
  match match_here r s (fun _ => Some O) with
  | Some n => Some (string_take n s)
  | None =>
      match s with
      | EmptyString => None
      | String _ s' => String_match r s'
      end
  end.

Definition brace_pattern : regex :=
  RSeq (RChar "{") (RSeq RAnyStar (RChar "}")).

(** ** [Buffer.from(s).toString('base64')] *)

Definition base64_char (z : Z) : ascii :=
  if (z <? 26)%Z then byte_of_Z (65 + z)
  else if (z <? 52)%Z then byte_of_Z (97 + (z - 26))
  else if (z <? 62)%Z then byte_of_Z (48 + (z - 52))
  else if (z =? 62)%Z then "+"%char else "/"%char.

Definition byte_val (c : ascii) : Z := Z.of_nat (nat_of_ascii c).

Fixpoint base64 (s : string) : string :=
  match s with
  | EmptyString => EmptyString
  | String a EmptyString =>
      let n := (byte_val a * 65536)%Z in
      String (base64_char (n / 262144))
        (String (base64_char ((n / 4096) mod 64)) "==")
  | String a (String b EmptyString) =>
      let n := (byte_val a * 65536 + byte_val b * 256)%Z in
      String (base64_char (n / 262144))
        (String (base64_char ((n / 4096) mod 64))
           (String (base64_char ((n / 64) mod 64)) "="))
  | String a (String b (String c s')) =>
      let n := (byte_val a * 65536 + byte_val b * 256 + byte_val c)%Z in
      String (base64_char (n / 262144))
        (String (base64_char ((n / 4096) mod 64))
           (String (base64_char ((n / 64) mod 64))
              (String (base64_char (n mod 64)) (base64 s'))))
  end.

(** ** The collaborators and the monad of the service *)

Record ChatMessage := mkMessage {
  role : string;
  content : string
}.

Record ChatRequest := mkRequest {
  model : string;
  messages : list ChatMessage;
  temperature : Q;
  max_tokens : Z;
  top_p : option Q
}.

Inductive LogLevel : Type := LogInfo | LogWarn | LogError.

(** The calls that leave the service. *)
Inductive Event : Type :=
| RedisGet (key : string)
| RedisSetex (key : string) (ttl : Z) (value : string)
| BuildPrompt (prompt : string)
| OpenAICreate (request : ChatRequest)
| Logged (level : LogLevel) (message : string).

Record World := mkWorld {
  isInitialized : bool;
  redis : gmap string (Z * string);
  trace : list Event
}.

(** How the collaborators behave during one invocation: whether the cache
    get or the cache write raises, and what the remote model answers to a
    request: an exception, no content, or a text. *)
Record Collaborators := mkCollaborators {
  redis_get_fault : option Exn;
  redis_setex_fault : option Exn;
  openai_reply : ChatRequest -> Outcome (option string)
}.

Definition M (A : Type) : Type := World -> Outcome A * World.

Definition ret {A} (a : A) : M A := fun w => (Return a, w).

Definition throw {A} (e : Exn) : M A := fun w => (Throw e, w).

Definition bind {A B} (m : M A) (f : A -> M B) : M B :=
  fun w =>
    match m w with
    | (Return a, w') => f a w'
    | (Throw e, w') => (Throw e, w')
    end.

(** [try { body } catch (error) { handler }] *)
Definition try_catch {A} (body : M A) (handler : Exn -> M A) : M A :=
  fun w =>
    match body w with
    | (Return a, w') => (Return a, w')
    | (Throw e, w') => handler e w'
    end.

Definition lift {A} (o : Outcome A) : M A := fun w => (o, w).

Notation "'let*' x ':=' m 'in' k" := (bind m (fun x => k))
  (at level 10, x name, m at level 100, k at level 200, only parsing).
Notation "m ';;' k" := (bind m (fun _ => k))
  (at level 100, k at level 200, right associativity, only parsing).

Definition emit (ev : Event) : M unit :=
  fun w => (Return tt, mkWorld (isInitialized w) (redis w) (trace w ++ [ev])).

Definition logger (level : LogLevel) (message : string) : M unit :=
  emit (Logged level message).

Definition read_isInitialized : M bool := fun w => (Return (isInitialized w), w).

(** [RedisClient.get(key)]: [None] stands for [null]. *)
Definition RedisClient_get (env : Collaborators) (key : string) : M (option string) :=
  emit (RedisGet key) ;;
  match redis_get_fault env with
  | Some e => throw e
  | None => fun w => (Return (snd <$> redis w !! key), w)
  end.

(** [RedisClient.setex(key, ttl, value)] *)
Definition RedisClient_setex (env : Collaborators) (key : string) (ttl : Z)
    (value : string) : M unit :=
  emit (RedisSetex key ttl value) ;;
  match redis_setex_fault env with
  | Some e => throw e
  | None =>
      fun w => (Return tt,
                mkWorld (isInitialized w) (<[key := (ttl, value)]> (redis w)) (trace w))
  end.

(** [openai.chat.completions.create(request)] followed by
    [response.choices[0]?.message?.content]: [None] stands for a reply
    without content ([undefined] or [null]); a call that fails or times
    out, and a response whose [choices] cannot be read, raise. *)
Definition openai_create (env : Collaborators) (request : ChatRequest)
  : M (option string) :=
  emit (OpenAICreate request) ;;
  lift (openai_reply env request).

(** [if (cached)], [!aiResponse], [content || ...]: the string when it is
    present and not empty. *)
Definition truthy_string (o : option string) : option string :=
  match o with
  | Some (String _ _ as s) => Some s
  | _ => None
  end.

(** ** The data of the service *)

Record TaskAnalysis := mkTaskAnalysis {
  priority : Num;
  estimatedHours : Num;
  complexity : JSValue;
  sentiment : string;
  tags : list JSValue;
  deadlineUrgency : Num;
  suggestedSubtasks : list JSValue;
  optimalTimeSlot : JSValue;
  confidenceScore : Z
}.

(** The object literal that carries a [TaskAnalysis]. *)
Definition TaskAnalysis_value (a : TaskAnalysis) : JSValue :=
  JObj [ ("priority", JNum (priority a));
         ("estimatedHours", JNum (estimatedHours a));
         ("complexity", complexity a);
         ("sentiment", JStr (sentiment a));
         ("tags", JArr (tags a));
         ("deadlineUrgency", JNum (deadlineUrgency a));
         ("suggestedSubtasks", JArr (suggestedSubtasks a));
         ("optimalTimeSlot", optimalTimeSlot a);
         ("confidenceScore", JInt (confidenceScore a)) ].

Definition quoted (s : string) : string := str1 dquote +:+ s +:+ str1 dquote.

Definition lines (l : list string) : string := join newline l.

(** ** Helper methods of [AIService] *)

Definition buildAnalysisPrompt (title description : string) (context : JSValue)
  : string :=
  lines [
    "Analyze this task comprehensively:";
    EmptyString;
    "Title: " +:+ quoted title;
    "Description: " +:+ quoted description;
    (if ToBoolean context then "Context: " +:+ JSON_stringify context
     else EmptyString);
    EmptyString;
    "Provide analysis as JSON:";
    "{";
    "  " +:+ quoted "priority" +:+ ": <1-10, business impact and urgency>,";
    "  " +:+ quoted "estimatedHours" +:+ ": <realistic hours needed>,";
    "  " +:+ quoted "complexity" +:+ ": " +:+ quoted "low|medium|high" +:+ ",";
    "  " +:+ quoted "deadlineUrgency" +:+ ": <1-10, how time-sensitive>,";
    "  " +:+ quoted "tags" +:+ ": [" +:+ quoted "relevant" +:+ ", "
         +:+ quoted "keywords" +:+ ", " +:+ quoted "max8" +:+ "],";
    "  " +:+ quoted "suggestedSubtasks" +:+ ": [" +:+ quoted "subtask1" +:+ ", "
         +:+ quoted "subtask2" +:+ ", " +:+ quoted "max5" +:+ "],";
    "  " +:+ quoted "optimalTimeSlot" +:+ ": "
         +:+ quoted "morning|afternoon|evening|flexible";
    "}";
    EmptyString;
    "Consider: technical complexity, dependencies, business value, time sensitivity, required skills."
  ].

Definition validateRange (value : JSValue) (min max defaultValue : Num)
  : Outcome Num :=
  let? num := Number value in
  Return (if isNaN num || num_ltb num min || num_gtb num max then defaultValue
          else num_div (Math_round (num_mul num (num_of_Z 10))) (num_of_Z 10)).

Definition validateComplexity (value : JSValue) : JSValue :=
  let validValues := ["low"; "medium"; "high"] in
  if Array_includes validValues value then value else JStr "medium".

Definition validateTimeSlot (value : JSValue) : JSValue :=
  let validValues := ["morning"; "afternoon"; "evening"; "flexible"] in
  if Array_includes validValues value then value else JStr "flexible".

Definition calculateConfidenceScore (analysis : JSValue) : Z :=
  let score := 85%Z in
  let score := if negb (ToBoolean (prop analysis "priority"))
               then (score - 10)%Z else score in
  let score := if negb (ToBoolean (prop analysis "estimatedHours"))
               then (score - 10)%Z else score in
  let score :=
    if negb (Array_isArray (prop analysis "tags")) ||
       match prop analysis "tags" with
       | JArr items => (length items =? 0)%nat
       | _ => false
       end
    then (score - 5)%Z else score in
  let score := if negb (Array_isArray (prop analysis "suggestedSubtasks"))
               then (score - 5)%Z else score in
  Math_max (Math_min score 99) 60.

(** [text.split(/\s+/)]: the pieces between the maximal runs of white
    space; a text that starts or ends with white space yields an empty
    first or last piece. *)
Fixpoint split_ws_from (s : string) (cur : string) : list string :=
  match s with
  | EmptyString => [string_rev cur]
  | String c s' =>
      if is_space c then
        match s' with
        | String c' _ =>
            if is_space c' then split_ws_from s' cur
            else string_rev cur :: split_ws_from s' EmptyString
        | EmptyString => string_rev cur :: split_ws_from s' EmptyString
        end
      else split_ws_from s' (String c cur)
  end.

Definition split_ws (s : string) : list string := split_ws_from s EmptyString.

Definition stop_words : list string :=
  ["the"; "and"; "but"; "for"; "are"; "you"; "all"; "can"; "had"; "her";
   "was"; "one"; "our"; "out"; "day"; "get"; "has"; "him"; "his"; "how";
   "its"; "may"; "new"; "now"; "old"; "see"; "two"; "way"; "who"; "boy";
   "did"; "man"; "use"; "what"; "with"; "have"; "from"; "they"; "know";
   "want"; "been"; "good"; "much"; "some"; "time"; "very"; "when"; "come";
   "here"; "just"; "like"; "long"; "make"; "many"; "over"; "such"; "take";
   "than"; "them"; "well"; "were"].

(** [/^(the|and|...)$/i.test(word)] *)
Definition is_stop_word (word : string) : bool :=
  existsb (String.eqb (toLowerCase word)) stop_words.

(** [[...new Set(words)]]: the first occurrence of each word, in order. *)
Fixpoint unique_from (seen : list string) (words : list string) : list string :=
  match words with
  | [] => []
  | w :: ws =>
      if existsb (String.eqb w) seen then unique_from seen ws
      else w :: unique_from (w :: seen) ws
  end.

Definition extractKeywords (text : string) : list string :=
  let words :=
    filter (fun word => negb (is_stop_word word))
      (filter (fun word => (3 <? String.length word)%nat) (split_ws text)) in
  Array_slice0 (unique_from [] words) (num_of_Z 5).

Definition urgentKeywords : list string :=
  ["urgent"; "asap"; "immediately"; "critical"; "emergency"; "deadline"].

Definition complexKeywords : list string :=
  ["refactor"; "architecture"; "design"; "research"; "analysis"; "integration"].

(** [keywords.some(keyword => text.includes(keyword))] *)
Definition some_included (keywords : list string) (text : string) : bool :=
  existsb (fun keyword => includes text keyword) keywords.

Definition fallbackAnalysis (title description : string) : TaskAnalysis :=
  let text := toLowerCase (title +:+ " " +:+ description) in
  let isUrgent := some_included urgentKeywords text in
  let isComplex := some_included complexKeywords text in
  {| priority := if isUrgent then num_of_Z 8
                 else if isComplex then num_of_Z 6 else num_of_Z 4;
     estimatedHours := if isComplex then num_of_Z 6 else num_of_Z 2;
     complexity := if isComplex then JStr "high" else JStr "medium";
     sentiment := "neutral";
     tags := map JStr (extractKeywords text);
     deadlineUrgency := if isUrgent then num_of_Z 9 else num_of_Z 5;
     suggestedSubtasks := [];
     optimalTimeSlot := JStr "flexible";
     confidenceScore := 70 |}.

Definition getDefaultSuggestions : list JSValue :=
  [ JStr "Review and update project documentation";
    JStr "Schedule weekly team check-in meeting";
    JStr "Conduct code review for recent changes";
    JStr "Plan next sprint activities and priorities";
    JStr "Update task dependencies and blockers" ].

Definition getDefaultInsights : list JSValue :=
  [ JObj [ ("type", JStr "recommendation");
           ("title", JStr "Focus Time Optimization");
           ("description",
            JStr "Consider blocking dedicated focus time for complex tasks");
           ("impact", JStr "medium");
           ("actionable", JBool true);
           ("suggestions",
            JArr [ JStr "Block 2-hour focus sessions";
                   JStr "Turn off notifications during deep work" ]) ] ].

(** ** The public operations of [AIService] *)

Section AIService.

(** The [natural] library: [WordTokenizer.tokenize] ([None] when it
    yields no array), [PorterStemmer.stem], and
    [SentimentAnalyzer.getSentiment]. *)
Variable tokenizer_tokenize : string -> option (list string).
Variable PorterStemmer_stem : string -> string.
Variable sentiment_getSentiment : list string -> Num.

(** Whether [new Date(v).getTime()] is a number, for a value [v] that
    the constructor can turn into a primitive value. *)
Variable Date_valid : JSValue -> bool.

(** [initialize()], given the value of [process.env.OPENAI_API_KEY].  The
    client handle that it creates is represented by [openai_create]. *)
Definition initialize (OPENAI_API_KEY : option string) : M unit :=
  match truthy_string OPENAI_API_KEY with
  | None =>
      logger LogWarn "⚠️  OpenAI API key not provided. AI features will be disabled."
  | Some _ =>
      (fun w => (Return tt, mkWorld true (redis w) (trace w))) ;;
      logger LogInfo "🤖 AI Service initialized with OpenAI GPT-4"
  end.

Definition analyzeSentiment (text : string) : Num :=
  match tokenizer_tokenize (toLowerCase text) with
  | None | Some [] => num_of_Z 0
  | Some tokens => sentiment_getSentiment (map PorterStemmer_stem tokens)
  end.

(** [sentimentScore > 0 ? 'positive' : sentimentScore < 0 ? 'negative' :
    'neutral'] *)
Definition sentiment_label (sentimentScore : Num) : string :=
  if num_gtb sentimentScore (num_of_Z 0) then "positive"
  else if num_ltb sentimentScore (num_of_Z 0) then "negative"
  else "neutral".

(** [aiResponse.match(/\{[\s\S]*\}/)] followed by [JSON.parse] of the
    match: the inner [try] of [analyzeTask]. *)
Definition extract_analysis (aiResponse : string) : Outcome JSValue :=
  match String_match brace_pattern aiResponse with
  | Some jsonMatch => JSON_parse jsonMatch
  | None => Throw (Error "No JSON found in response")
  end.

(** The object literal [finalAnalysis]; its fields are evaluated in the
    order in which they are written, and a [validateRange] that raises
    ends the evaluation.  Reading a property of [null] or [undefined]
    raises a [TypeError]: [analyzeTask] and [parseVoiceToTask] test
    [is_nullish] before they build their object. *)
Definition finalAnalysis (analysis : JSValue) (sentimentScore : Num)
  : Outcome TaskAnalysis :=
  let? priority := validateRange (prop analysis "priority")
                     (num_of_Z 1) (num_of_Z 10) (num_of_Z 5) in
  let? estimatedHours := validateRange (prop analysis "estimatedHours")
                           (Fin (1 # 2)) (num_of_Z 40) (num_of_Z 2) in
  let? deadlineUrgency := validateRange (prop analysis "deadlineUrgency")
                            (num_of_Z 1) (num_of_Z 10) (num_of_Z 5) in
  Return
    {| priority := priority;
       estimatedHours := estimatedHours;
       complexity := validateComplexity (prop analysis "complexity");
       sentiment := sentiment_label sentimentScore;
       tags := match prop analysis "tags" with
               | JArr items => Array_slice0 items (num_of_Z 8)
               | _ => []
               end;
       deadlineUrgency := deadlineUrgency;
       suggestedSubtasks := match prop analysis "suggestedSubtasks" with
                            | JArr items => Array_slice0 items (num_of_Z 5)
                            | _ => []
                            end;
       optimalTimeSlot := validateTimeSlot (prop analysis "optimalTimeSlot");
       confidenceScore := calculateConfidenceScore analysis |}.

Definition analysis_system_prompt : string :=
  "You are an expert productivity consultant and project manager with deep understanding of task complexity, time estimation, and workflow optimization. Analyze tasks comprehensively and provide actionable insights.".

Definition analysis_request (prompt : string) : ChatRequest :=
  {| model := "gpt-4";
     messages := [ mkMessage "system" analysis_system_prompt;
                   mkMessage "user" prompt ];
     temperature := 3 # 10;
     max_tokens := 800;
     top_p := Some (9 # 10) |}.

Definition analysis_cache_key (title description : string) : string :=
  "task_analysis:" +:+ base64 (title +:+ description).

Definition analyzeTask (env : Collaborators) (title description : string)
    (context : JSValue) : M JSValue :=
  try_catch
    (let* initialized := read_isInitialized in
     if negb initialized then
       ret (TaskAnalysis_value (fallbackAnalysis title description))
     else
       let cacheKey := analysis_cache_key title description in
       let* cached := RedisClient_get env cacheKey in
       match truthy_string cached with
       | Some cached =>
           logger LogInfo "📋 Using cached task analysis" ;;
           lift (JSON_parse cached)
       | None =>
           let prompt := buildAnalysisPrompt title description context in
           emit (BuildPrompt prompt) ;;
           let* response := openai_create env (analysis_request prompt) in
           match truthy_string response with
           | None => throw (Error "Empty response from OpenAI")
           | Some aiResponse =>
               match extract_analysis aiResponse with
               | Throw parseError =>
                   logger LogWarn "⚠️  Failed to parse AI response, using fallback" ;;
                   ret (TaskAnalysis_value (fallbackAnalysis title description))
               | Return analysis =>
                   let sentimentScore := analyzeSentiment description in
                   if is_nullish analysis then throw TypeError
                   else
                     let* final := lift (finalAnalysis analysis sentimentScore) in
                     RedisClient_setex env cacheKey 3600
                       (JSON_stringify (TaskAnalysis_value final)) ;;
                     logger LogInfo
                       ("🔍 AI task analysis completed with "
                          +:+ pretty (confidenceScore final) +:+ "% confidence") ;;
                     ret (TaskAnalysis_value final)
               end
           end
       end)
    (fun error =>
       logger LogError "❌ AI task analysis failed:" ;;
       ret (TaskAnalysis_value (fallbackAnalysis title description))).

Definition suggestions_prompt (context : string) (limit : Num) : string :=
  lines [
    "Based on this user context: " +:+ quoted context;
    "        Generate " +:+ Number_toString limit
      +:+ " specific, actionable task suggestions that would be valuable and relevant.";
    EmptyString;
    "        Return ONLY a JSON array of strings, no other text.";
    "        Make them practical, immediately actionable, and varied in scope.";
    "        Consider different areas: planning, execution, review, optimization, learning.";
    EmptyString;
    "        Example format: [" +:+ quoted "Task 1" +:+ ", " +:+ quoted "Task 2"
      +:+ ", " +:+ quoted "Task 3" +:+ "]"
  ].

Definition user_request (prompt : string) (temp : Q) (tokens : Z) : ChatRequest :=
  {| model := "gpt-4";
     messages := [ mkMessage "user" prompt ];
     temperature := temp;
     max_tokens := tokens;
     top_p := None |}.

Definition suggestions_cache_key (userId context : string) : string :=
  "task_suggestions:" +:+ userId +:+ ":" +:+ base64 context.

Definition generateTaskSuggestions (env : Collaborators) (userId context : string)
    (limit : Num) : M JSValue :=
  try_catch
    (let* initialized := read_isInitialized in
     if negb initialized then ret (JArr getDefaultSuggestions)
     else
       let cacheKey := suggestions_cache_key userId context in
       let* cached := RedisClient_get env cacheKey in
       match truthy_string cached with
       | Some cached => lift (JSON_parse cached)
       | None =>
           let prompt := suggestions_prompt context limit in
           emit (BuildPrompt prompt) ;;
           let* response := openai_create env (user_request prompt (7 # 10) 400) in
           let* suggestions :=
             lift (JSON_parse (default "[]" (truthy_string response))) in
           RedisClient_setex env cacheKey 1800 (JSON_stringify suggestions) ;;
           ret (match suggestions with
                | JArr items => JArr (Array_slice0 items limit)
                | _ => JArr getDefaultSuggestions
                end)
       end)
    (fun error =>
       logger LogError "❌ Task suggestion generation failed:" ;;
       ret (JArr getDefaultSuggestions)).

Definition insights_prompt (userData : JSValue) : string :=
  lines [
    "Analyze this productivity data and generate actionable insights:";
    EmptyString;
    "        User Data: " +:+ JSON_stringify_indent2 userData;
    EmptyString;
    "        Generate 3-5 insights as a JSON array with this structure:";
    "        {";
    "          " +:+ quoted "type" +:+ ": "
      +:+ quoted "pattern|recommendation|warning|achievement" +:+ ",";
    "          " +:+ quoted "title" +:+ ": " +:+ quoted "Brief title" +:+ ",";
    "          " +:+ quoted "description" +:+ ": "
      +:+ quoted "Detailed description" +:+ ",";
    "          " +:+ quoted "impact" +:+ ": " +:+ quoted "high|medium|low" +:+ ",";
    "          " +:+ quoted "actionable" +:+ ": true|false,";
    "          " +:+ quoted "suggestions" +:+ ": [" +:+ quoted "suggestion1"
      +:+ ", " +:+ quoted "suggestion2" +:+ "]";
    "        }";
    EmptyString;
    "        Focus on patterns, inefficiencies, strengths, and specific recommendations.";
    "        Return ONLY the JSON array."
  ].

Definition generateProductivityInsights (env : Collaborators) (userData : JSValue)
  : M JSValue :=
  try_catch
    (let* initialized := read_isInitialized in
     if negb initialized then ret (JArr getDefaultInsights)
     else
       let prompt := insights_prompt userData in
       emit (BuildPrompt prompt) ;;
       let* response := openai_create env (user_request prompt (4 # 10) 1000) in
       let* insights :=
         lift (JSON_parse (default "[]" (truthy_string response))) in
       ret (match insights with
            | JArr _ => insights
            | _ => JArr getDefaultInsights
            end))
    (fun error =>
       logger LogError "❌ Productivity insights generation failed:" ;;
       ret (JArr getDefaultInsights)).

(** [new Date(dateString)] turns its argument into a primitive value
    first, which raises on the objects on which [Number] raises. *)
Definition validateDate (dateString : JSValue) : Outcome JSValue :=
  if negb (ToBoolean dateString) then Return JNull
  else
    let? primitive := ToPrimitive dateString in
    Return (if Date_valid dateString then dateString else JNull).

Definition voice_prompt (transcription : string) : string :=
  lines [
    "Convert this voice transcription into a structured task:";
    "        " +:+ quoted transcription;
    EmptyString;
    "        Extract and return JSON with:";
    "        {";
    "          " +:+ quoted "title" +:+ ": "
      +:+ quoted "brief, actionable title (max 100 chars)" +:+ ",";
    "          " +:+ quoted "description" +:+ ": "
      +:+ quoted "detailed description based on transcription" +:+ ",";
    "          " +:+ quoted "priority" +:+ ": number 1-10,";
    "          " +:+ quoted "estimatedHours" +:+ ": number,";
    "          " +:+ quoted "dueDate" +:+ ": "
      +:+ quoted "YYYY-MM-DD or null if not mentioned" +:+ ",";
    "          " +:+ quoted "tags" +:+ ": [" +:+ quoted "tag1" +:+ ", "
      +:+ quoted "tag2" +:+ "],";
    "          " +:+ quoted "category" +:+ ": "
      +:+ quoted "work|personal|learning|health|other";
    "        }";
    EmptyString;
    "        If transcription is unclear, make reasonable assumptions.";
    "        Return ONLY the JSON object."
  ].

(** The object literal returned by [parseVoiceToTask]; a [validateRange]
    or a [validateDate] that raises ends its evaluation. *)
Definition voice_task (taskData : JSValue) (transcription : string)
  : Outcome JSValue :=
  let? priority := validateRange (prop taskData "priority")
                     (num_of_Z 1) (num_of_Z 10) (num_of_Z 5) in
  let? estimatedHours := validateRange (prop taskData "estimatedHours")
                           (Fin (1 # 2)) (num_of_Z 20) (num_of_Z 1) in
  let? dueDate := validateDate (prop taskData "dueDate") in
  Return
    (JObj [ ("title", js_or (prop taskData "title") (JStr "Voice Task"));
            ("description",
             js_or (prop taskData "description") (JStr transcription));
            ("priority", JNum priority);
            ("estimatedHours", JNum estimatedHours);
            ("dueDate", dueDate);
            ("tags", match prop taskData "tags" with
                     | JArr items => JArr (Array_slice0 items (num_of_Z 5))
                     | _ => JArr [JStr "voice"]
                     end);
            ("category", js_or (prop taskData "category") (JStr "other")) ]).

Definition parseVoiceToTask (env : Collaborators) (transcription : string)
  : M JSValue :=
  try_catch
    (let* initialized := read_isInitialized in
     (if negb initialized then throw (CustomError "AI service not available" 503)
      else ret tt) ;;
     let prompt := voice_prompt transcription in
     emit (BuildPrompt prompt) ;;
     let* response := openai_create env (user_request prompt (3 # 10) 500) in
     let* taskData :=
       lift (JSON_parse (default "{}" (truthy_string response))) in
     if is_nullish taskData then throw TypeError
     else lift (voice_task taskData transcription))
    (fun error =>
       logger LogError "❌ Voice to task conversion failed:" ;;
       throw (CustomError "Failed to process voice input" 500)).

End AIService.

(** ** Vocabulary of the properties *)

(** [Math.round(q * 10) / 10] on a finite number. *)
Definition round1 (q : Q) : Num :=
  num_div (Math_round (num_mul (Fin q) (num_of_Z 10))) (num_of_Z 10).

(** The bound [b] is the double nearest to the tenth [a / 10], for an
    integer [a] of magnitude [10^9] at most: [1] is the one of [10], [0.5]
    the one of [5], and the one of [3] is what the literal [0.3] denotes. *)
Definition tenth_double (b : Q) (a : Z) : Prop :=
  (Z.abs a <= 1000000000)%Z /\ b = nearest_double (a # 10).

(** A default that re-validation leaves alone: not a finite number, or
    outside the range, or the double nearest to a tenth. *)
Definition stable_default (lo hi : Q) (d : Num) : Prop :=
  match d with
  | Fin q => (exists c, tenth_double q c) \/ ~ (lo <= q /\ q <= hi)%Q
  | _ => True
  end.

(** The value can be turned into a primitive value, and so into a
    number: it is no object with a property [toString] of its own, and no
    array that holds such an object. *)
Definition coercible (v : JSValue) : bool :=
  match ToPrimitive v with
  | Return _ => true
  | Throw _ => false
  end.

(** The three numbers of a parsed analysis can be validated. *)
Definition numbers_coercible (analysis : JSValue) : bool :=
  coercible (prop analysis "priority") &&
  coercible (prop analysis "estimatedHours") &&
  coercible (prop analysis "deadlineUrgency").

(** The numbers and the date of a parsed voice task can be validated: a
    due date that is falsy is not looked at. *)
Definition task_coercible (taskData : JSValue) : bool :=
  coercible (prop taskData "priority") &&
  coercible (prop taskData "estimatedHours") &&
  (negb (ToBoolean (prop taskData "dueDate")) ||
   coercible (prop taskData "dueDate")).

(** A text of ASCII characters. *)
Fixpoint ascii_text (s : string) : bool :=
  match s with
  | EmptyString => true
  | String c s' => (nat_of_ascii c <? 128)%nat && ascii_text s'
  end.

(** The declared ranges and enumerations of a [TaskAnalysis]. *)
Record valid_analysis (a : TaskAnalysis) : Prop := mkValid {
  valid_priority : in_range (priority a) 1 10;
  valid_estimatedHours : in_range (estimatedHours a) (1 # 2) 40;
  valid_complexity :
    complexity a = JStr "low" \/ complexity a = JStr "medium" \/
    complexity a = JStr "high";
  valid_sentiment :
    sentiment a = "positive" \/ sentiment a = "negative" \/
    sentiment a = "neutral";
  valid_tags : (length (tags a) <= 8)%nat;
  valid_deadlineUrgency : in_range (deadlineUrgency a) 1 10;
  valid_suggestedSubtasks : (length (suggestedSubtasks a) <= 5)%nat;
  valid_optimalTimeSlot :
    optimalTimeSlot a = JStr "morning" \/ optimalTimeSlot a = JStr "afternoon" \/
    optimalTimeSlot a = JStr "evening" \/ optimalTimeSlot a = JStr "flexible";
  valid_confidenceScore : (60 <= confidenceScore a <= 99)%Z
}.

(** A keyword occurs in the title or in the description, whatever the
    case of the letters. *)
Definition mentions (keywords : list string) (title description : string) : bool :=
  some_included keywords (toLowerCase title) ||
  some_included keywords (toLowerCase description).

Fixpoint has_char (c : ascii) (s : string) : bool :=
  match s with
  | EmptyString => false
  | String c' s' => Ascii.eqb c c' || has_char c s'
  end.

(** The length of the shortest prefix that holds the last [}]. *)
Fixpoint last_close (s : string) : option nat :=
  match s with
  | EmptyString => None
  | String c s' =>
      match last_close s' with
      | Some n => Some (S n)
      | None => if Ascii.eqb "}" c then Some 1%nat else None
      end
  end.

(** The text from the first [{] to the last [}] behind it. *)
Fixpoint brace_span (s : string) : option string :=
  match s with
  | EmptyString => None
  | String c s' =>
      if Ascii.eqb "{" c then
        match last_close s' with
        | Some n => Some (String c (string_take n s'))
        | None => None
        end
      else brace_span s'
  end.

(** Following the words of the specification of the response parser: the
    first region that opens with [{] or [[] and runs to the bracket that
    balances it. *)
Fixpoint balanced_prefix (opening closing : ascii) (depth : nat) (s : string)
  : option string :=
  match s with
  | EmptyString => None
  | String c s' =>
      if Ascii.eqb c closing then
        match depth with
        | O => Some (str1 c)
        | S d => option_map (String c) (balanced_prefix opening closing d s')
        end
      else if Ascii.eqb c opening then
        option_map (String c) (balanced_prefix opening closing (S depth) s')
      else option_map (String c) (balanced_prefix opening closing depth s')
  end.

Fixpoint spec_first_balanced (s : string) : option string :=
  match s with
  | EmptyString => None
  | String c s' =>
      let region :=
        match c with
        | "{"%char => option_map (String c) (balanced_prefix "{" "}" 0 s')
        | "["%char => option_map (String c) (balanced_prefix "[" "]" 0 s')
        | _ => None
        end in
      match region with
      | Some r => Some r
      | None => spec_first_balanced s'
      end
  end.

Definition spec_parse_response (text : string) : Outcome JSValue :=
  match spec_first_balanced text with
  | Some region => JSON_parse region
  | None => Throw (Error "No JSON found in response")
  end.

(** The value an operation returns, when it returns. *)
Definition returns {A} (r : Outcome A * World) (v : A) : Prop := fst r = Return v.

(** What [RedisClient.get] hands back when it does not raise. *)
Definition cached_text (w : World) (key : string) : option string :=
  truthy_string (snd <$> redis w !! key).

(** The analysis pipeline finds a usable cache entry. *)
Definition cache_hit (env : Collaborators) (w : World) (key : string) : Prop :=
  isInitialized w = true /\ redis_get_fault env = None /\
  exists cached, cached_text w key = Some cached.

Definition is_remote_call (ev : Event) : bool :=
  match ev with OpenAICreate _ => true | _ => false end.

Definition is_cache_write (ev : Event) : bool :=
  match ev with RedisSetex _ _ _ => true | _ => false end.

Definition is_prompt (ev : Event) : bool :=
  match ev with BuildPrompt _ => true | _ => false end.

(** None of the listed calls is a prompt construction, a remote call or a
    cache write. *)
Definition short_circuit (calls : list Event) : bool :=
  forallb (fun ev => negb (is_prompt ev || is_remote_call ev || is_cache_write ev))
          calls.

(** The text of a remote reply, when the reply has content. *)
Definition reply_text (env : Collaborators) (request : ChatRequest) : option string :=
  match openai_reply env request with
  | Return r => truthy_string r
  | Throw _ => None
  end.

(** A keyword that is not empty and holds no space. *)
Definition plain_keyword (k : string) : bool :=
  negb (has_char " " k) && negb (String.eqb k EmptyString).

(** The failures that make [analyzeTask] fall back: the service is not
    initialized; the cache get raises; the cached string is corrupt; and,
    on a cache miss, the remote call raises, the reply is empty, the reply
    cannot be parsed, a number of the parsed reply cannot be validated,
    or the cache write raises. *)
Definition analysis_failure (env : Collaborators) (w : World)
    (title description : string) (context : JSValue) : Prop :=
  let key := analysis_cache_key title description in
  let request := analysis_request (buildAnalysisPrompt title description context) in
  isInitialized w = false
  \/ (exists e, redis_get_fault env = Some e)
  \/ (exists cached e, cached_text w key = Some cached /\ JSON_parse cached = Throw e)
  \/ (cached_text w key = None /\
      ((exists e, openai_reply env request = Throw e)
       \/ (exists r, openai_reply env request = Return r /\ truthy_string r = None)
       \/ (exists text e, reply_text env request = Some text /\
                          extract_analysis text = Throw e)
       \/ (exists text analysis, reply_text env request = Some text /\
                                 extract_analysis text = Return analysis /\
                                 numbers_coercible analysis = false)
       \/ (exists e, redis_setex_fault env = Some e))).

(** The failures that make [generateTaskSuggestions] return the default
    suggestions. *)
Definition suggestions_failure (env : Collaborators) (w : World)
    (userId context : string) (limit : Num) : Prop :=
  let key := suggestions_cache_key userId context in
  let request := user_request (suggestions_prompt context limit) (7 # 10) 400 in
  isInitialized w = false
  \/ (exists e, redis_get_fault env = Some e)
  \/ (exists cached e, cached_text w key = Some cached /\ JSON_parse cached = Throw e)
  \/ (cached_text w key = None /\
      ((exists e, openai_reply env request = Throw e)
       \/ (exists text e, reply_text env request = Some text /\
                          JSON_parse text = Throw e)
       \/ (exists e, redis_setex_fault env = Some e))).

(** The failures that make [generateProductivityInsights] return the
    default insights. *)
Definition insights_failure (env : Collaborators) (w : World)
    (userData : JSValue) : Prop :=
  let request := user_request (insights_prompt userData) (4 # 10) 1000 in
  isInitialized w = false
  \/ (exists e, openai_reply env request = Throw e)
  \/ (exists text e, reply_text env request = Some text /\ JSON_parse text = Throw e).

(** The remote model gives a reply without content. *)
Definition empty_reply (env : Collaborators) (request : ChatRequest) : Prop :=
  exists r, openai_reply env request = Return r /\ truthy_string r = None.

(** The [sentiment] field of what an operation returns. *)
Definition sentiment_of (r : Outcome JSValue * World) : option JSValue :=
  match fst r with
  | Return v => Some (prop v "sentiment")
  | Throw _ => None
  end.

(** The number of elements of a returned array. *)
Definition returned_length (r : Outcome JSValue * World) : option nat :=
  match fst r with
  | Return (JArr items) => Some (length items)
  | _ => None
  end.

(** *** Concrete inputs *)

Definition reply_noise : string :=
  "noise {" +:+ quoted "a" +:+ ":1} noise".

Definition reply_two_objects : string :=
  "{" +:+ quoted "a" +:+ ":1} and {" +:+ quoted "b" +:+ ":2}".

Definition reply_array : string := "[1,2]".

Definition object_a1 : string := "{" +:+ quoted "a" +:+ ":1}".

Definition reply_three : string :=
  "[" +:+ quoted "a" +:+ "," +:+ quoted "b" +:+ "," +:+ quoted "c" +:+ "]".

(** A reply whose priority is an object with a property [toString]:
    [{"priority":{"toString":null}}]. *)
Definition reply_unprintable : string :=
  "{" +:+ quoted "priority" +:+ ":{" +:+ quoted "toString" +:+ ":null}}".

(** A reply that holds a sentiment of its own:
    [{"sentiment":"negative","priority":9}]. *)
Definition reply_negative : string :=
  "{" +:+ quoted "sentiment" +:+ ":" +:+ quoted "negative" +:+ ","
      +:+ quoted "priority" +:+ ":9}".

(** A reply whose names are not in the order of their enumeration:
    [{"b":1,"1":2}]. *)
Definition reply_unordered : string :=
  "{" +:+ quoted "b" +:+ ":1," +:+ quoted "1" +:+ ":2}".

(** A stand-in for the [natural] library in which every description has a
    positive sentiment score. *)
Definition toy_tokenize (text : string) : option (list string) := Some (split_ws text).
Definition toy_stem (token : string) : string := token.
Definition toy_sentiment (tokens : list string) : Num := num_of_Z 1.

Definition no_faults (reply : string) : Collaborators :=
  mkCollaborators None None (fun _ => Return (Some reply)).

Definition write_fails (reply : string) : Collaborators :=
  mkCollaborators None (Some (CollaboratorFailure "cache write failed"))
                  (fun _ => Return (Some reply)).

Definition remote_down : Collaborators :=
  mkCollaborators None None (fun _ => Throw (CollaboratorFailure "timeout")).

(** A remote model that answers without content. *)
Definition no_content : Collaborators :=
  mkCollaborators None None (fun _ => Return None).

(** A cache that is down: every get raises. *)
Definition cache_down (reply : string) : Collaborators :=
  mkCollaborators (Some (CollaboratorFailure "cache down")) None
                  (fun _ => Return (Some reply)).

Definition fresh_world : World := mkWorld true ∅ [].

Definition uninitialized_world : World := mkWorld false ∅ [].

Definition world_with (key value : string) : World :=
  mkWorld true {[ key := (3600%Z, value) ]} [].

(** *** Proof steps for the monadic code *)

Ltac split_match :=
  match goal with
  | |- context [match ?x with _ => _ end] =>
      lazymatch x with
      | context [match _ with _ => _ end] => fail
      | _ => destruct x eqn:?
      end
  end.

Ltac run :=
  cbv beta iota zeta delta
    [analyzeTask generateTaskSuggestions generateProductivityInsights
     parseVoiceToTask try_catch bind ret throw lift emit logger
     read_isInitialized RedisClient_get RedisClient_setex openai_create
     isInitialized redis trace negb returns cached_text reply_text
     empty_reply is_nullish sentiment_of returned_length].

Ltac cases := repeat (split_match; run); cbn [fst snd].

Ltac break_hyps :=
  repeat match goal with
         | H : _ \/ _ |- _ => destruct H
         | H : _ /\ _ |- _ => destruct H
         | H : exists _, _ |- _ => destruct H
         end.

Ltac split_hyp_match :=
  repeat match goal with
         | H : context [match ?x with _ => _ end] |- _ =>
             lazymatch x with
             | context [match _ with _ => _ end] => fail
             | _ => destruct x eqn:?
             end
         end.

Ltac absurd_case :=
  exfalso; break_hyps; split_hyp_match; subst;
  repeat match goal with
         | H : ?x = _, H' : context [?x] |- _ => rewrite H in H'
         end;
  cbn [from_option id] in *; congruence.

(** The same, for a path on which the object [finalAnalysis] was built
    although a number of the reply cannot be validated; [built] is the
    lemma that tells when the object is built. *)
Ltac absurd_coercion built :=
  exfalso; break_hyps; split_hyp_match; subst;
  repeat (repeat match goal with
                 | H : ?x = ?x |- _ => clear H
                 | H : ?x = _, H' : context [?x] |- _ => rewrite H in H'
                 end;
          cbn [from_option id] in *;
          match goal with
          | H : Some _ = Some _ |- _ => injection H as H; try subst
          | H : Return _ = Return _ |- _ => injection H as H; try subst
          end);
  try congruence;
  match goal with
  | Hn : numbers_coercible ?a = false, Hf : finalAnalysis ?a ?sc = Return _ |- _ =>
      let e := fresh "e" in
      let E := fresh "E" in
      destruct (proj2 (built a sc) Hn) as [e E]; congruence
  end.

(** *** Vocabulary of the further properties *)

(** Words of a text. *)

Definition not_space (c : ascii) : bool := negb (is_space c).

(** No character of [s] is white space. *)
Fixpoint no_space (s : string) : bool :=
  match s with
  | EmptyString => true
  | String c s' => not_space c && no_space s'
  end.

(** The text is empty or ends with white space. *)
Fixpoint at_word_start (pre : string) : bool :=
  match pre with
  | EmptyString => true
  | String c EmptyString => is_space c
  | String _ pre' => at_word_start pre'
  end.

(** The text is empty or starts with white space. *)
Definition at_word_end (post : string) : bool :=
  match post with
  | EmptyString => true
  | String c _ => is_space c
  end.

(** [word] is a whole word of [text]: a run of characters without white
    space, between white space or the ends of the text. *)
Definition whole_word (word text : string) : Prop :=
  no_space word = true /\
  exists pre post,
    text = pre +:+ word +:+ post /\
    at_word_start pre = true /\ at_word_end post = true.

(** An array with at least one element. *)
Definition nonempty_array (v : JSValue) : bool :=
  match v with
  | JArr (_ :: _) => true
  | _ => false
  end.

(** The six bits behind a character of the base64 alphabet. *)
Definition base64_index (c : ascii) : Z :=
  let n := byte_val c in
  if ((65 <=? n) && (n <=? 90))%Z then (n - 65)%Z
  else if ((97 <=? n) && (n <=? 122))%Z then (n - 71)%Z
  else if ((48 <=? n) && (n <=? 57))%Z then (n + 4)%Z
  else if (n =? 43)%Z then 62%Z else 63%Z.

(** A character of the base64 alphabet: neither the padding [=] nor the
    separator [:] of the cache keys. *)
Definition base64_symbol (c : ascii) : bool :=
  negb (Ascii.eqb c "=") && negb (Ascii.eqb c ":").

Definition is_log (ev : Event) : bool :=
  match ev with Logged _ _ => true | _ => false end.

(** The events of a run without its log lines: the cache gets, the
    prompts, the remote calls and the cache writes, in their order. *)
Definition calls (events : list Event) : list Event :=
  List.filter (fun ev => negb (is_log ev)) events.

(** Texts of [JSON.stringify] that [JSON.parse] reads back. *)

(** A character that ends a value inside an array or an object. *)
Definition is_delimiter (c : ascii) : bool :=
  Ascii.eqb c "," || Ascii.eqb c "]" || Ascii.eqb c "}".

(** The same numerator and the same denominator. *)
Definition same_fraction (x y : Q) : bool :=
  (Qnum x =? Qnum y)%Z && (Zpos (Qden x) =? Zpos (Qden y))%Z.

(** A finite number whose text [JSON.stringify] writes is a numeric
    literal that [JSON.parse] reads back as the same number. *)
Definition prints_and_parses (q : Q) : bool :=
  match Number_toString (Fin q) with
  | String x _ as text =>
      is_digit x &&
      match parse_number text with
      | Parsed (JNum (Fin q')) EmptyString => same_fraction q' q
      | _ => false
      end
  | EmptyString => false
  end.

(** The integers from [lo] on, [n] of them. *)
Definition integers (lo : Z) (n : nat) : list Z :=
  map (fun i => (lo + Z.of_nat i)%Z) (seq 0 n).

(** The text that [JSON.stringify] writes for an array of strings. *)
Definition array_text (l : list string) : string :=
  wrap "[" "]" EmptyString EmptyString (map quote l).

(** The texts of the members of an object, as [JSON.stringify] writes
    them without indentation: a member whose value is [undefined] is
    left out. *)
Fixpoint member_texts (fields : list (string * JSValue)) : list string :=
  match fields with
  | [] => []
  | (k, x) :: l =>
      match serialize EmptyString EmptyString x with
      | Some str => (quote k +:+ ":" +:+ str) :: member_texts l
      | None => member_texts l
      end
  end.

(** Every element is a string. *)
Definition all_strings (l : list JSValue) : Prop :=
  forall x, In x l -> exists s, x = JStr s.

(** A reply with a priority and two tags. *)
Definition reply_tagged : string :=
  "{" +:+ quoted "priority" +:+ ":7.25," +:+ quoted "tags" +:+ ":["
      +:+ quoted "api" +:+ "," +:+ quoted "db" +:+ "]}".

Definition analysis_tagged : JSValue :=
  JObj [ ("priority", JNum (Fin (29 # 4)));
         ("tags", JArr [JStr "api"; JStr "db"]) ].

(** The analysis that is validated from it, for a positive sentiment
    score: [7.25] is rounded to [7.3]. *)
Definition final_tagged : TaskAnalysis :=
  {| priority := double (73 # 10);
     estimatedHours := num_of_Z 2;
     complexity := JStr "medium";
     sentiment := "positive";
     tags := [JStr "api"; JStr "db"];
     deadlineUrgency := num_of_Z 5;
     suggestedSubtasks := [];
     optimalTimeSlot := JStr "flexible";
     confidenceScore := 70 |}.

(** *** Proof steps for the further properties *)

(** The range of every byte of the goal, from the lemma [range]. *)
Ltac byte_ranges range :=
  repeat match goal with
         | c : ascii |- _ =>
             lazymatch goal with
             | _ : (0 <= byte_val c < 256)%Z |- _ => fail
             | _ => pose proof (range c)
             end
         end.

(** The range of a group of six bits, from the lemma [range] on the
    four groups of a number below [2^24]. *)
Ltac sextet_bounds range :=
  match goal with
  | |- (0 <= ?n / 262144 < 64)%Z => apply (range n); lia
  | |- (0 <= (?n / 4096) mod 64 < 64)%Z => apply (range n); lia
  | |- (0 <= (?n / 64) mod 64 < 64)%Z => apply (range n); lia
  | |- (0 <= ?n mod 64 < 64)%Z => apply (range n); lia
  end.

(** Run the operation of the goal on every path, keeping the property
    that is to be shown folded meanwhile. *)
Ltac on_every_path :=
  cbv zeta;
  lazymatch goal with
  | |- context [analyzeTask ?a ?b ?c ?d ?e ?f ?g ?w] =>
      pattern (analyzeTask a b c d e f g w)
  | |- context [generateTaskSuggestions ?a ?b ?c ?d ?w] =>
      pattern (generateTaskSuggestions a b c d w)
  | |- context [generateProductivityInsights ?a ?b ?w] =>
      pattern (generateProductivityInsights a b w)
  | |- context [parseVoiceToTask ?a ?b ?c ?w] =>
      pattern (parseVoiceToTask a b c w)
  end;
  lazymatch goal with
  | |- ?P _ =>
      let Q := fresh "Q" in
      set (Q := P); run; cases; subst Q; cbv beta;
      cbn [fst snd isInitialized redis trace]
  end.

(** The events of the run extend the trace, and its calls are the first
    ones of the expected sequence. *)
Ltac calls_in_order :=
  rewrite <- ?app_assoc; cbn [app];
  eexists; split; [first [reflexivity|symmetry; apply app_nil_r]|];
  cbn [calls List.filter is_log negb];
  eexists; reflexivity.

(** ** Numbers and rounding *)

Open Scope Q_scope.

Lemma Qltb_true x y : Qltb x y = true <-> (x < y)%Q.
Proof.
  unfold Qltb. rewrite Qlt_alt. destruct (x ?= y)%Q; split; congruence.
Qed.

Lemma Qltb_false x y : Qltb x y = false <-> (y <= x)%Q.
Proof.
  split; intros H.
  - apply Qnot_lt_le. intros H'. apply Qltb_true in H'. congruence.
  - destruct (Qltb x y) eqn:E; [|reflexivity]. apply Qltb_true in E. lra.
Qed.

(** *** Powers of two *)

Lemma two_not_zero : ~ (2 == 0)%Q.
Proof. discriminate. Qed.

Lemma pow2_pos (e : Z) : (0 < 2 ^ e)%Q.
Proof. now apply Qpower_0_lt. Qed.

Lemma pow2_plus (a b : Z) : (2 ^ (a + b) == 2 ^ a * 2 ^ b)%Q.
Proof. apply Qpower_plus, two_not_zero. Qed.

Lemma pow2_succ (a : Z) : (2 ^ (a + 1) == 2 * 2 ^ a)%Q.
Proof. rewrite pow2_plus. change (2 ^ 1)%Q with 2%Q. ring. Qed.

Lemma pow2_le (a b : Z) : (a <= b)%Z -> (2 ^ a <= 2 ^ b)%Q.
Proof. intros H. apply Qpower_le_compat_l; [assumption|discriminate]. Qed.

Lemma pow2_lt (a b : Z) : (a < b)%Z -> (2 ^ a < 2 ^ b)%Q.
Proof. intros H. apply Qpower_lt_compat_l; [assumption|reflexivity]. Qed.

Lemma pow2_lt_inv (a b : Z) : (2 ^ a < 2 ^ b)%Q -> (a < b)%Z.
Proof. intros H. now apply (Qpower_lt_compat_l_inv 2). Qed.

Lemma pow2_Z (n : Z) : (0 <= n)%Z -> (2 ^ n == inject_Z (2 ^ n))%Q.
Proof. intros H. now rewrite Zpower_Qpower. Qed.

Lemma pow2_cancel (a : Z) (x : Q) : (x / 2 ^ a * 2 ^ a == x)%Q.
Proof. field. pose proof (pow2_pos a). lra. Qed.

Lemma Qdiv_lt_cross (x y z w : Q) :
  (0 < y)%Q -> (0 < w)%Q -> (x * w < z * y)%Q -> (x / y < z / w)%Q.
Proof.
  intros Hy Hw H. apply Qlt_shift_div_r; [assumption|].
  assert (E : (z / w * y == z * y / w)%Q) by (field; lra). rewrite E.
  now apply Qlt_shift_div_l.
Qed.

(** *** The binary logarithm *)

Lemma ilog2_spec (q : Q) :
  ~ (q == 0)%Q -> (2 ^ ilog2 q <= Qabs q /\ Qabs q < 2 ^ (ilog2 q + 1))%Q.
Proof.
  intros Hq. unfold ilog2.
  set (n := Z.abs (Qnum q)). set (d := Zpos (Qden q)).
  assert (Hn : (0 < n)%Z).
  { subst n. assert (Qnum q <> 0%Z); [|lia].
    intros E. apply Hq. unfold Qeq. rewrite E. reflexivity. }
  assert (Habs : (Qabs q == inject_Z n / inject_Z d)%Q).
  { subst n d. destruct q as [a b]. cbn [Qnum Qden].
    rewrite <- Zabs_Qabs. unfold Qeq, Qdiv, Qmult, Qinv, inject_Z. simpl. lia. }
  destruct (Z.log2_spec n Hn) as [Ha1 Ha2].
  destruct (Z.log2_spec d) as [Hb1 Hb2]; [reflexivity|].
  pose proof (Z.log2_nonneg n) as Ha0. pose proof (Z.log2_nonneg d) as Hb0.
  set (a := Z.log2 n) in *. set (b := Z.log2 d) in *.
  rewrite Zle_Qle, <- pow2_Z in Ha1, Hb1 by lia.
  rewrite Zlt_Qlt, <- pow2_Z in Ha2, Hb2 by lia.
  unfold Z.succ in Ha2, Hb2. rewrite pow2_succ in Ha2, Hb2.
  assert (Hd : (0 < inject_Z d)%Q) by (pose proof (pow2_pos b); lra).
  assert (Hl : (2 ^ (a - b) == 2 ^ a / 2 ^ b)%Q).
  { apply Qpower_minus, two_not_zero. }
  pose proof (pow2_pos a) as Pa. pose proof (pow2_pos b) as Pb.
  assert (Hlo : (2 ^ (a - b) * (1 # 2) < Qabs q)%Q).
  { rewrite Habs, Hl.
    assert (E : (2 ^ a / 2 ^ b * (1 # 2) == 2 ^ a / (2 * 2 ^ b))%Q) by (field; lra).
    rewrite E.
    apply Qdiv_lt_cross; [lra|assumption|nra]. }
  assert (Hhi : (Qabs q < 2 * 2 ^ (a - b))%Q).
  { rewrite Habs, Hl.
    assert (E : (2 * (2 ^ a / 2 ^ b) == 2 * 2 ^ a / 2 ^ b)%Q) by (field; lra).
    rewrite E.
    apply Qdiv_lt_cross; [assumption|lra|nra]. }
  destruct (Qle_bool (2 ^ (a - b)) (Qabs q)) eqn:E.
  - apply Qle_bool_iff in E. rewrite pow2_succ. split; assumption.
  - assert (E' : (Qabs q < 2 ^ (a - b))%Q).
    { apply Qnot_le_lt. intros H. apply Qle_bool_iff in H. congruence. }
    replace (a - b - 1 + 1)%Z with (a - b)%Z by lia.
    split; [|assumption].
    assert (E2 : (2 ^ (a - b) == 2 * 2 ^ (a - b - 1))%Q).
    { rewrite <- pow2_succ. now replace (a - b - 1 + 1)%Z with (a - b)%Z by lia. }
    lra.
Qed.

Lemma ilog2_unique (q : Q) (l : Z) :
  (2 ^ l <= Qabs q)%Q -> (Qabs q < 2 ^ (l + 1))%Q -> ilog2 q = l.
Proof.
  intros H1 H2.
  assert (Hq : ~ (q == 0)%Q).
  { intros E. rewrite E in H1. pose proof (pow2_pos l). change (Qabs 0) with 0%Q in H1. lra. }
  destruct (ilog2_spec q Hq) as [H3 H4].
  assert (ilog2 q < l + 1)%Z by (apply pow2_lt_inv; lra).
  assert (l < ilog2 q + 1)%Z by (apply pow2_lt_inv; lra).
  lia.
Qed.

Lemma ilog2_proper (x y : Q) : ~ (x == 0)%Q -> (x == y)%Q -> ilog2 x = ilog2 y.
Proof.
  intros Hx E. symmetry. destruct (ilog2_spec x Hx) as [H1 H2].
  apply ilog2_unique; now rewrite <- E.
Qed.

Lemma ilog2_opp (q : Q) : ilog2 (- q) = ilog2 q.
Proof.
  unfold ilog2. destruct q as [a b]. cbn [Qopp Qnum Qden].
  rewrite Z.abs_opp.
  assert (E : (Qabs (- a # b) == Qabs (a # b))%Q) by apply (Qabs_opp (a # b)).
  now rewrite E.
Qed.

Lemma ilog2_le (x y : Q) :
  ~ (x == 0)%Q -> (Qabs x <= Qabs y)%Q -> (ilog2 x <= ilog2 y)%Z.
Proof.
  intros Hx H.
  assert (Hy : ~ (y == 0)%Q).
  { intros E. rewrite E in H. change (Qabs 0) with 0%Q in H.
    apply Hx. pose proof (Qabs_nonneg x).
    assert (E0 : (Qabs x == 0)%Q) by lra.
    destruct (Qabs_Qle_condition x 0) as [C _].
    destruct C; [lra|]. lra. }
  destruct (ilog2_spec x Hx) as [H1 _]. destruct (ilog2_spec y Hy) as [_ H2].
  assert (ilog2 x < ilog2 y + 1)%Z by (apply pow2_lt_inv; lra). lia.
Qed.

Lemma ilog2_lt_pow2 (q : Q) (p : Z) :
  ~ (q == 0)%Q -> (Qabs q < 2 ^ p)%Q -> (ilog2 q < p)%Z.
Proof.
  intros Hq H. destruct (ilog2_spec q Hq) as [H1 _].
  apply pow2_lt_inv. lra.
Qed.

(** *** Rounding to an integer *)

Lemma Qfloor_bounds (x : Q) :
  (inject_Z (Qfloor x) <= x /\ x < inject_Z (Qfloor x) + 1)%Q.
Proof.
  split; [apply Qfloor_le|].
  pose proof (Qlt_floor x) as H. rewrite inject_Z_plus in H. exact H.
Qed.

Lemma Qfloor_unique (x : Q) (f : Z) :
  (inject_Z f <= x)%Q -> (x < inject_Z f + 1)%Q -> Qfloor x = f.
Proof.
  intros H1 H2. destruct (Qfloor_bounds x) as [H3 H4].
  assert (A : (inject_Z f < inject_Z (Qfloor x + 1))%Q)
    by (rewrite inject_Z_plus; change (inject_Z 1) with 1%Q; lra).
  assert (B : (inject_Z (Qfloor x) < inject_Z (f + 1))%Q)
    by (rewrite inject_Z_plus; change (inject_Z 1) with 1%Q; lra).
  rewrite <- Zlt_Qlt in A, B. lia.
Qed.

Lemma round_half_even_cases (x : Q) :
  let f := Qfloor x in
  (round_half_even x = f /\ (x <= inject_Z f + (1 # 2))%Q /\
   ((x == inject_Z f + (1 # 2))%Q -> Z.even f = true)) \/
  (round_half_even x = (f + 1)%Z /\ (inject_Z f + (1 # 2) <= x)%Q /\
   ((x == inject_Z f + (1 # 2))%Q -> Z.even f = false)).
Proof.
  cbv zeta. unfold round_half_even.
  destruct (Qcompare_spec (x - inject_Z (Qfloor x)) (1 # 2)) as [E|E|E].
  - destruct (Z.even (Qfloor x)) eqn:Ev; [left|right];
      (split; [reflexivity|]; split; [lra|auto]).
  - left. split; [reflexivity|]. split; [lra|]. intros E'. lra.
  - right. split; [reflexivity|]. split; [lra|]. intros E'. lra.
Qed.

Lemma round_half_even_near (x : Q) :
  (x - (1 # 2) <= inject_Z (round_half_even x) /\
   inject_Z (round_half_even x) <= x + (1 # 2))%Q.
Proof.
  destruct (Qfloor_bounds x) as [H1 H2].
  destruct (round_half_even_cases x) as [(-> & H & _)|(-> & H & _)].
  - lra.
  - rewrite inject_Z_plus. change (inject_Z 1) with 1%Q. lra.
Qed.

Lemma round_half_even_Z (k : Z) : round_half_even (inject_Z k) = k.
Proof.
  unfold round_half_even. rewrite Qfloor_Z.
  destruct (Qcompare_spec (inject_Z k - inject_Z k) (1 # 2)) as [E|E|E];
    [lra|reflexivity|lra].
Qed.

Lemma round_half_even_proper (x y : Q) :
  (x == y)%Q -> round_half_even x = round_half_even y.
Proof.
  intros E. unfold round_half_even. rewrite (Qfloor_comp _ _ E).
  assert (E' : (x - inject_Z (Qfloor y) == y - inject_Z (Qfloor y))%Q) by now rewrite E.
  now rewrite (Qcompare_comp _ _ E' _ _ (Qeq_refl (1 # 2))).
Qed.

Lemma round_half_even_le (x y : Q) :
  (x <= y)%Q -> (round_half_even x <= round_half_even y)%Z.
Proof.
  intros H.
  assert (Hf : (Qfloor x <= Qfloor y)%Z) by now apply Qfloor_resp_le.
  destruct (Qfloor_bounds x) as [X1 X2]. destruct (Qfloor_bounds y) as [Y1 Y2].
  destruct (round_half_even_cases x) as [(-> & Hx & Ex)|(-> & Hx & Ex)];
    destruct (round_half_even_cases y) as [(-> & Hy & Ey)|(-> & Hy & Ey)];
    try lia.
  destruct (Z.eq_dec (Qfloor x) (Qfloor y)) as [E|]; [|lia].
  exfalso. rewrite E in *.
  assert (Ex' : (x == inject_Z (Qfloor y) + (1 # 2))%Q) by lra.
  assert (Ey' : (y == inject_Z (Qfloor y) + (1 # 2))%Q) by lra.
  rewrite (Ex Ex') in Ey. now specialize (Ey Ey').
Qed.

Lemma Qfloor_opp_integer (x : Q) (f : Z) :
  (x == inject_Z f)%Q -> Qfloor (- x) = (- f)%Z.
Proof.
  intros E. apply Qfloor_unique; rewrite inject_Z_opp; lra.
Qed.

Lemma Qfloor_opp_fraction (x : Q) :
  (inject_Z (Qfloor x) < x)%Q -> Qfloor (- x) = (- Qfloor x - 1)%Z.
Proof.
  intros H. destruct (Qfloor_bounds x) as [_ H2].
  apply Qfloor_unique; unfold Z.sub; rewrite inject_Z_plus, inject_Z_opp;
    change (inject_Z (- (1))) with (- (1))%Q; lra.
Qed.

Lemma round_half_even_opp (x : Q) :
  round_half_even (- x) = (- round_half_even x)%Z.
Proof.
  destruct (Qfloor_bounds x) as [H1 H2].
  destruct (Qeq_dec x (inject_Z (Qfloor x))) as [E|E].
  - rewrite (round_half_even_proper x _ E), round_half_even_Z.
    assert (E' : (- x == inject_Z (- Qfloor x))%Q) by (rewrite inject_Z_opp; lra).
    now rewrite (round_half_even_proper _ _ E'), round_half_even_Z.
  - assert (H : (inject_Z (Qfloor x) < x)%Q) by (apply Qlt_leneq; split; [assumption|]; intros E'; apply E; lra).
    pose proof (Qfloor_opp_fraction x H) as F.
    destruct (round_half_even_cases x) as [(-> & Hx & Ex)|(-> & Hx & Ex)];
      destruct (round_half_even_cases (- x)) as [(-> & Hy & Ey)|(-> & Hy & Ey)];
      rewrite F in *; try lia.
    + exfalso. unfold Z.sub in Hy. rewrite inject_Z_plus, inject_Z_opp in Hy.
      change (inject_Z (- (1))) with (- (1))%Q in Hy.
      assert (Ex' : (x == inject_Z (Qfloor x) + (1 # 2))%Q) by lra.
      assert (Ey' : (- x == inject_Z (- Qfloor x - 1) + (1 # 2))%Q).
      { unfold Z.sub. rewrite inject_Z_plus, inject_Z_opp.
        change (inject_Z (- (1))) with (- (1))%Q. lra. }
      specialize (Ex Ex'). specialize (Ey Ey').
      rewrite Z.even_sub, Z.even_opp, Ex in Ey. discriminate Ey.
    + exfalso. unfold Z.sub in Hy. rewrite inject_Z_plus, inject_Z_opp in Hy.
      change (inject_Z (- (1))) with (- (1))%Q in Hy.
      assert (Ex' : (x == inject_Z (Qfloor x) + (1 # 2))%Q) by lra.
      assert (Ey' : (- x == inject_Z (- Qfloor x - 1) + (1 # 2))%Q).
      { unfold Z.sub. rewrite inject_Z_plus, inject_Z_opp.
        change (inject_Z (- (1))) with (- (1))%Q. lra. }
      specialize (Ex Ex'). specialize (Ey Ey').
      rewrite Z.even_sub, Z.even_opp, Ex in Ey. discriminate Ey.
Qed.

(** *** The nearest double *)

Lemma nearest_double_eq (q : Q) :
  (nearest_double q ==
   inject_Z (round_half_even (q / 2 ^ last_place q)) * 2 ^ last_place q)%Q.
Proof. unfold nearest_double. apply Qred_correct. Qed.

Lemma last_place_proper (x y : Q) :
  ~ (x == 0)%Q -> (x == y)%Q -> last_place x = last_place y.
Proof. intros Hx E. unfold last_place. now rewrite (ilog2_proper x y). Qed.

Lemma nearest_double_zero (q : Q) : (q == 0)%Q -> nearest_double q = 0%Q.
Proof.
  intros E. unfold nearest_double.
  assert (E' : (q / 2 ^ last_place q == inject_Z 0)%Q).
  { assert (Hn : Qnum q = 0%Z) by (unfold Qeq in E; simpl in E; lia).
    unfold Qeq, Qdiv, Qmult. cbn [Qnum Qden inject_Z]. rewrite Hn. reflexivity. }
  rewrite (round_half_even_proper _ _ E'), round_half_even_Z.
  change 0%Q with (Qred 0). apply Qred_complete.
  change (inject_Z 0) with 0%Q. ring.
Qed.

Lemma nearest_double_proper (x y : Q) :
  (x == y)%Q -> nearest_double x = nearest_double y.
Proof.
  intros E. destruct (Qeq_dec x 0) as [Hx|Hx].
  - rewrite (nearest_double_zero x Hx), (nearest_double_zero y); [reflexivity|].
    now rewrite <- E.
  - unfold nearest_double. rewrite <- (last_place_proper x y Hx E).
    apply Qred_complete.
    assert (E' : (x / 2 ^ last_place x == y / 2 ^ last_place x)%Q)
      by (unfold Qdiv; apply Qmult_comp; [exact E|reflexivity]).
    now rewrite (round_half_even_proper _ _ E').
Qed.

Lemma nearest_double_error (q : Q) :
  (Qabs (nearest_double q - q) <= 2 ^ last_place q * (1 # 2))%Q.
Proof.
  rewrite nearest_double_eq.
  pose proof (pow2_pos (last_place q)) as HP.
  pose proof (pow2_cancel (last_place q) q) as Hq.
  destruct (round_half_even_near (q / 2 ^ last_place q)) as [H1 H2].
  revert HP Hq H1 H2.
  generalize (inject_Z (round_half_even (q / 2 ^ last_place q))).
  generalize (q / 2 ^ last_place q)%Q. generalize (2 ^ last_place q)%Q.
  intros P s m HP Hq H1 H2. apply Qabs_Qle_condition. rewrite <- Hq.
  split; nra.
Qed.

Lemma Qabs_inject_Z (m : Z) : (Qabs (inject_Z m) == inject_Z (Z.abs m))%Q.
Proof. unfold inject_Z. now rewrite <- Zabs_Qabs. Qed.

Lemma last_place_le (q : Q) (p : Z) :
  ~ (q == 0)%Q -> (Qabs q < 2 ^ (p + 53))%Q -> (-1074 <= p)%Z ->
  (last_place q <= p)%Z.
Proof.
  intros Hq H Hp. unfold last_place.
  pose proof (ilog2_lt_pow2 q (p + 53) Hq H). lia.
Qed.

(** A number with at most 53 significant bits and no bit below
    [2^-1074] is a double. *)
Lemma nearest_double_exact (q : Q) (m e : Z) :
  (q == inject_Z m * 2 ^ e)%Q -> (Z.abs m < 2 ^ 53)%Z -> (-1074 <= e)%Z ->
  (nearest_double q == q)%Q.
Proof.
  intros E Hm He. destruct (Qeq_dec q 0) as [Hq|Hq].
  { rewrite (nearest_double_zero q Hq). now symmetry. }
  assert (Hp : (last_place q <= e)%Z).
  { apply last_place_le; [assumption| |assumption].
    rewrite E, Qabs_Qmult, Qabs_inject_Z, (Qabs_pos (2 ^ e)), Z.add_comm, pow2_plus
      by (pose proof (pow2_pos e); lra).
    apply Qmult_lt_compat_r; [apply pow2_pos|].
    rewrite pow2_Z by lia. now rewrite <- Zlt_Qlt. }
  rewrite nearest_double_eq.
  set (p := last_place q) in *.
  assert (Es : (q / 2 ^ p == inject_Z (m * 2 ^ (e - p)))%Q).
  { rewrite E, inject_Z_mult, <- pow2_Z by lia.
    unfold Z.sub. rewrite pow2_plus, Qpower_opp. field.
    pose proof (pow2_pos p). lra. }
  rewrite (round_half_even_proper _ _ Es), round_half_even_Z.
  rewrite <- Es. apply pow2_cancel.
Qed.

Lemma nearest_double_reduced (q : Q) : Qred (nearest_double q) = nearest_double q.
Proof. unfold nearest_double. apply Qred_complete, Qred_correct. Qed.

Lemma nearest_double_fixed (q : Q) :
  (nearest_double q == q)%Q -> Qred q = q -> nearest_double q = q.
Proof.
  intros E Hq. rewrite <- Hq at 2. rewrite <- nearest_double_reduced.
  now apply Qred_complete.
Qed.

Lemma nearest_double_opp (q : Q) : (nearest_double (- q) == - nearest_double q)%Q.
Proof.
  rewrite !nearest_double_eq.
  assert (Ep : last_place (- q) = last_place q)
    by (unfold last_place; now rewrite ilog2_opp).
  rewrite Ep.
  assert (E : (- q / 2 ^ last_place q == - (q / 2 ^ last_place q))%Q).
  { unfold Qdiv. ring. }
  rewrite (round_half_even_proper _ _ E), round_half_even_opp, inject_Z_opp.
  ring.
Qed.

Lemma Qdiv_pow2_le (x y : Q) (p : Z) : (x <= y)%Q -> (x / 2 ^ p <= y / 2 ^ p)%Q.
Proof.
  intros H. unfold Qdiv. apply Qmult_le_compat_r; [assumption|].
  apply Qlt_le_weak, Qinv_lt_0_compat, pow2_pos.
Qed.

Lemma nearest_double_nonneg (q : Q) : (0 <= q)%Q -> (0 <= nearest_double q)%Q.
Proof.
  intros H. rewrite nearest_double_eq.
  apply Qmult_le_0_compat; [|apply Qlt_le_weak, pow2_pos].
  change 0%Q with (inject_Z 0). rewrite <- Zle_Qle.
  rewrite <- (round_half_even_Z 0). apply round_half_even_le.
  apply Qle_shift_div_l; [apply pow2_pos|].
  change (inject_Z 0) with 0%Q. lra.
Qed.

Lemma nearest_double_nonpos (q : Q) : (q <= 0)%Q -> (nearest_double q <= 0)%Q.
Proof.
  intros H. assert (H' : (0 <= - q)%Q) by lra.
  apply nearest_double_nonneg in H'. rewrite nearest_double_opp in H'. lra.
Qed.

Lemma Qabs_pos_eq (q : Q) : (0 < q)%Q -> (Qabs q == q)%Q.
Proof. intros H. apply Qabs_pos. lra. Qed.

Lemma nearest_double_le_pos (x y : Q) :
  (0 < x)%Q -> (x <= y)%Q -> (nearest_double x <= nearest_double y)%Q.
Proof.
  intros Hx Hxy.
  assert (Hy : (0 < y)%Q) by lra.
  assert (Nx : ~ (x == 0)%Q) by lra. assert (Ny : ~ (y == 0)%Q) by lra.
  assert (Hl : (ilog2 x <= ilog2 y)%Z).
  { apply ilog2_le; [assumption|]. rewrite !Qabs_pos_eq by assumption. assumption. }
  destruct (ilog2_spec x Nx) as [_ X2]. destruct (ilog2_spec y Ny) as [Y1 _].
  rewrite Qabs_pos_eq in X2, Y1 by assumption.
  rewrite !nearest_double_eq.
  destruct (Z.eq_dec (last_place x) (last_place y)) as [E|E].
  - rewrite E. apply Qmult_le_compat_r; [|apply Qlt_le_weak, pow2_pos].
    rewrite <- Zle_Qle. apply round_half_even_le. now apply Qdiv_pow2_le.
  - assert (Hp : (last_place x + 1 <= last_place y)%Z) by (unfold last_place in *; lia).
    assert (Ey : last_place y = (ilog2 y - 52)%Z) by (unfold last_place in *; lia).
    assert (Ex : (ilog2 x + 1 <= last_place x + 53)%Z) by (unfold last_place; lia).
    set (px := last_place x) in *. set (py := last_place y) in *.
    assert (Mx : (round_half_even (x / 2 ^ px) <= 2 ^ 53)%Z).
    { rewrite <- (round_half_even_Z (2 ^ 53)). apply round_half_even_le.
      apply Qle_shift_div_r; [apply pow2_pos|].
      rewrite <- pow2_Z, <- pow2_plus by lia.
      apply Qlt_le_weak. eapply Qlt_le_trans; [exact X2|].
      apply pow2_le. lia. }
    assert (My : (2 ^ 52 <= round_half_even (y / 2 ^ py))%Z).
    { rewrite <- (round_half_even_Z (2 ^ 52)) at 1. apply round_half_even_le.
      apply Qle_shift_div_l; [apply pow2_pos|].
      rewrite <- pow2_Z, <- pow2_plus by lia.
      eapply Qle_trans; [|exact Y1]. apply pow2_le. lia. }
    rewrite Zle_Qle in Mx, My. rewrite <- !pow2_Z in Mx, My by lia.
    assert (P : (2 ^ 53 * 2 ^ px <= 2 ^ 52 * 2 ^ py)%Q).
    { rewrite <- !pow2_plus. apply pow2_le. lia. }
    pose proof (pow2_pos px). pose proof (pow2_pos py).
    eapply Qle_trans; [apply Qmult_le_compat_r; [exact Mx|lra]|].
    eapply Qle_trans; [exact P|]. apply Qmult_le_compat_r; [exact My|lra].
Qed.

(** Rounding to the nearest double is monotone. *)
Lemma nearest_double_le (x y : Q) :
  (x <= y)%Q -> (nearest_double x <= nearest_double y)%Q.
Proof.
  intros H. destruct (Qlt_le_dec 0 x) as [Hx|Hx].
  - now apply nearest_double_le_pos.
  - destruct (Qlt_le_dec y 0) as [Hy|Hy].
    + assert (H' : (nearest_double (- y) <= nearest_double (- x))%Q)
        by (apply nearest_double_le_pos; lra).
      rewrite !nearest_double_opp in H'. lra.
    + pose proof (nearest_double_nonpos x Hx).
      pose proof (nearest_double_nonneg y Hy). lra.
Qed.

(** Within the range of the doubles, the number for [q] is the nearest
    double. *)
Lemma double_finite (q : Q) :
  (Qabs (nearest_double q) < 2 ^ 1024)%Q -> double q = Fin (nearest_double q).
Proof.
  intros H. unfold double.
  destruct (Qle_bool (2 ^ 1024) (Qabs (nearest_double q))) eqn:E; [|reflexivity].
  apply Qle_bool_iff in E. lra.
Qed.

Lemma double_proper (x y : Q) : (x == y)%Q -> double x = double y.
Proof. intros E. unfold double. now rewrite (nearest_double_proper x y E). Qed.

Lemma Qred_inject_Z (m : Z) : Qred (inject_Z m) = inject_Z m.
Proof.
  unfold inject_Z, Qred. cbn [Qnum Qden].
  pose proof (Z.ggcd_gcd m 1) as G. pose proof (Z.ggcd_correct_divisors m 1) as D.
  destruct (Z.ggcd m 1) as [g [a b]]. cbn [fst] in G. rewrite Z.gcd_1_r in G.
  subst g. destruct D as [-> D]. rewrite Z.mul_1_l in D. subst b.
  now rewrite Z.mul_1_l.
Qed.

Lemma nearest_double_integer (m : Z) :
  (Z.abs m < 2 ^ 53)%Z -> nearest_double (inject_Z m) = inject_Z m.
Proof.
  intros Hm. apply nearest_double_fixed.
  - apply (nearest_double_exact _ m 0); [|assumption|lia].
    change (2 ^ 0)%Q with 1%Q. ring.
  - apply Qred_inject_Z.
Qed.

(** A number of magnitude below [2^p] that lies within the range of the doubles *)
Lemma double_bounded (q : Q) (b : Z) :
  (Z.abs b < 2 ^ 53)%Z -> (Qabs q <= inject_Z (Z.abs b))%Q ->
  double q = Fin (nearest_double q) /\
  (Qabs (nearest_double q) <= inject_Z (Z.abs b))%Q.
Proof.
  intros Hb H.
  assert (B : (Qabs (nearest_double q) <= inject_Z (Z.abs b))%Q).
  { apply Qabs_Qle_condition in H as [H1 H2]. apply Qabs_Qle_condition.
    rewrite <- (nearest_double_integer (Z.abs b)) by lia.
    split.
    - rewrite <- nearest_double_opp. now apply nearest_double_le.
    - now apply nearest_double_le. }
  split; [|assumption]. apply double_finite.
  eapply Qle_lt_trans; [exact B|].
  rewrite (pow2_Z 1024) by lia. rewrite <- Zlt_Qlt.
  assert ((2 ^ 53 < 2 ^ 1024)%Z) by (apply Z.pow_lt_mono_r; lia). lia.
Qed.

(** *** Rounding to one decimal place *)

Lemma Qmake_inject_Z (a : Z) (d : positive) :
  (a # d == inject_Z a / inject_Z (Zpos d))%Q.
Proof. unfold Qeq, Qdiv, Qmult, Qinv, inject_Z. simpl. lia. Qed.

Lemma Qabs_Z_le (a b : Z) : (Z.abs a <= b)%Z -> (Qabs (inject_Z a) <= inject_Z b)%Q.
Proof. intros H. rewrite Qabs_inject_Z. now rewrite <- Zle_Qle. Qed.

Lemma tenth_abs (a : Z) : (Qabs (a # 10) == inject_Z (Z.abs a) * (1 # 10))%Q.
Proof. rewrite <- Zabs_Qabs. unfold Qeq, Qmult, inject_Z. simpl. lia. Qed.

(** The double nearest to a tenth is within [2^-27] of it. *)
Lemma tenth_error (a : Z) :
  (Z.abs a <= 1000000000)%Z ->
  (Qabs (nearest_double (a # 10) - (a # 10)) <= 1 # 134217728)%Q.
Proof.
  intros Ha. destruct (Z.eq_dec a 0%Z) as [->|Hn].
  { rewrite nearest_double_zero by reflexivity. discriminate. }
  eapply Qle_trans; [apply nearest_double_error|].
  assert (Hp : (last_place (a # 10) <= -26)%Z).
  { apply last_place_le; [| |lia].
    - unfold Qeq. simpl. lia.
    - rewrite tenth_abs. rewrite Zle_Qle in Ha.
      change (2 ^ (-26 + 53))%Q with 134217728%Q.
      change (inject_Z 1000000000) with 1000000000%Q in Ha.
      revert Ha. generalize (inject_Z (Z.abs a)). intros; lra. }
  apply pow2_le in Hp. change (2 ^ (-26))%Q with (1 # 67108864)%Q in Hp. lra.
Qed.

Lemma quarter_exact (a : Z) (s : Z) :
  (Z.abs a <= 1000000001)%Z -> (Z.abs s <= 1)%Z ->
  (nearest_double (inject_Z a + inject_Z s * (1 # 4)) ==
   inject_Z a + inject_Z s * (1 # 4))%Q.
Proof.
  intros Ha Hs. apply (nearest_double_exact _ (4 * a + s) (-2)); [|lia|lia].
  rewrite inject_Z_plus, inject_Z_mult. change (2 ^ (-2))%Q with (1 # 4)%Q.
  change (inject_Z 4) with 4%Q. ring.
Qed.

(** Between two tenths, the product by 10 and the quotient by 10 stay
    within the range of the doubles, and [Math.round] of the product lies
    between the two numerators. *)
Lemma round1_tenth (q : Q) (a b : Z) :
  (Z.abs a <= 1000000000)%Z -> (Z.abs b <= 1000000000)%Z ->
  (nearest_double (a # 10) <= q)%Q -> (q <= nearest_double (b # 10))%Q ->
  exists k : Z,
    (a <= k <= b)%Z /\
    round1 q = Fin (nearest_double (k # 10)) /\
    (inject_Z k - (1 # 2) <= nearest_double (q * inject_Z 10))%Q /\
    (nearest_double (q * inject_Z 10) < inject_Z k + (1 # 2))%Q.
Proof.
  intros Ha Hb Hlo Hhi.
  pose proof (tenth_error a Ha) as Ea. pose proof (tenth_error b Hb) as Eb.
  apply Qabs_Qle_condition in Ea, Eb.
  assert (Ta : (a # 10 == inject_Z a * (1 # 10))%Q)
    by (unfold Qeq, Qmult, inject_Z; simpl; lia).
  assert (Tb : (b # 10 == inject_Z b * (1 # 10))%Q)
    by (unfold Qeq, Qmult, inject_Z; simpl; lia).
  change (inject_Z 10) with 10%Q.
  assert (P1 : (inject_Z a + inject_Z (-1) * (1 # 4) <= q * 10)%Q).
  { change (inject_Z (-1)) with (- (1))%Q. lra. }
  assert (P2 : (q * 10 <= inject_Z b + inject_Z 1 * (1 # 4))%Q).
  { change (inject_Z 1) with 1%Q. lra. }
  apply nearest_double_le in P1, P2.
  rewrite quarter_exact in P1, P2 by lia.
  change (inject_Z (-1)) with (- (1))%Q in P1. change (inject_Z 1) with 1%Q in P2.
  set (x := nearest_double (q * 10)) in *.
  exists (Qfloor (x + (1 # 2))).
  destruct (Qfloor_bounds (x + (1 # 2))) as [F1 F2].
  assert (Hk : (a <= Qfloor (x + (1 # 2)) <= b)%Z).
  { split.
    - rewrite <- (Qfloor_Z a). apply Qfloor_resp_le. lra.
    - apply Z.lt_succ_r. unfold Z.succ. rewrite Zlt_Qlt, inject_Z_plus.
      change (inject_Z 1) with 1%Q. lra. }
  split; [exact Hk|]. split; [|split; lra].
  unfold round1, num_mul, num_of_Z. change (inject_Z 10) with 10%Q.
  assert (Ba : (- inject_Z 1000000000 <= inject_Z a)%Q /\
               (inject_Z b <= inject_Z 1000000000)%Q).
  { rewrite <- inject_Z_opp, <- !Zle_Qle. lia. }
  change (inject_Z 1000000000) with 1000000000%Q in Ba.
  destruct (double_bounded (q * 10) 1000000001) as [-> _]; [lia| |].
  { apply Qabs_Qle_condition. change (inject_Z (Z.abs 1000000001)) with 1000000001%Q.
    lra. }
  fold x. cbn [Math_round num_div Qnum]. cbv iota.
  change (Qnum 10 =? 0)%Z with false. cbv iota.
  set (k := Qfloor (x + (1 # 2))) in *.
  rewrite (double_proper (inject_Z k / 10) (k # 10))
    by (symmetry; apply Qmake_inject_Z).
  destruct (double_bounded (k # 10) 1000000000) as [-> _]; [lia| |reflexivity].
  rewrite tenth_abs. change (inject_Z (Z.abs 1000000000)) with 1000000000%Q.
  assert (Hz : (inject_Z (Z.abs k) <= 1000000000)%Q).
  { change 1000000000%Q with (inject_Z 1000000000). rewrite <- Zle_Qle. lia. }
  pose proof (Qabs_nonneg (inject_Z k)) as N. rewrite Qabs_inject_Z in N. lra.
Qed.

Lemma tenth_le (a b : Z) :
  (a <= b)%Z -> (nearest_double (a # 10) <= nearest_double (b # 10))%Q.
Proof.
  intros H. apply nearest_double_le. unfold Qle. simpl. lia.
Qed.

(** A tenth is left as it is. *)
Lemma round1_fixed (k : Z) :
  (Z.abs k <= 1000000000)%Z ->
  round1 (nearest_double (k # 10)) = Fin (nearest_double (k # 10)).
Proof.
  intros Hk.
  destruct (round1_tenth (nearest_double (k # 10)) k k Hk Hk)
    as (k' & Hk' & -> & _); [apply Qle_refl..|].
  now replace k' with k by lia.
Qed.

(** The rounded number is within [0.05] of the number, up to the
    rounding errors of the product and of the quotient. *)
Lemma round1_near (q : Q) (a b k : Z) :
  (Z.abs a <= 1000000000)%Z -> (Z.abs b <= 1000000000)%Z ->
  (nearest_double (a # 10) <= q)%Q -> (q <= nearest_double (b # 10))%Q ->
  (a <= k <= b)%Z ->
  (inject_Z k - (1 # 2) <= nearest_double (q * inject_Z 10))%Q ->
  (nearest_double (q * inject_Z 10) < inject_Z k + (1 # 2))%Q ->
  (Qabs (nearest_double (k # 10) - q) <= (1 # 20) + (1 # 1000000))%Q.
Proof.
  intros Ha Hb Hlo Hhi Hk K1 K2.
  pose proof (tenth_error a Ha) as Ea. pose proof (tenth_error b Hb) as Eb.
  assert (Hk' : (Z.abs k <= 1000000000)%Z) by lia.
  pose proof (tenth_error k Hk') as Ek.
  apply Qabs_Qle_condition in Ea, Eb, Ek.
  assert (Ta : (a # 10 == inject_Z a * (1 # 10))%Q)
    by (unfold Qeq, Qmult, inject_Z; simpl; lia).
  assert (Tb : (b # 10 == inject_Z b * (1 # 10))%Q)
    by (unfold Qeq, Qmult, inject_Z; simpl; lia).
  assert (Tk : (k # 10 == inject_Z k * (1 # 10))%Q)
    by (unfold Qeq, Qmult, inject_Z; simpl; lia).
  assert (Ba : (- inject_Z 1000000000 <= inject_Z a)%Q /\
               (inject_Z b <= inject_Z 1000000000)%Q).
  { rewrite <- inject_Z_opp, <- !Zle_Qle. lia. }
  change (inject_Z 1000000000) with 1000000000%Q in Ba.
  change (inject_Z 10) with 10%Q in *.
  assert (E : (Qabs (nearest_double (q * 10) - q * 10) <= 1 # 4194304)%Q).
  { destruct (Qeq_dec (q * 10) 0) as [Z0|N0].
    - rewrite (nearest_double_zero _ Z0), Z0. discriminate.
    - eapply Qle_trans; [apply nearest_double_error|].
      assert (Hp : (last_place (q * 10) <= -21)%Z).
      { apply last_place_le; [assumption| |lia].
        change (2 ^ (-21 + 53))%Q with 4294967296%Q.
        apply Qabs_Qlt_condition. lra. }
      apply pow2_le in Hp. change (2 ^ (-21))%Q with (1 # 2097152)%Q in Hp. lra. }
  apply Qabs_Qle_condition in E. apply Qabs_Qle_condition.
  lra.
Qed.

Close Scope Q_scope.

(** ** [validateRange] *)

Lemma Number_coercible (value : JSValue) :
  (coercible value = true <-> exists num, Number value = Return num) /\
  (coercible value = false <-> exists e, Number value = Throw e).
Proof.
  unfold coercible, Number, and_then.
  destruct (ToPrimitive value) as [p|e]; split; split;
    try discriminate; try (intros [x [=]]); eauto.
Qed.

Lemma validateRange_raises (value : JSValue) (min max d : Num) (e : Exn) :
  Number value = Throw e -> validateRange value min max d = Throw e.
Proof. intros E. unfold validateRange. now rewrite E. Qed.

Lemma validateRange_coercible (value : JSValue) (min max d : Num) :
  (coercible value = true -> exists r, validateRange value min max d = Return r) /\
  (coercible value = false -> exists e, validateRange value min max d = Throw e).
Proof.
  destruct (Number_coercible value) as [[H1 _] [H2 _]]. split; intros C.
  - destruct (H1 C) as [num E]. unfold validateRange. rewrite E. cbn. eauto.
  - destruct (H2 C) as [e E]. exists e. now apply validateRange_raises.
Qed.

Lemma validateRange_finite (value : JSValue) (q lo hi : Q) (d : Num) :
  Number value = Return (Fin q) ->
  validateRange value (Fin lo) (Fin hi) d =
  Return (if Qltb q lo || Qltb hi q then d else round1 q).
Proof.
  intros E. unfold validateRange. rewrite E.
  cbn [and_then isNaN orb num_ltb num_gtb]. reflexivity.
Qed.

Lemma validateRange_not_finite (value : JSValue) (num : Num) (lo hi : Q) (d : Num) :
  Number value = Return num -> (forall q, num <> Fin q) ->
  validateRange value (Fin lo) (Fin hi) d = Return d.
Proof.
  intros E H. unfold validateRange. rewrite E.
  destruct num as [| | |q]; try reflexivity. now destruct (H q).
Qed.

Lemma validateRange_cases (value : JSValue) (lo hi : Q) (d : Num) :
  (exists e, Number value = Throw e /\
             validateRange value (Fin lo) (Fin hi) d = Throw e) \/
  validateRange value (Fin lo) (Fin hi) d = Return d \/
  exists q, Number value = Return (Fin q) /\ (lo <= q)%Q /\ (q <= hi)%Q /\
            validateRange value (Fin lo) (Fin hi) d = Return (round1 q).
Proof.
  destruct (Number value) as [num|e] eqn:E.
  2: { left. exists e. split; [reflexivity|]. now apply validateRange_raises. }
  right. destruct num as [| | |q].
  1-3: left; eapply validateRange_not_finite; [eassumption|]; intros q; congruence.
  rewrite (validateRange_finite _ q) by assumption.
  destruct (Qltb q lo) eqn:E1; [now left|].
  destruct (Qltb hi q) eqn:E2; [now left|].
  right. exists q. apply Qltb_false in E1, E2. auto.
Qed.

(** Between bounds that are tenths, a value that is returned is the
    default or a tenth between the bounds. *)
Lemma validateRange_tenths (value : JSValue) (lo hi : Q) (a b : Z) (d r : Num) :
  tenth_double lo a -> tenth_double hi b ->
  validateRange value (Fin lo) (Fin hi) d = Return r ->
  r = d \/ exists k, (a <= k <= b)%Z /\ r = Fin (nearest_double (k # 10)).
Proof.
  intros [Ha ->] [Hb ->] E.
  destruct (validateRange_cases value (nearest_double (a # 10))
              (nearest_double (b # 10)) d)
    as [(e & _ & E') | [E' | (q & _ & H1 & H2 & E')]];
    rewrite E' in E; [discriminate|injection E as <-; now left|].
  injection E as <-. right.
  destruct (round1_tenth q a b Ha Hb H1 H2) as (k & Hk & -> & _). eauto.
Qed.

Lemma tenth_in_range (a b k : Z) :
  (a <= k <= b)%Z ->
  in_range (Fin (nearest_double (k # 10)))
           (nearest_double (a # 10)) (nearest_double (b # 10)).
Proof. intros [H1 H2]. split; now apply tenth_le. Qed.

Lemma validateRange_valid (value : JSValue) (lo hi : Q) (a b : Z) (d r : Num) :
  tenth_double lo a -> tenth_double hi b -> in_range d lo hi ->
  validateRange value (Fin lo) (Fin hi) d = Return r ->
  in_range r lo hi.
Proof.
  intros Hlo Hhi Hd E.
  destruct (validateRange_tenths value lo hi a b d r Hlo Hhi E)
    as [-> | (k & Hk & ->)]; [assumption|].
  destruct Hlo as [_ ->], Hhi as [_ ->]. now apply tenth_in_range.
Qed.

(** The bounds of the call sites. *)
Lemma tenth_double_1 : tenth_double (inject_Z 1) 10.
Proof. split; [simpl; lia|]. vm_compute. reflexivity. Qed.

Lemma tenth_double_10 : tenth_double (inject_Z 10) 100.
Proof. split; [simpl; lia|]. vm_compute. reflexivity. Qed.

Lemma tenth_double_half : tenth_double (1 # 2) 5.
Proof. split; [simpl; lia|]. vm_compute. reflexivity. Qed.

Lemma tenth_double_20 : tenth_double (inject_Z 20) 200.
Proof. split; [simpl; lia|]. vm_compute. reflexivity. Qed.

Lemma tenth_double_40 : tenth_double (inject_Z 40) 400.
Proof. split; [simpl; lia|]. vm_compute. reflexivity. Qed.

(** C5, as stated, fails: with [min = 1] and [max = 1.25] the value [1.25]
    is within the range, is rounded to [1.3], and [1.3] is neither within
    the range nor the default [5]; and with [max = 1e308] the product of
    [2e307] by 10 overflows, so that the result is [Infinity]. *)
Lemma validateRange_leaves_range :
  (exists r,
     validateRange (JNum (Fin (5 # 4))) (num_of_Z 1) (Fin (5 # 4)) (num_of_Z 5)
       = Return r /\
     r = double (13 # 10) /\ ~ in_range r 1 (5 # 4) /\ r <> num_of_Z 5) /\
  validateRange (JStr "2e307") (num_of_Z 1) (double (inject_Z (10 ^ 308)))
    (num_of_Z 5) = Return PInf.
Proof.
  split.
  - eexists. split; [vm_compute; reflexivity|].
    split; [vm_compute; reflexivity|]. split; [|discriminate].
    intros [_ H]. vm_compute in H. now apply H.
  - vm_compute. reflexivity.
Qed.

(** C5, amended: [validateRange] coerces the value to a number, and
    raises when the coercion raises.  Otherwise, when that number is
    not-a-number or outside [[min,max]] it returns exactly the default;
    and else it returns the number rounded to one decimal place: the
    double nearest to [k / 10], where [k] is [Math.round] of the double
    product of the number by 10.  That result is within [0.05] of the
    number, up to a rounding error below [10^-6], and, [min] and [max]
    being the doubles nearest to tenths of magnitude [10^8] at most, it
    is within [[min,max]]. *)
Theorem validateRange_in_range_or_default (value : JSValue) (lo hi : Q) (a b : Z)
    (d : Num) :
  tenth_double lo a -> tenth_double hi b ->
  (forall e, Number value = Throw e ->
     validateRange value (Fin lo) (Fin hi) d = Throw e) /\
  (forall num, Number value = Return num ->
     exists r,
       validateRange value (Fin lo) (Fin hi) d = Return r /\
       (in_range r lo hi \/ r = d) /\
       (forall q, num = Fin q -> (lo <= q)%Q -> (q <= hi)%Q ->
          exists k : Z,
            r = Fin (nearest_double (k # 10)) /\
            (inject_Z k - (1 # 2) <= nearest_double (q * 10))%Q /\
            (nearest_double (q * 10) < inject_Z k + (1 # 2))%Q /\
            (Qabs (nearest_double (k # 10) - q) <= (1 # 20) + (1 # 1000000))%Q) /\
       ((forall q, num = Fin q -> ~ (lo <= q /\ q <= hi)%Q) -> r = d)).
Proof.
  intros Hlo Hhi. split; [intros e; apply validateRange_raises|].
  intros num E.
  destruct (validateRange_coercible value (Fin lo) (Fin hi) d) as [C _].
  destruct C as [r Er]; [apply Number_coercible; eauto|].
  exists r. split; [assumption|]. split; [|split].
  - destruct (validateRange_tenths value lo hi a b d r Hlo Hhi Er)
      as [-> | (k & Hk & ->)]; [now right|left].
    destruct Hlo as [_ ->], Hhi as [_ ->]. now apply tenth_in_range.
  - intros q -> H1 H2. rewrite (validateRange_finite _ q) in Er by assumption.
    apply Qltb_false in H1, H2. rewrite H1, H2 in Er. cbn [orb] in Er.
    injection Er as <-. destruct Hlo as [Ha ->], Hhi as [Hb ->].
    apply Qltb_false in H1, H2.
    destruct (round1_tenth q a b Ha Hb H1 H2) as (k & Hk & -> & K1 & K2).
    exists k. split; [reflexivity|]. split; [exact K1|]. split; [exact K2|].
    now apply (round1_near q a b k).
  - intros Hout.
    destruct (validateRange_cases value lo hi d)
      as [(e & E' & _) | [E' | (q & E' & H1 & H2 & _)]].
    + congruence.
    + congruence.
    + rewrite E in E'. injection E' as ->. now destruct (Hout q eq_refl).
Qed.

Lemma validateRange_in_range_or_default_witness :
  exists r,
    validateRange (JStr "7.26") (Fin 1) (Fin 10) (num_of_Z 5) = Return r /\
    (in_range r 1 10 \/ r = num_of_Z 5).
Proof.
  destruct (validateRange_in_range_or_default (JStr "7.26") 1 10 10 100 (num_of_Z 5))
    as [_ H].
  - split; [simpl; lia|vm_compute; reflexivity].
  - split; [simpl; lia|vm_compute; reflexivity].
  - destruct (H (StringToNumber "7.26") eq_refl) as (r & E & R & _).
    exists r. split; assumption.
Defined.

(** C6, as stated, fails: a default such as [5.25] is itself rounded when
    it is validated again; a result that left the range, such as the
    [1.3] obtained from [1.25] with [max = 1.25], is replaced by the
    default; and so is the [Infinity] obtained from [2e307] with
    [max = 1e308]. *)
Lemma validateRange_not_idempotent :
  (validateRange JUndefined (num_of_Z 1) (num_of_Z 10) (Fin (21 # 4))
     = Return (Fin (21 # 4)) /\
   validateRange (JNum (Fin (21 # 4))) (num_of_Z 1) (num_of_Z 10) (Fin (21 # 4))
     = Return (double (53 # 10)) /\
   double (53 # 10) <> Fin (21 # 4)) /\
  (validateRange (JNum (Fin (5 # 4))) (num_of_Z 1) (Fin (5 # 4)) (num_of_Z 5)
     = Return (double (13 # 10)) /\
   validateRange (JNum (double (13 # 10))) (num_of_Z 1) (Fin (5 # 4)) (num_of_Z 5)
     = Return (num_of_Z 5) /\
   double (13 # 10) <> num_of_Z 5) /\
  (validateRange (JStr "2e307") (num_of_Z 1) (double (inject_Z (10 ^ 308)))
     (num_of_Z 5) = Return PInf /\
   validateRange (JNum PInf) (num_of_Z 1) (double (inject_Z (10 ^ 308)))
     (num_of_Z 5) = Return (num_of_Z 5)).
Proof. vm_compute. repeat split; discriminate. Qed.

(** C6, amended: a value that [validateRange] returns is returned again
    when it is validated again, when [min] and [max] are the doubles
    nearest to tenths of magnitude [10^8] at most and the default is such
    a double, or lies outside [[min,max]], or is not a finite number. *)
Theorem validateRange_idempotent (value : JSValue) (lo hi : Q) (a b : Z) (d r : Num) :
  tenth_double lo a -> tenth_double hi b -> stable_default lo hi d ->
  validateRange value (Fin lo) (Fin hi) d = Return r ->
  validateRange (JNum r) (Fin lo) (Fin hi) d = Return r.
Proof.
  intros Hlo Hhi Hd E.
  assert (Htenth : forall k, (Z.abs k <= 1000000000)%Z ->
            in_range (Fin (nearest_double (k # 10))) lo hi ->
            validateRange (JNum (Fin (nearest_double (k # 10)))) (Fin lo) (Fin hi) d
            = Return (Fin (nearest_double (k # 10)))).
  { intros k Hk [H1 H2].
    rewrite (validateRange_finite _ (nearest_double (k # 10))) by reflexivity.
    apply Qltb_false in H1, H2. rewrite H1, H2. cbn [orb].
    now rewrite round1_fixed. }
  destruct (validateRange_tenths value lo hi a b d r Hlo Hhi E)
    as [-> | (k & Hk & ->)].
  - destruct d as [| | |q]; try reflexivity.
    rewrite (validateRange_finite _ q) by reflexivity.
    destruct (Qltb q lo) eqn:E1; [reflexivity|].
    destruct (Qltb hi q) eqn:E2; [reflexivity|].
    apply Qltb_false in E1, E2. cbn [orb].
    destruct Hd as [(c & Hc & ->) | Hd]; [|now destruct Hd].
    now rewrite round1_fixed.
  - destruct Hlo as [Ha Elo], Hhi as [Hb Ehi]. apply Htenth; [lia|].
    rewrite Elo, Ehi. now apply tenth_in_range.
Qed.

Lemma validateRange_idempotent_witness :
  validateRange (JNum (double (73 # 10))) (Fin 1) (Fin 10) (Fin 5)
  = Return (double (73 # 10)).
Proof.
  apply (validateRange_idempotent (JStr "7.26") 1 10 10 100 (Fin 5)).
  - split; [simpl; lia|vm_compute; reflexivity].
  - split; [simpl; lia|vm_compute; reflexivity].
  - left. exists 50%Z. split; [simpl; lia|vm_compute; reflexivity].
  - vm_compute. reflexivity.
Defined.

(** ** The heuristic fallback *)

Lemma append_cons (c : ascii) (s t : string) :
  String c s +:+ t = String c (s +:+ t).
Proof. reflexivity. Qed.

Lemma append_nil (t : string) : EmptyString +:+ t = t.
Proof. reflexivity. Qed.

Lemma toLowerCase_append (s t : string) :
  toLowerCase (s +:+ t) = toLowerCase s +:+ toLowerCase t.
Proof.
  induction s as [|c s IH]; [reflexivity|].
  rewrite append_cons. cbn [toLowerCase]. now rewrite IH.
Qed.

Lemma prefix_nil (k : string) :
  String.prefix k EmptyString = match k with EmptyString => true | _ => false end.
Proof. now destruct k. Qed.

(** A keyword without a space cannot straddle the space that joins the
    title and the description. *)
Lemma prefix_joined (k a b : string) :
  has_char " " k = false ->
  String.prefix k (a +:+ String " " b) = String.prefix k a.
Proof.
  revert k. induction a as [|c a IH]; intros k Hk.
  - rewrite append_nil, prefix_nil. destruct k as [|x k]; [reflexivity|].
    cbn [has_char] in Hk. apply orb_false_iff in Hk as [Hx _].
    cbn [String.prefix]. destruct (ascii_dec x " ") as [->|]; [|reflexivity].
    discriminate.
  - rewrite append_cons. destruct k as [|x k]; [reflexivity|].
    cbn [has_char] in Hk. apply orb_false_iff in Hk as [_ Hk].
    cbn [String.prefix]. destruct (ascii_dec x c); [now apply IH|reflexivity].
Qed.

Lemma includes_joined (k a b : string) :
  has_char " " k = false -> k <> EmptyString ->
  includes (a +:+ String " " b) k = includes a k || includes b k.
Proof.
  intros Hk Hne. induction a as [|c a IH].
  - pose proof (prefix_joined k EmptyString b Hk) as P.
    rewrite append_nil in *. cbn [includes]. rewrite P, prefix_nil.
    destruct k; [contradiction|reflexivity].
  - rewrite append_cons. cbn [includes].
    rewrite <- append_cons, prefix_joined by assumption.
    rewrite IH. now rewrite orb_assoc.
Qed.

Lemma some_included_joined (keywords : list string) (a b : string) :
  forallb plain_keyword keywords = true ->
  some_included keywords (a +:+ String " " b) =
  some_included keywords a || some_included keywords b.
Proof.
  unfold some_included. induction keywords as [|k l IH]; intros H; [reflexivity|].
  cbn [forallb] in H. apply andb_true_iff in H as [Hk Hl].
  apply andb_true_iff in Hk as [H1 H2].
  apply negb_true_iff in H1, H2. apply String.eqb_neq in H2.
  cbn [existsb]. rewrite includes_joined, IH by assumption.
  generalize (includes a k) (includes b k)
    (existsb (fun keyword => includes a keyword) l)
    (existsb (fun keyword => includes b keyword) l).
  intros [] [] [] []; reflexivity.
Qed.

(** The test of the source, on the joined and lower-cased text, is the
    test on the title and on the description. *)
Lemma joined_text_mentions (keywords : list string) (title description : string) :
  forallb plain_keyword keywords = true ->
  some_included keywords (toLowerCase (title +:+ " " +:+ description)) =
  mentions keywords title description.
Proof.
  intros H. unfold mentions.
  rewrite toLowerCase_append, toLowerCase_append.
  change (toLowerCase " ") with " ".
  change (" " +:+ toLowerCase description) with (String " " (toLowerCase description)).
  now apply some_included_joined.
Qed.

(** C7, as stated, fails: the keyword [asap] occurs in the concatenation
    of the title [Send as] and the description [apples], yet the fallback
    treats the task as not urgent, because it searches the title and the
    description joined by a space. *)
Lemma fallbackAnalysis_concatenation_differs :
  some_included urgentKeywords (toLowerCase ("Send as" +:+ "apples")) = true /\
  priority (fallbackAnalysis "Send as" "apples") = num_of_Z 4 /\
  deadlineUrgency (fallbackAnalysis "Send as" "apples") = num_of_Z 5.
Proof. vm_compute. repeat split. Qed.

(** C7, amended: the fallback analysis is the function of the
    case-insensitive presence of the urgency and complexity keywords in
    the text [title + ' ' + description], that is in the title or in the
    description, given by the decision table; [deadlineUrgency] is 9 if
    urgent else 5, [sentiment] is neutral, [confidenceScore] is 70,
    [suggestedSubtasks] is empty and [optimalTimeSlot] is flexible. *)
Theorem fallbackAnalysis_decision_table (title description : string) :
  let text := toLowerCase (title +:+ " " +:+ description) in
  let urgent := mentions urgentKeywords title description in
  let complex := mentions complexKeywords title description in
  let a := fallbackAnalysis title description in
  some_included urgentKeywords text = urgent /\
  some_included complexKeywords text = complex /\
  priority a = num_of_Z (if urgent then 8 else if complex then 6 else 4) /\
  estimatedHours a = num_of_Z (if complex then 6 else 2) /\
  complexity a = JStr (if complex then "high" else "medium") /\
  deadlineUrgency a = num_of_Z (if urgent then 9 else 5) /\
  sentiment a = "neutral" /\
  confidenceScore a = 70%Z /\
  suggestedSubtasks a = [] /\
  optimalTimeSlot a = JStr "flexible".
Proof.
  intros text urgent complex a.
  assert (Hu : some_included urgentKeywords text = urgent)
    by (apply joined_text_mentions; reflexivity).
  assert (Hc : some_included complexKeywords text = complex)
    by (apply joined_text_mentions; reflexivity).
  subst a. unfold fallbackAnalysis. fold text. cbn [priority estimatedHours
    complexity deadlineUrgency sentiment confidenceScore suggestedSubtasks
    optimalTimeSlot]. rewrite Hu, Hc.
  repeat split; destruct urgent, complex; reflexivity.
Qed.

(** ** The response parser *)

Lemma string_take_cons (n : nat) (c : ascii) (s : string) :
  string_take (S n) (String c s) = String c (string_take n s).
Proof. reflexivity. Qed.

Lemma any_star_last_close (s : string) :
  any_star s (fun s' => match_here (RChar "}") s' (fun _ => Some O)) = last_close s.
Proof.
  induction s as [|c s IH]; [reflexivity|].
  cbn [any_star last_close]. rewrite IH.
  destruct (last_close s); [reflexivity|].
  cbn [match_here]. now destruct (Ascii.eqb "}" c).
Qed.

Lemma match_here_brace (s : string) :
  match_here brace_pattern s (fun _ => Some O) =
  match s with
  | String c s' => if Ascii.eqb "{" c then option_map S (last_close s') else None
  | EmptyString => None
  end.
Proof.
  destruct s as [|c s]; [reflexivity|].
  unfold brace_pattern. cbn [match_here].
  now rewrite any_star_last_close.
Qed.

Lemma last_close_None_cons (c : ascii) (s : string) :
  last_close (String c s) = None -> last_close s = None.
Proof. cbn [last_close]. now destruct (last_close s). Qed.

Lemma String_match_no_close (s : string) :
  last_close s = None -> String_match brace_pattern s = None.
Proof.
  induction s as [|c s IH]; intros H; [reflexivity|].
  pose proof (last_close_None_cons c s H) as H'.
  cbn [String_match]. rewrite match_here_brace, H'.
  destruct (Ascii.eqb "{" c); now apply IH.
Qed.

(** The pattern matches from the first [{] to the last [}]. *)
Lemma String_match_brace_span (s : string) :
  String_match brace_pattern s = brace_span s.
Proof.
  induction s as [|c s IH]; [reflexivity|].
  cbn [String_match brace_span]. rewrite match_here_brace.
  destruct (Ascii.eqb "{" c).
  - destruct (last_close s) as [n|] eqn:E; [reflexivity|].
    now apply String_match_no_close.
  - exact IH.
Qed.

Lemma last_close_no_char (s : string) :
  has_char "}" s = false -> last_close s = None.
Proof.
  induction s as [|c s IH]; [reflexivity|].
  cbn [has_char last_close]. intros H. apply orb_false_iff in H as [H1 H2].
  now rewrite (IH H2), H1.
Qed.

Lemma last_close_append (mid post : string) :
  has_char "}" post = false ->
  last_close (mid +:+ String "}" post) = Some (S (String.length mid)).
Proof.
  intros H. induction mid as [|c mid IH].
  - rewrite append_nil. cbn [last_close]. now rewrite (last_close_no_char post H).
  - rewrite append_cons. cbn [last_close]. now rewrite IH.
Qed.

Lemma string_take_0 (s : string) : string_take 0 s = EmptyString.
Proof. now destruct s. Qed.

Lemma string_take_append (mid post : string) :
  string_take (S (String.length mid)) (mid +:+ String "}" post) = mid +:+ "}".
Proof.
  induction mid as [|c mid IH].
  { rewrite !append_nil. cbn [String.length].
    now rewrite string_take_cons, string_take_0. }
  rewrite !append_cons. cbn [String.length]. rewrite string_take_cons. now rewrite IH.
Qed.

Lemma brace_span_decomposed (pre mid post : string) :
  has_char "{" pre = false -> has_char "}" post = false ->
  brace_span (pre +:+ String "{" (mid +:+ String "}" post)) =
  Some (String "{" (mid +:+ "}")).
Proof.
  intros Hpre Hpost. induction pre as [|c pre IH].
  - rewrite append_nil. cbn [brace_span]. cbn [Ascii.eqb Bool.eqb].
    now rewrite last_close_append, string_take_append.
  - cbn [has_char] in Hpre. apply orb_false_iff in Hpre as [H1 H2].
    rewrite append_cons. cbn [brace_span]. rewrite H1. now apply IH.
Qed.

Lemma last_close_has_char (s : string) :
  has_char "}" s = true -> exists n, last_close s = Some n.
Proof.
  induction s as [|c s IH]; [discriminate|].
  cbn [has_char last_close]. intros H.
  destruct (last_close s) as [n|]; [eauto|].
  destruct (Ascii.eqb "}" c); [eauto|]. now destruct (IH H).
Qed.

Lemma has_char_append (x : ascii) (a b : string) :
  has_char x (a +:+ b) = has_char x a || has_char x b.
Proof.
  induction a as [|c a IH]; [reflexivity|].
  rewrite append_cons. cbn [has_char]. now rewrite IH, orb_assoc.
Qed.

Lemma brace_span_some (a b c : string) :
  exists region, brace_span (a +:+ String "{" (b +:+ String "}" c)) = Some region.
Proof.
  induction a as [|x a IH].
  - rewrite append_nil. cbn [brace_span]. cbn [Ascii.eqb Bool.eqb].
    destruct (last_close_has_char (b +:+ String "}" c)) as [n ->]; [|eauto].
    rewrite has_char_append. cbn [has_char]. rewrite Ascii.eqb_refl.
    now rewrite orb_true_r.
  - rewrite append_cons. cbn [brace_span].
    destruct (Ascii.eqb "{" x); [|exact IH].
    destruct (last_close_has_char (a +:+ String "{" (b +:+ String "}" c)))
      as [n ->]; [|eauto].
    rewrite has_char_append. cbn [has_char]. rewrite has_char_append.
    cbn [has_char]. rewrite Ascii.eqb_refl. now rewrite !orb_true_r.
Qed.

Lemma last_close_None_no_char (s : string) :
  last_close s = None -> has_char "}" s = false.
Proof.
  induction s as [|c s IH]; [reflexivity|].
  cbn [last_close has_char]. destruct (last_close s); [discriminate|].
  destruct (Ascii.eqb "}" c); [discriminate|]. intros _. now apply IH.
Qed.

Lemma last_close_split (s : string) (n : nat) :
  last_close s = Some n ->
  exists mid post, s = mid +:+ String "}" post /\ has_char "}" post = false.
Proof.
  revert n. induction s as [|y s IH]; [discriminate|].
  intros n H. cbn [last_close] in H.
  destruct (last_close s) as [m|] eqn:E.
  - destruct (IH m eq_refl) as (mid & post & -> & Hpost).
    now exists (String y mid), post.
  - destruct (Ascii.eqb "}" y) eqn:Ey; [|discriminate].
    apply Ascii.eqb_eq in Ey. subst y. exists EmptyString, s.
    split; [reflexivity|]. now apply last_close_None_no_char.
Qed.

(** A text that holds a [{] followed by a [}] splits at its first [{] and
    at its last [}]. *)
Lemma brace_span_split (s region : string) :
  brace_span s = Some region ->
  exists pre mid post,
    s = pre +:+ String "{" (mid +:+ String "}" post) /\
    has_char "{" pre = false /\ has_char "}" post = false.
Proof.
  induction s as [|x s IH]; [discriminate|].
  cbn [brace_span]. destruct (Ascii.eqb "{" x) eqn:Ex.
  - apply Ascii.eqb_eq in Ex. subst x.
    destruct (last_close s) as [n|] eqn:En; [|discriminate].
    destruct (last_close_split s n En) as (mid & post & -> & Hpost).
    intros _. now exists EmptyString, mid, post.
  - intros H. destruct (IH H) as (pre & mid & post & -> & Hpre & Hpost).
    exists (String x pre), mid, post. cbn [has_char]. now rewrite Ex.
Qed.

Lemma brace_span_none (s : string) :
  (forall a b c, s <> a +:+ String "{" (b +:+ String "}" c)) <->
  brace_span s = None.
Proof.
  split.
  - intros H. destruct (brace_span s) as [region|] eqn:E; [|reflexivity].
    destruct (brace_span_split s region E) as (a & b & c & Hs & _).
    now destruct (H a b c).
  - intros E a b c ->. destruct (brace_span_some a b c) as [region H]. congruence.
Qed.

Lemma extract_analysis_brace_span (s : string) :
  extract_analysis s =
  match brace_span s with
  | Some region => JSON_parse region
  | None => Throw (Error "No JSON found in response")
  end.
Proof. unfold extract_analysis. now rewrite String_match_brace_span. Qed.

(** C3, as stated, fails: a reply with two objects holds a first balanced
    object that is valid JSON, and a reply that is a JSON array is itself a
    balanced region that is valid JSON; the parser of the source fails on
    both. *)
Lemma extract_analysis_not_first_balanced :
  (spec_first_balanced reply_two_objects = Some object_a1 /\
   spec_parse_response reply_two_objects = Return (JObj [("a", JInt 1)]) /\
   extract_analysis reply_two_objects = Throw SyntaxError) /\
  (spec_parse_response reply_array = Return (JArr [JInt 1; JInt 2]) /\
   extract_analysis reply_array = Throw (Error "No JSON found in response")).
Proof. vm_compute. repeat split. Qed.

(** C3, amended: the parser takes the text from the first [{] of the reply
    to its last [}] and parses that text as JSON; it fails when no [{] is
    followed by a [}], and otherwise exactly when that text is not valid
    JSON (the last part of the statement puts the two cases together).
    [noise {"a":1} noise] parses to the object [{a:1}], and a reply
    without braces fails. *)
Theorem extract_analysis_first_to_last_brace :
  (forall pre mid post,
      has_char "{" pre = false -> has_char "}" post = false ->
      extract_analysis (pre +:+ String "{" (mid +:+ String "}" post)) =
      JSON_parse (String "{" (mid +:+ "}"))) /\
  (forall s,
      (forall a b c, s <> a +:+ String "{" (b +:+ String "}" c)) ->
      extract_analysis s = Throw (Error "No JSON found in response")) /\
  extract_analysis reply_noise = Return (JObj [("a", JInt 1)]) /\
  (forall s, has_char "{" s = false ->
             extract_analysis s = Throw (Error "No JSON found in response")) /\
  (forall s,
      (exists e, extract_analysis s = Throw e) <->
      (forall a b c, s <> a +:+ String "{" (b +:+ String "}" c)) \/
      (exists pre mid post e,
          s = pre +:+ String "{" (mid +:+ String "}" post) /\
          has_char "{" pre = false /\ has_char "}" post = false /\
          JSON_parse (String "{" (mid +:+ "}")) = Throw e)).
Proof.
  split; [|split; [|split; [|split]]].
  - intros pre mid post Hpre Hpost.
    now rewrite extract_analysis_brace_span, brace_span_decomposed.
  - intros s H. rewrite extract_analysis_brace_span.
    apply brace_span_none in H. now rewrite H.
  - vm_compute. reflexivity.
  - intros s H. rewrite extract_analysis_brace_span.
    assert (E : brace_span s = None); [|now rewrite E].
    induction s as [|c s IH]; [reflexivity|].
    cbn [has_char] in H. apply orb_false_iff in H as [H1 H2].
    cbn [brace_span]. rewrite H1. now apply IH.
  - intros s. rewrite extract_analysis_brace_span. split.
    + intros [e He]. destruct (brace_span s) as [region|] eqn:E.
      * right. destruct (brace_span_split s region E)
          as (pre & mid & post & -> & Hpre & Hpost).
        rewrite brace_span_decomposed in E by assumption.
        injection E as <-. exists pre, mid, post, e. auto.
      * left. now apply brace_span_none.
    + intros [H | (pre & mid & post & e & -> & Hpre & Hpost & He)].
      * apply brace_span_none in H. rewrite H. eauto.
      * rewrite brace_span_decomposed by assumption. eauto.
Qed.

Lemma extract_analysis_first_to_last_brace_witness :
  extract_analysis ("ok " +:+ String "{" ("}{" +:+ String "}" " done")) =
  JSON_parse (String "{" ("}{" +:+ "}")) /\
  extract_analysis "} nothing {" = Throw (Error "No JSON found in response") /\
  extract_analysis "plain text" = Throw (Error "No JSON found in response").
Proof.
  destruct extract_analysis_first_to_last_brace as (H1 & H2 & _ & H4 & _).
  split; [|split].
  - apply (H1 "ok " "}{" " done"); reflexivity.
  - apply H2. intros a b c E.
    assert (H : brace_span "} nothing {" = None) by reflexivity.
    exact (proj2 (brace_span_none _) H a b c E).
  - apply H4. reflexivity.
Defined.

(** ** Arrays and enumerations *)

Lemma Array_slice0_length {A : Type} (l : list A) (q : Q) :
  (0 <= q)%Q ->
  (inject_Z (Z.of_nat (length (Array_slice0 l (Fin q)))) <= q)%Q.
Proof.
  intros Hq. unfold Array_slice0, ToIntegerOrInfinity.
  assert (Hn : (0 <= Qnum q)%Z).
  { unfold Qle in Hq. simpl in Hq. lia. }
  rewrite Z.quot_div_nonneg by lia.
  replace (Qnum q / Zpos (Qden q))%Z with (Qfloor q) by now destruct q.
  assert (Hf : (0 <= Qfloor q)%Z).
  { rewrite <- (Qfloor_Z 0). now apply Qfloor_resp_le. }
  destruct (Z.ltb_spec (Qfloor q) 0) as [|_]; [lia|].
  eapply Qle_trans; [|apply Qfloor_le].
  rewrite <- Zle_Qle, length_firstn. lia.
Qed.

Lemma Array_slice0_bound {A : Type} (l : list A) (k : Z) :
  (0 <= k)%Z -> (length (Array_slice0 l (num_of_Z k)) <= Z.to_nat k)%nat.
Proof.
  intros Hk. pose proof (Array_slice0_length l (inject_Z k)) as H.
  rewrite <- Zle_Qle in H. unfold num_of_Z.
  assert (H0 : (0 <= inject_Z k)%Q)
    by (change 0%Q with (inject_Z 0); now rewrite <- Zle_Qle).
  specialize (H H0). lia.
Qed.

Lemma Array_slice0_nil {A : Type} (limit : Num) :
  Array_slice0 (@nil A) limit = [].
Proof.
  unfold Array_slice0. destruct (ToIntegerOrInfinity limit) as [|k|]; try reflexivity.
  destruct (k <? 0)%Z; apply firstn_nil.
Qed.

Lemma Array_includes_In (validValues : list string) (value : JSValue) :
  Array_includes validValues value = true ->
  exists s, value = JStr s /\ In s validValues.
Proof.
  destruct value as [| | | |s| |]; try discriminate.
  cbn [Array_includes]. intros H. apply existsb_exists in H as (x & Hx & E).
  apply String.eqb_eq in E. subst x. eauto.
Qed.

Lemma validateComplexity_enum (value : JSValue) :
  validateComplexity value = JStr "low" \/
  validateComplexity value = JStr "medium" \/
  validateComplexity value = JStr "high".
Proof.
  unfold validateComplexity.
  destruct (Array_includes _ value) eqn:E; [|auto].
  apply Array_includes_In in E as (s & -> & H).
  cbn [In] in H. intuition (subst; auto).
Qed.

Lemma validateTimeSlot_enum (value : JSValue) :
  validateTimeSlot value = JStr "morning" \/
  validateTimeSlot value = JStr "afternoon" \/
  validateTimeSlot value = JStr "evening" \/
  validateTimeSlot value = JStr "flexible".
Proof.
  unfold validateTimeSlot.
  destruct (Array_includes _ value) eqn:E; [|auto].
  apply Array_includes_In in E as (s & -> & H).
  cbn [In] in H. intuition (subst; auto).
Qed.

Lemma calculateConfidenceScore_range (analysis : JSValue) :
  (60 <= calculateConfidenceScore analysis <= 99)%Z.
Proof.
  unfold calculateConfidenceScore, Math_max, Math_min.
  destruct (negb (ToBoolean (prop analysis "priority")));
    destruct (negb (ToBoolean (prop analysis "estimatedHours")));
    destruct (negb (Array_isArray (prop analysis "tags")) || _);
    destruct (negb (Array_isArray (prop analysis "suggestedSubtasks")));
    lia.
Qed.

Lemma fallbackAnalysis_valid (title description : string) :
  valid_analysis (fallbackAnalysis title description).
Proof.
  unfold fallbackAnalysis.
  set (text := toLowerCase _).
  destruct (some_included urgentKeywords text), (some_included complexKeywords text).
  all: constructor; cbn [priority estimatedHours complexity sentiment tags
         deadlineUrgency suggestedSubtasks optimalTimeSlot confidenceScore
         length in_range num_of_Z]; auto; try lia.
  all: try (split; unfold Qle; simpl; lia).
  all: rewrite length_map; unfold extractKeywords;
    etransitivity; [apply Array_slice0_bound; lia|]; simpl; lia.
Qed.

(** ** [JSON.parse] consumes its input and has enough fuel *)

Lemma drop_while_length p s : (String.length (drop_while p s) <= String.length s)%nat.
Proof.
  induction s as [|c s IH]; [reflexivity|].
  cbn [drop_while]. destruct (p c); cbn [String.length]; lia.
Qed.

Lemma skip_ws_length s : (String.length (skip_ws s) <= String.length s)%nat.
Proof. apply drop_while_length. Qed.

Lemma expect_length c s r : expect c s = Some r -> String.length s = S (String.length r).
Proof.
  destruct s as [|c' s]; [discriminate|]. cbn [expect].
  destruct (Ascii.eqb c c'); [|discriminate]. now intros [= ->].
Qed.

Lemma parse_string_chars_length n : forall s acc str r,
  (String.length s <= n)%nat ->
  parse_string_chars s acc = Some (str, r) -> (String.length r < String.length s)%nat.
Proof.
  induction n as [|n IH]; intros s acc str r Hn.
  - destruct s; [discriminate|]. cbn [String.length] in Hn. lia.
  - destruct s as [|c s]; [discriminate|]. cbn [String.length] in *.
    cbn [parse_string_chars].
    destruct (Ascii.eqb c dquote); [intros [= _ ->]; lia|].
    destruct (Ascii.eqb c backslash).
    + destruct s as [|e s]; [discriminate|]. cbn [String.length] in *.
      destruct (Ascii.eqb e "u").
      * destruct s as [|h1 [|h2 [|h3 [|h4 s]]]]; try discriminate.
        cbn [String.length] in *.
        destruct (hex4 h1 h2 h3 h4) as [cp|]; [|discriminate].
        destruct s as [|b [|u [|g1 [|g2 [|g3 [|g4 s]]]]]];
          try (intros H; apply IH in H; cbn [String.length] in *; lia).
        destruct (surrogate_pair cp b u g1 g2 g3 g4);
          intros H; apply IH in H; cbn [String.length] in *; lia.
      * destruct (simple_escape e); [|discriminate].
        intros H. apply IH in H; lia.
    + destruct (nat_of_ascii c <? 32)%nat; [discriminate|].
      intros H. apply IH in H; lia.
Qed.

Lemma take_drop_length p s :
  (String.length (take_while p s) + String.length (drop_while p s) = String.length s)%nat.
Proof.
  induction s as [|c s IH]; [reflexivity|].
  cbn [take_while drop_while]. destruct (p c); cbn [String.length]; lia.
Qed.

Lemma scan_sign_length plus s neg r :
  scan_sign plus s = (neg, r) -> (String.length r <= String.length s)%nat.
Proof.
  unfold scan_sign. destruct (expect "-" s) as [r'|] eqn:E.
  - intros [= _ <-]. apply expect_length in E. lia.
  - destruct plus.
    + destruct (expect "+" s) as [r'|] eqn:E'.
      * intros [= _ <-]. apply expect_length in E'. lia.
      * now intros [= _ <-].
    + now intros [= _ <-].
Qed.

Lemma scan_exponent_length s e r :
  scan_exponent s = Some (e, r) -> (String.length r <= String.length s)%nat.
Proof.
  destruct s as [|c s]; [now intros [= _ <-]|].
  cbn [scan_exponent]. destruct (Ascii.eqb c "e" || Ascii.eqb c "E").
  - destruct (scan_sign true s) as [neg r1] eqn:Es.
    apply scan_sign_length in Es.
    destruct (take_while is_digit r1); [discriminate|].
    intros [= _ <-]. pose proof (drop_while_length is_digit r1).
    cbn [String.length]. lia.
  - now intros [= _ <-].
Qed.

Lemma scan_decimal_length s d :
  scan_decimal s = Some d ->
  (String.length (scan_int d) + String.length (scan_rest d) <= String.length s)%nat.
Proof.
  unfold scan_decimal.
  pose proof (take_drop_length is_digit s) as Htd.
  destruct (expect "." (drop_while is_digit s)) as [r|] eqn:Ed.
  - apply expect_length in Ed.
    pose proof (drop_while_length is_digit r) as Hr.
    destruct (scan_exponent (drop_while is_digit r)) as [[e r3]|] eqn:Ee.
    + apply scan_exponent_length in Ee.
      destruct (take_while is_digit s), (take_while is_digit r);
        try discriminate; intros [= <-]; cbn [scan_int scan_rest String.length] in *; lia.
    + destruct (take_while is_digit s), (take_while is_digit r); discriminate.
  - destruct (scan_exponent (drop_while is_digit s)) as [[e r3]|] eqn:Ee.
    + apply scan_exponent_length in Ee.
      destruct (take_while is_digit s);
        try discriminate; intros [= <-]; cbn [scan_int scan_rest String.length] in *; lia.
    + destruct (take_while is_digit s); discriminate.
Qed.

Lemma parse_number_length s v r :
  parse_number s = Parsed v r -> (String.length r < String.length s)%nat.
Proof.
  unfold parse_number. destruct (scan_sign false s) as [neg u] eqn:Es.
  apply scan_sign_length in Es.
  destruct (scan_decimal u) as [d|] eqn:Ed; [|discriminate].
  apply scan_decimal_length in Ed.
  destruct (scan_int d) eqn:Ei; [discriminate|].
  destruct (leading_zero _); [discriminate|].
  destruct (_ && _); [discriminate|].
  intros [= _ <-]. cbn [String.length] in Ed. lia.
Qed.

Lemma substring_length_le n m s : (String.length (String.substring n m s) <= m)%nat.
Proof.
  revert n m. induction s as [|c s IH]; intros [|n] [|m]; cbn; try lia.
  - specialize (IH 0%nat m). lia.
  - apply (IH n 0%nat).
  - apply (IH n (S m)).
Qed.

Lemma prefix_length w s : String.prefix w s = true -> (String.length w <= String.length s)%nat.
Proof.
  revert w. induction s as [|c s IH]; intros [|x w]; cbn; try lia; try discriminate.
  destruct (ascii_dec x c); [|discriminate]. intros H. apply IH in H. lia.
Qed.

Lemma parse_literal_length word v s v' r :
  word <> EmptyString ->
  parse_literal word v s = Parsed v' r -> (String.length r < String.length s)%nat.
Proof.
  intros Hw. unfold parse_literal. destruct (String.prefix word s) eqn:E; [|discriminate].
  intros [= _ <-]. apply prefix_length in E.
  unfold string_drop.
  pose proof (substring_length_le (String.length word)
                (String.length s - String.length word) s).
  destruct word; [contradiction|]. cbn [String.length] in *. lia.
Qed.

Lemma parse_consumes (fuel : nat) :
  (forall s v r, parse_value fuel s = Parsed v r ->
                 (String.length r < String.length s)%nat) /\
  (forall s acc v r, parse_elements fuel s acc = Parsed v r ->
                     (String.length r < String.length s)%nat) /\
  (forall s acc v r, parse_members fuel s acc = Parsed v r ->
                     (String.length r < String.length s)%nat).
Proof.
  induction fuel as [|fuel (IHv & IHe & IHm)]; [repeat split; discriminate|].
  split; [|split].
  - intros s v r. cbn [parse_value].
    pose proof (skip_ws_length s) as Hs.
    destruct (skip_ws s) as [|c t] eqn:Et; [discriminate|].
    cbn [String.length] in Hs. pose proof (skip_ws_length t) as Ht.
    destruct (Ascii.eqb c dquote).
    { destruct (parse_string_chars t EmptyString) as [[str r']|] eqn:E; [|discriminate].
      apply (parse_string_chars_length _ _ _ _ _ (le_n _)) in E.
      intros [= _ <-]. lia. }
    destruct (Ascii.eqb c "{").
    { destruct (expect "}" (skip_ws t)) as [r'|] eqn:E.
      - apply expect_length in E. intros [= _ <-]. lia.
      - intros H. apply IHm in H. lia. }
    destruct (Ascii.eqb c "[").
    { destruct (expect "]" (skip_ws t)) as [r'|] eqn:E.
      - apply expect_length in E. intros [= _ <-]. lia.
      - intros H. apply IHe in H. lia. }
    destruct (Ascii.eqb c "t").
    { intros H. apply parse_literal_length in H; [|discriminate].
      cbn [String.length] in H. lia. }
    destruct (Ascii.eqb c "f").
    { intros H. apply parse_literal_length in H; [|discriminate].
      cbn [String.length] in H. lia. }
    destruct (Ascii.eqb c "n").
    { intros H. apply parse_literal_length in H; [|discriminate].
      cbn [String.length] in H. lia. }
    destruct (Ascii.eqb c "-" || is_digit c); [|discriminate].
    intros H. apply parse_number_length in H. cbn [String.length] in H. lia.
  - intros s acc v r. cbn [parse_elements].
    destruct (parse_value fuel s) as [x r1| |] eqn:E; try discriminate.
    apply IHv in E. pose proof (skip_ws_length r1) as H1.
    destruct (skip_ws r1) as [|c r']; [discriminate|]. cbn [String.length] in H1.
    destruct (Ascii.eqb c ",").
    { intros H. apply IHe in H. lia. }
    destruct (Ascii.eqb c "]"); [|discriminate].
    intros [= _ <-]. lia.
  - intros s acc v r. cbn [parse_members].
    pose proof (skip_ws_length s) as Hs.
    destruct (expect dquote (skip_ws s)) as [r0|] eqn:E0; [|discriminate].
    apply expect_length in E0.
    destruct (parse_string_chars r0 EmptyString) as [[k r1]|] eqn:E1; [|discriminate].
    apply (parse_string_chars_length _ _ _ _ _ (le_n _)) in E1.
    pose proof (skip_ws_length r1) as H1.
    destruct (expect ":" (skip_ws r1)) as [r2|] eqn:E2; [|discriminate].
    apply expect_length in E2.
    destruct (parse_value fuel r2) as [x r3| |] eqn:E3; try discriminate.
    apply IHv in E3. pose proof (skip_ws_length r3) as H3.
    destruct (skip_ws r3) as [|c r4]; [discriminate|]. cbn [String.length] in H3.
    destruct (Ascii.eqb c ",").
    { intros H. apply IHm in H. lia. }
    destruct (Ascii.eqb c "}"); [|discriminate].
    intros [= _ <-]. lia.
Qed.

Lemma parse_enough_fuel (fuel : nat) :
  (forall s, (2 * String.length s + 1 <= fuel)%nat -> parse_value fuel s <> NoFuel) /\
  (forall s acc, (2 * String.length s + 2 <= fuel)%nat ->
                 parse_elements fuel s acc <> NoFuel) /\
  (forall s acc, (2 * String.length s + 2 <= fuel)%nat ->
                 parse_members fuel s acc <> NoFuel).
Proof.
  induction fuel as [|fuel (IHv & IHe & IHm)]; [repeat split; intros; lia|].
  split; [|split].
  - intros s Hf. cbn [parse_value].
    pose proof (skip_ws_length s) as Hs.
    destruct (skip_ws s) as [|c t] eqn:Et; [discriminate|].
    cbn [String.length] in Hs. pose proof (skip_ws_length t) as Ht.
    destruct (Ascii.eqb c dquote).
    { destruct (parse_string_chars t EmptyString) as [[str r']|]; discriminate. }
    destruct (Ascii.eqb c "{").
    { destruct (expect "}" (skip_ws t)); [discriminate|]. apply IHm. lia. }
    destruct (Ascii.eqb c "[").
    { destruct (expect "]" (skip_ws t)); [discriminate|]. apply IHe. lia. }
    unfold parse_literal, parse_number.
    repeat match goal with
           | |- context [if ?b then _ else _] => destruct b
           | |- context [match ?x with _ => _ end] => destruct x
           end; discriminate.
  - intros s acc Hf. cbn [parse_elements].
    pose proof (IHv s) as Hv.
    destruct (parse_value fuel s) as [x r1| |] eqn:E; try discriminate.
    2:{ apply Hv. lia. }
    apply (proj1 (parse_consumes fuel)) in E. pose proof (skip_ws_length r1) as H1.
    destruct (skip_ws r1) as [|c r']; [discriminate|]. cbn [String.length] in H1.
    destruct (Ascii.eqb c ","); [apply IHe; lia|].
    destruct (Ascii.eqb c "]"); discriminate.
  - intros s acc Hf. cbn [parse_members].
    pose proof (skip_ws_length s) as Hs.
    destruct (expect dquote (skip_ws s)) as [r0|] eqn:E0; [|discriminate].
    apply expect_length in E0.
    destruct (parse_string_chars r0 EmptyString) as [[k r1]|] eqn:E1; [|discriminate].
    apply (parse_string_chars_length _ _ _ _ _ (le_n _)) in E1.
    pose proof (skip_ws_length r1) as H1.
    destruct (expect ":" (skip_ws r1)) as [r2|] eqn:E2; [|discriminate].
    apply expect_length in E2.
    pose proof (IHv r2) as Hv.
    destruct (parse_value fuel r2) as [x r3| |] eqn:E3; try discriminate.
    2:{ apply Hv. lia. }
    apply (proj1 (parse_consumes fuel)) in E3. pose proof (skip_ws_length r3) as H3.
    destruct (skip_ws r3) as [|c r4]; [discriminate|]. cbn [String.length] in H3.
    destruct (Ascii.eqb c ","); [apply IHm; lia|].
    destruct (Ascii.eqb c "}"); discriminate.
Qed.

(** [JSON.parse] never runs out of fuel: it returns a value or throws a
    [SyntaxError]. *)
Lemma JSON_parse_fuel (text : string) :
  (exists v, JSON_parse text = Return v) \/ JSON_parse text = Throw SyntaxError.
Proof.
  unfold JSON_parse.
  pose proof (proj1 (parse_enough_fuel (parse_fuel text)) text (le_n _)) as H.
  destruct (parse_value (parse_fuel text) text) as [v rest| |]; [|now right|contradiction].
  destruct (skip_ws rest); eauto.
Qed.

(** ** What the response parser returns *)

Lemma parse_members_object (fuel : nat) (s : string) (acc : list (string * JSValue))
    (v : JSValue) (rest : string) :
  parse_members fuel s acc = Parsed v rest -> exists fields, v = JObj fields.
Proof.
  revert s acc. induction fuel as [|fuel IH]; intros s acc; [discriminate|].
  cbn [parse_members].
  repeat split_match; try discriminate; eauto.
  all: intros [= <- _]; eauto.
Qed.

Lemma parse_value_object (fuel : nat) (r : string) (v : JSValue) (rest : string) :
  parse_value fuel (String "{" r) = Parsed v rest -> exists fields, v = JObj fields.
Proof.
  destruct fuel as [|fuel]; [discriminate|].
  cbn [parse_value]. change (skip_ws (String "{" r)) with (String "{" r).
  change (Ascii.eqb "{" dquote) with false.
  change (Ascii.eqb "{" "{") with true. cbv iota.
  destruct (expect "}" (skip_ws r)); [intros [= <- _]; eauto|].
  apply parse_members_object.
Qed.

Lemma brace_span_opens (s region : string) :
  brace_span s = Some region -> exists r, region = String "{" r.
Proof.
  induction s as [|c s IH]; [discriminate|].
  cbn [brace_span]. destruct (Ascii.eqb "{" c) eqn:E; [|exact IH].
  apply Ascii.eqb_eq in E. subst c.
  destruct (last_close s); [|discriminate]. intros [= <-]. eauto.
Qed.

(** A reply that the parser accepts yields an object. *)
Lemma extract_analysis_object (text : string) (analysis : JSValue) :
  extract_analysis text = Return analysis -> exists fields, analysis = JObj fields.
Proof.
  rewrite extract_analysis_brace_span.
  destruct (brace_span text) as [region|] eqn:E; [|discriminate].
  destruct (brace_span_opens _ _ E) as [r ->].
  unfold JSON_parse.
  destruct (parse_value _ _) as [v rest| |] eqn:P; try discriminate.
  destruct (skip_ws rest); [|discriminate]. intros [= <-].
  eapply parse_value_object, P.
Qed.

Lemma JSON_parse_nonempty (text : string) (v : JSValue) :
  JSON_parse text = Return v -> truthy_string (Some text) = Some text.
Proof. destruct text; [discriminate|reflexivity]. Qed.

(** ** The pipeline *)

Section Properties.

Variable tokenizer_tokenize : string -> option (list string).
Variable PorterStemmer_stem : string -> string.
Variable sentiment_getSentiment : list string -> Num.
Variable Date_valid : JSValue -> bool.

Lemma sentiment_label_enum (score : Num) :
  sentiment_label score = "positive" \/ sentiment_label score = "negative" \/
  sentiment_label score = "neutral".
Proof.
  unfold sentiment_label.
  destruct (num_gtb score _); [auto|]. destruct (num_ltb score _); auto.
Qed.

(** The three numbers of the object literal [finalAnalysis], when it is
    built. *)
Lemma finalAnalysis_fields (analysis : JSValue) (score : Num) (a : TaskAnalysis) :
  finalAnalysis analysis score = Return a ->
  validateRange (prop analysis "priority") (num_of_Z 1) (num_of_Z 10) (num_of_Z 5)
    = Return (priority a) /\
  validateRange (prop analysis "estimatedHours") (Fin (1 # 2)) (num_of_Z 40)
    (num_of_Z 2) = Return (estimatedHours a) /\
  validateRange (prop analysis "deadlineUrgency") (num_of_Z 1) (num_of_Z 10)
    (num_of_Z 5) = Return (deadlineUrgency a) /\
  a = {| priority := priority a;
         estimatedHours := estimatedHours a;
         complexity := validateComplexity (prop analysis "complexity");
         sentiment := sentiment_label score;
         tags := match prop analysis "tags" with
                 | JArr items => Array_slice0 items (num_of_Z 8)
                 | _ => []
                 end;
         deadlineUrgency := deadlineUrgency a;
         suggestedSubtasks := match prop analysis "suggestedSubtasks" with
                              | JArr items => Array_slice0 items (num_of_Z 5)
                              | _ => []
                              end;
         optimalTimeSlot := validateTimeSlot (prop analysis "optimalTimeSlot");
         confidenceScore := calculateConfidenceScore analysis |}.
Proof.
  unfold finalAnalysis, and_then.
  destruct (validateRange (prop analysis "priority") _ _ _) as [p|]; [|discriminate].
  destruct (validateRange (prop analysis "estimatedHours") _ _ _) as [h|];
    [|discriminate].
  destruct (validateRange (prop analysis "deadlineUrgency") _ _ _) as [u|];
    [|discriminate].
  intros [= <-]. repeat split.
Qed.

(** [finalAnalysis] is built exactly when its three numbers can be
    validated. *)
Lemma finalAnalysis_coercible (analysis : JSValue) (score : Num) :
  (numbers_coercible analysis = true ->
   exists a, finalAnalysis analysis score = Return a) /\
  (numbers_coercible analysis = false ->
   exists e, finalAnalysis analysis score = Throw e).
Proof.
  unfold numbers_coercible, finalAnalysis, and_then.
  destruct (validateRange_coercible (prop analysis "priority")
              (num_of_Z 1) (num_of_Z 10) (num_of_Z 5)) as [P1 P2].
  destruct (validateRange_coercible (prop analysis "estimatedHours")
              (Fin (1 # 2)) (num_of_Z 40) (num_of_Z 2)) as [H1 H2].
  destruct (validateRange_coercible (prop analysis "deadlineUrgency")
              (num_of_Z 1) (num_of_Z 10) (num_of_Z 5)) as [U1 U2].
  destruct (coercible (prop analysis "priority")).
  2: { destruct (P2 eq_refl) as [e ->]. split; [discriminate|eauto]. }
  destruct (P1 eq_refl) as [p ->].
  destruct (coercible (prop analysis "estimatedHours")).
  2: { destruct (H2 eq_refl) as [e ->]. split; [discriminate|eauto]. }
  destruct (H1 eq_refl) as [h ->].
  destruct (coercible (prop analysis "deadlineUrgency")).
  2: { destruct (U2 eq_refl) as [e ->]. split; [discriminate|eauto]. }
  destruct (U1 eq_refl) as [u ->]. split; [eauto|discriminate].
Qed.

Lemma finalAnalysis_valid (analysis : JSValue) (score : Num) (a : TaskAnalysis) :
  finalAnalysis analysis score = Return a -> valid_analysis a.
Proof.
  intros E. destruct (finalAnalysis_fields _ _ _ E) as (Ep & Eh & Eu & ->).
  constructor; cbn [priority estimatedHours complexity sentiment
    tags deadlineUrgency suggestedSubtasks optimalTimeSlot confidenceScore].
  - eapply validateRange_valid;
      [apply tenth_double_1|apply tenth_double_10| |exact Ep].
    split; unfold Qle; simpl; lia.
  - eapply validateRange_valid;
      [apply tenth_double_half|apply tenth_double_40| |exact Eh].
    split; unfold Qle; simpl; lia.
  - apply validateComplexity_enum.
  - apply sentiment_label_enum.
  - destruct (prop analysis "tags"); cbn [length]; try lia.
    etransitivity; [apply Array_slice0_bound; lia|]. simpl; lia.
  - eapply validateRange_valid;
      [apply tenth_double_1|apply tenth_double_10| |exact Eu].
    split; unfold Qle; simpl; lia.
  - destruct (prop analysis "suggestedSubtasks"); cbn [length]; try lia.
    etransitivity; [apply Array_slice0_bound; lia|]. simpl; lia.
  - apply validateTimeSlot_enum.
  - apply calculateConfidenceScore_range.
Qed.

(** *** Totality *)

Lemma analyzeTask_returns env title description context w :
  exists v, returns (analyzeTask tokenizer_tokenize PorterStemmer_stem
                       sentiment_getSentiment env title description context w) v.
Proof. destruct w as [init st tr]. run. cases; eauto. Qed.

Lemma generateTaskSuggestions_returns env userId context limit w :
  exists v, returns (generateTaskSuggestions env userId context limit w) v.
Proof. destruct w as [init st tr]. run. cases; eauto. Qed.

Lemma generateProductivityInsights_returns env userData w :
  exists v, returns (generateProductivityInsights env userData w) v.
Proof. destruct w as [init st tr]. run. cases; eauto. Qed.

Lemma analyzeTask_failure env title description context w :
  analysis_failure env w title description context ->
  returns (analyzeTask tokenizer_tokenize PorterStemmer_stem
             sentiment_getSentiment env title description context w)
          (TaskAnalysis_value (fallbackAnalysis title description)).
Proof.
  destruct w as [init st tr]. unfold analysis_failure. run.
  intros H. cases; try reflexivity; absurd_coercion finalAnalysis_coercible.
Qed.

Lemma generateTaskSuggestions_failure env userId context limit w :
  suggestions_failure env w userId context limit ->
  returns (generateTaskSuggestions env userId context limit w)
          (JArr getDefaultSuggestions).
Proof.
  destruct w as [init st tr]. unfold suggestions_failure. run.
  intros H. cases; try reflexivity; absurd_case.
Qed.

Lemma generateProductivityInsights_failure env userData w :
  insights_failure env w userData ->
  returns (generateProductivityInsights env userData w) (JArr getDefaultInsights).
Proof.
  destruct w as [init st tr]. unfold insights_failure. run.
  intros H. cases; try reflexivity; absurd_case.
Qed.

(** *** The paths of [analyzeTask] *)

Lemma analyzeTask_hit env title description context w cached :
  isInitialized w = true -> redis_get_fault env = None ->
  cached_text w (analysis_cache_key title description) = Some cached ->
  analyzeTask tokenizer_tokenize PorterStemmer_stem
    sentiment_getSentiment env title description context w =
  let w' := mkWorld true (redis w)
              (trace w ++ [RedisGet (analysis_cache_key title description);
                           Logged LogInfo "📋 Using cached task analysis"]) in
  match JSON_parse cached with
  | Return v => (Return v, w')
  | Throw e =>
      (Return (TaskAnalysis_value (fallbackAnalysis title description)),
       mkWorld true (redis w)
         (trace w' ++ [Logged LogError "❌ AI task analysis failed:"]))
  end.
Proof.
  destruct w as [init st tr]. run. intros -> Hg Hc. rewrite Hg, Hc.
  rewrite <- app_assoc. now destruct (JSON_parse cached).
Qed.

Lemma analyzeTask_validated env title description context w text analysis final :
  isInitialized w = true -> redis_get_fault env = None ->
  cached_text w (analysis_cache_key title description) = None ->
  reply_text env (analysis_request (buildAnalysisPrompt title description context))
    = Some text ->
  extract_analysis text = Return analysis ->
  finalAnalysis analysis
    (analyzeSentiment tokenizer_tokenize PorterStemmer_stem
       sentiment_getSentiment description) = Return final ->
  redis_setex_fault env = None ->
  returns (analyzeTask tokenizer_tokenize PorterStemmer_stem
             sentiment_getSentiment env title description context w)
          (TaskAnalysis_value final).
Proof.
  destruct w as [init st tr]. run. intros -> Hg Hc Hr Ha Hf Hs.
  destruct (extract_analysis_object _ _ Ha) as [fields ->].
  rewrite Hg, Hc.
  destruct (openai_reply env _) as [r|]; [|discriminate].
  rewrite Hr, Ha, Hf, Hs. reflexivity.
Qed.

Lemma sentiment_field (a : TaskAnalysis) :
  prop (TaskAnalysis_value a) "sentiment" = JStr (sentiment a).
Proof. reflexivity. Qed.

Lemma finalAnalysis_sentiment (analysis : JSValue) (score : Num) (a : TaskAnalysis) :
  finalAnalysis analysis score = Return a -> sentiment a = sentiment_label score.
Proof.
  intros E. destruct (finalAnalysis_fields _ _ _ E) as (_ & _ & _ & ->).
  reflexivity.
Qed.

(** *** The claims about the pipeline *)

(** C1, amended: whatever the inputs, the state of the cache and the
    behaviour of the cache and of the remote model, [analyzeTask],
    [generateTaskSuggestions] and [generateProductivityInsights] return
    and never raise.  Every failure (service not initialized, cache get
    or cache write raising, corrupt cache string, remote call raising,
    unparseable reply, and for [analyzeTask] an empty reply and a reply
    with a number that cannot be validated) ends in the heuristic
    fallback or in the default result; an empty reply to the two other
    operations is no failure: it is read as the text [[]] and gives the
    empty list. *)
Theorem public_operations_never_raise env w title description context
    userId userContext limit userData :
  (exists v, returns (analyzeTask tokenizer_tokenize PorterStemmer_stem
                        sentiment_getSentiment env title description context w) v) /\
  (exists v, returns (generateTaskSuggestions env userId userContext limit w) v) /\
  (exists v, returns (generateProductivityInsights env userData w) v) /\
  (analysis_failure env w title description context ->
   returns (analyzeTask tokenizer_tokenize PorterStemmer_stem
              sentiment_getSentiment env title description context w)
           (TaskAnalysis_value (fallbackAnalysis title description))) /\
  (suggestions_failure env w userId userContext limit ->
   returns (generateTaskSuggestions env userId userContext limit w)
           (JArr getDefaultSuggestions)) /\
  (insights_failure env w userData ->
   returns (generateProductivityInsights env userData w) (JArr getDefaultInsights)) /\
  (isInitialized w = true -> redis_get_fault env = None ->
   cached_text w (suggestions_cache_key userId userContext) = None ->
   empty_reply env (user_request (suggestions_prompt userContext limit) (7 # 10) 400) ->
   redis_setex_fault env = None ->
   returns (generateTaskSuggestions env userId userContext limit w) (JArr [])) /\
  (isInitialized w = true ->
   empty_reply env (user_request (insights_prompt userData) (4 # 10) 1000) ->
   returns (generateProductivityInsights env userData w) (JArr [])).
Proof.
  split; [apply analyzeTask_returns|].
  split; [apply generateTaskSuggestions_returns|].
  split; [apply generateProductivityInsights_returns|].
  split; [apply analyzeTask_failure|].
  split; [apply generateTaskSuggestions_failure|].
  split; [apply generateProductivityInsights_failure|].
  split.
  - destruct w as [init st tr]. run. intros -> Hg Hc (r & Hr & He) Hs.
    rewrite Hg, Hc, Hr, He, Hs. cbn [from_option id].
    change (JSON_parse "[]") with (Return (JArr [])). run.
    now rewrite Array_slice0_nil.
  - destruct w as [init st tr]. run. intros -> (r & Hr & He).
    rewrite Hr, He. cbn [from_option id].
    change (JSON_parse "[]") with (Return (JArr [])). reflexivity.
Qed.

(** C2: on every path of [analyzeTask] other than the cache hit, the
    result is a [TaskAnalysis] object with every field present and
    within its declared range or enumeration, whatever the remote model
    replies. *)
Theorem analyzeTask_result_valid env title description context w :
  ~ cache_hit env w (analysis_cache_key title description) ->
  exists a, returns (analyzeTask tokenizer_tokenize PorterStemmer_stem
                       sentiment_getSentiment env title description context w)
                    (TaskAnalysis_value a) /\ valid_analysis a.
Proof.
  intros Hmiss.
  assert (Hnone : isInitialized w = true -> redis_get_fault env = None ->
                  cached_text w (analysis_cache_key title description) = None).
  { intros Hi Hg. destruct (cached_text w _) as [cached|] eqn:E; [|reflexivity].
    destruct Hmiss. unfold cache_hit. eauto. }
  destruct w as [init st tr]. revert Hnone. clear Hmiss. run. intros Hnone.
  cases.
  all: try (eexists; split; [reflexivity|]);
    try apply fallbackAnalysis_valid;
    try (eapply finalAnalysis_valid; eassumption).
  all: exfalso; specialize (Hnone eq_refl eq_refl); congruence.
Qed.

(** C9, amended: when the service is initialized and the cache get
    returns a stored string that is not empty, [analyzeTask]
    short-circuits: beyond the cache get it only logs, so that no prompt
    is built, the remote model is not called and the cache is not
    written; when the string deserializes it returns the value as it is,
    with no validation, and when the string is not valid JSON it returns
    the heuristic fallback. *)
Theorem analyzeTask_cache_hit env title description context w ttl cached :
  isInitialized w = true -> redis_get_fault env = None ->
  redis w !! analysis_cache_key title description = Some (ttl, cached) ->
  cached <> EmptyString ->
  exists calls,
    short_circuit calls = true /\
    snd (analyzeTask tokenizer_tokenize PorterStemmer_stem
           sentiment_getSentiment env title description context w) =
    mkWorld true (redis w)
      (trace w ++ RedisGet (analysis_cache_key title description) :: calls) /\
    fst (analyzeTask tokenizer_tokenize PorterStemmer_stem
           sentiment_getSentiment env title description context w) =
    match JSON_parse cached with
    | Return v => Return v
    | Throw _ => Return (TaskAnalysis_value (fallbackAnalysis title description))
    end.
Proof.
  intros Hi Hg Hl Hne.
  rewrite (analyzeTask_hit env title description context w cached Hi Hg).
  - cbv zeta. destruct (JSON_parse cached) as [v|e].
    + exists [Logged LogInfo "📋 Using cached task analysis"]. now repeat split.
    + exists [Logged LogInfo "📋 Using cached task analysis";
              Logged LogError "❌ AI task analysis failed:"].
      cbn [fst snd trace]. rewrite <- app_assoc. now repeat split.
  - unfold cached_text. rewrite Hl. now destruct cached.
Qed.

(** C4: on an uninitialized service [parseVoiceToTask] raises and returns
    no task object; the [CustomError] with status 503 that it throws is
    caught by its own [catch] and replaced by the one with status 500. *)
Theorem parseVoiceToTask_uninitialized env transcription w :
  isInitialized w = false ->
  parseVoiceToTask Date_valid env transcription w =
  (Throw (CustomError "Failed to process voice input" 500),
   mkWorld false (redis w)
     (trace w ++ [Logged LogError "❌ Voice to task conversion failed:"])).
Proof. destruct w as [init st tr]. run. now intros ->. Qed.

(** Without an API key [initialize] leaves the service uninitialized, and
    the first voice request raises the error with status 500. *)
Lemma parseVoiceToTask_without_api_key env transcription key :
  truthy_string key = None ->
  fst (bind (initialize key)
            (fun _ => parseVoiceToTask Date_valid env transcription)
            uninitialized_world) =
  Throw (CustomError "Failed to process voice input" 500).
Proof. unfold initialize. intros ->. reflexivity. Qed.

(** Whatever goes wrong in [parseVoiceToTask], the caller sees the same
    error. *)
Lemma parseVoiceToTask_raises_500 env transcription w e :
  fst (parseVoiceToTask Date_valid env transcription w) = Throw e ->
  e = CustomError "Failed to process voice input" 500.
Proof. destruct w as [init st tr]. run. cases; congruence. Qed.

(** C8, amended: two runs of [analyzeTask] on the same title,
    description, context, cache and collaborator faults whose remote
    replies are both accepted by the response parser and hold numbers
    that can be validated return the same [sentiment] field; and when
    the service is initialized, the cache misses and the cache write
    succeeds, that field is positive, negative or neutral according to
    the sign of the local sentiment score of the description. *)
Theorem sentiment_independent_of_reply env1 env2 w title description context
    text1 text2 analysis1 analysis2 :
  redis_get_fault env1 = redis_get_fault env2 ->
  redis_setex_fault env1 = redis_setex_fault env2 ->
  reply_text env1 (analysis_request (buildAnalysisPrompt title description context))
    = Some text1 ->
  reply_text env2 (analysis_request (buildAnalysisPrompt title description context))
    = Some text2 ->
  extract_analysis text1 = Return analysis1 ->
  extract_analysis text2 = Return analysis2 ->
  numbers_coercible analysis1 = true ->
  numbers_coercible analysis2 = true ->
  sentiment_of (analyzeTask tokenizer_tokenize PorterStemmer_stem
                  sentiment_getSentiment env1 title description context w) =
  sentiment_of (analyzeTask tokenizer_tokenize PorterStemmer_stem
                  sentiment_getSentiment env2 title description context w) /\
  (isInitialized w = true -> redis_get_fault env1 = None ->
   cached_text w (analysis_cache_key title description) = None ->
   redis_setex_fault env1 = None ->
   sentiment_of (analyzeTask tokenizer_tokenize PorterStemmer_stem
                   sentiment_getSentiment env1 title description context w) =
   Some (JStr (sentiment_label
                 (analyzeSentiment tokenizer_tokenize PorterStemmer_stem
                    sentiment_getSentiment description)))).
Proof.
  intros Hg Hs Hr1 Hr2 Ha1 Ha2 Hn1 Hn2.
  assert (Hvalid : forall env text analysis,
    isInitialized w = true -> redis_get_fault env = None ->
    cached_text w (analysis_cache_key title description) = None ->
    redis_setex_fault env = None ->
    reply_text env (analysis_request (buildAnalysisPrompt title description context))
      = Some text ->
    extract_analysis text = Return analysis ->
    numbers_coercible analysis = true ->
    sentiment_of (analyzeTask tokenizer_tokenize PorterStemmer_stem
                    sentiment_getSentiment env title description context w) =
    Some (JStr (sentiment_label
                 (analyzeSentiment tokenizer_tokenize PorterStemmer_stem
                    sentiment_getSentiment description)))).
  { intros env text analysis Hi Hg' Hc Hs' Hr Ha Hn. unfold sentiment_of.
    destruct (proj1 (finalAnalysis_coercible analysis
                       (analyzeSentiment tokenizer_tokenize PorterStemmer_stem
                          sentiment_getSentiment description)) Hn) as [final Hf].
    rewrite (analyzeTask_validated env _ _ _ w text analysis final
               Hi Hg' Hc Hr Ha Hf Hs').
    now rewrite sentiment_field, (finalAnalysis_sentiment _ _ _ Hf). }
  assert (Hfail : forall env,
    analysis_failure env w title description context ->
    sentiment_of (analyzeTask tokenizer_tokenize PorterStemmer_stem
                    sentiment_getSentiment env title description context w)
    = Some (JStr "neutral")).
  { intros env Hf. unfold sentiment_of.
    now rewrite (analyzeTask_failure env _ _ _ w Hf). }
  split; [|intros; eapply Hvalid; eauto].
  destruct (isInitialized w) eqn:Hi;
    [|rewrite !Hfail; [reflexivity|now left..]].
  destruct (redis_get_fault env1) as [e|] eqn:Hg1.
  { rewrite !Hfail; [reflexivity|right; left; rewrite <- ?Hg; eauto..]. }
  destruct (cached_text w (analysis_cache_key title description))
    as [cached|] eqn:Hc.
  { rewrite !(analyzeTask_hit _ title description context w cached);
      auto; congruence. }
  destruct (redis_setex_fault env1) as [e|] eqn:Hs1.
  { rewrite !Hfail; [reflexivity|..];
      do 3 right; (split; [assumption|]); do 4 right; rewrite <- ?Hs; eauto. }
  rewrite (Hvalid env1 text1 analysis1), (Hvalid env2 text2 analysis2);
    auto; congruence.
Qed.

(** C10, amended: [generateTaskSuggestions] applies [limit] only when
    the remote reply has just been parsed.  On a cache miss, when the
    reply parses to an array and the cache write succeeds, it stores the
    whole parsed array and returns [slice(0, limit)] of it, which has at
    most [limit] elements for a non-negative [limit]; on a cache hit it
    returns the deserialized cached value as it is, whatever [limit]
    is, so that a cache that holds three suggestions answers a call with
    [limit = 1] by three elements.  When the reply parses to a value that
    is not an array, or a step fails, it returns the five default
    suggestions, whatever [limit] is. *)
Theorem generateTaskSuggestions_limit env userId userContext limit w :
  isInitialized w = true -> redis_get_fault env = None ->
  (forall r items,
      cached_text w (suggestions_cache_key userId userContext) = None ->
      openai_reply env (user_request (suggestions_prompt userContext limit) (7 # 10) 400)
        = Return r ->
      JSON_parse (default "[]" (truthy_string r)) = Return (JArr items) ->
      redis_setex_fault env = None ->
      returns (generateTaskSuggestions env userId userContext limit w)
              (JArr (Array_slice0 items limit)) /\
      redis (snd (generateTaskSuggestions env userId userContext limit w)) =
        <[suggestions_cache_key userId userContext :=
            (1800%Z, JSON_stringify (JArr items))]> (redis w) /\
      (forall q, limit = Fin q -> (0 <= q)%Q ->
         (inject_Z (Z.of_nat (length (Array_slice0 items limit))) <= q)%Q)) /\
  (forall ttl cached v,
      redis w !! suggestions_cache_key userId userContext = Some (ttl, cached) ->
      JSON_parse cached = Return v ->
      returns (generateTaskSuggestions env userId userContext limit w) v) /\
  returned_length
    (generateTaskSuggestions remote_down "user-1" "sprint" (num_of_Z 1)
       (world_with (suggestions_cache_key "user-1" "sprint") reply_three))
  = Some 3%nat /\
  (forall r v,
      cached_text w (suggestions_cache_key userId userContext) = None ->
      openai_reply env (user_request (suggestions_prompt userContext limit) (7 # 10) 400)
        = Return r ->
      JSON_parse (default "[]" (truthy_string r)) = Return v ->
      Array_isArray v = false ->
      redis_setex_fault env = None ->
      returns (generateTaskSuggestions env userId userContext limit w)
              (JArr getDefaultSuggestions)) /\
  (suggestions_failure env w userId userContext limit ->
   returns (generateTaskSuggestions env userId userContext limit w)
           (JArr getDefaultSuggestions)) /\
  length getDefaultSuggestions = 5%nat.
Proof.
  intros Hi Hg.
  pose proof (generateTaskSuggestions_failure env userId userContext limit w)
    as Hfail.
  split; [|split; [|split; [vm_compute; reflexivity|]]].
  3: split; [|split; [exact Hfail|reflexivity]].
  all: clear Hfail; revert Hi Hg; destruct w as [init st tr]; run;
    intros -> Hg; rewrite Hg.
  - intros r items Hc Hr Hp Hs. rewrite Hc, Hr, Hp, Hs. run.
    split; [reflexivity|]. split; [reflexivity|].
    intros q -> Hq. now apply Array_slice0_length.
  - intros ttl cached v Hl Hp. rewrite Hl.
    cbn [fmap option_fmap option_map snd].
    rewrite (JSON_parse_nonempty _ _ Hp), Hp. reflexivity.
  - intros r v Hc Hr Hp Ha Hs. rewrite Hc, Hr, Hp, Hs.
    destruct v; try discriminate Ha; reflexivity.
Qed.

End Properties.

(** ** The claims on concrete runs *)

(** C1, as stated, fails: an empty reply is among the failures that it
    lists, yet [generateTaskSuggestions] and
    [generateProductivityInsights] do not answer it by their default
    result: they read it as the text [[]], return the empty list, and the
    former stores that text in the cache. *)
Lemma empty_reply_is_no_failure :
  let suggestions :=
    generateTaskSuggestions no_content "user-1" "sprint" (num_of_Z 5) fresh_world in
  let insights := generateProductivityInsights no_content JNull fresh_world in
  empty_reply no_content
    (user_request (suggestions_prompt "sprint" (num_of_Z 5)) (7 # 10) 400) /\
  fst suggestions = Return (JArr []) /\
  JArr [] <> JArr getDefaultSuggestions /\
  redis (snd suggestions) !! suggestions_cache_key "user-1" "sprint"
    = Some (1800%Z, "[]") /\
  fst insights = Return (JArr []) /\
  JArr [] <> JArr getDefaultInsights.
Proof.
  cbv zeta. split; [exists None; split; reflexivity|].
  split; [vm_compute; reflexivity|]. split; [discriminate|].
  split; [|split; [vm_compute; reflexivity|discriminate]].
  apply lookup_insert_eq.
Qed.

Lemma public_operations_never_raise_witness :
  returns (analyzeTask toy_tokenize toy_stem toy_sentiment remote_down
             "Fix urgent production bug" "Critical deadline tomorrow"
             JUndefined fresh_world)
          (TaskAnalysis_value
             (fallbackAnalysis "Fix urgent production bug"
                               "Critical deadline tomorrow")).
Proof.
  destruct (public_operations_never_raise toy_tokenize toy_stem toy_sentiment
              remote_down fresh_world "Fix urgent production bug"
              "Critical deadline tomorrow" JUndefined "user-1" "sprint"
              (num_of_Z 5) JNull) as (_ & _ & _ & H & _).
  apply H. do 3 right. split; [reflexivity|]. left. eexists. reflexivity.
Defined.

Lemma analyzeTask_result_valid_witness :
  exists a,
    returns (analyzeTask toy_tokenize toy_stem toy_sentiment (no_faults reply_noise)
               "Fix urgent bug" "this is great" JUndefined fresh_world)
            (TaskAnalysis_value a) /\ valid_analysis a.
Proof.
  apply (analyzeTask_result_valid toy_tokenize toy_stem toy_sentiment).
  intros (_ & _ & cached & H). vm_compute in H. discriminate H.
Defined.

(** C9, as stated, fails: a stored string that is not valid JSON is not
    returned but replaced by the fallback, and a stored empty string is
    taken for a miss, so that the remote model is called and the cache is
    written. *)
Lemma cache_entry_not_returned :
  (redis (world_with (analysis_cache_key "Plan" "the week") "not json")
     !! analysis_cache_key "Plan" "the week" = Some (3600%Z, "not json") /\
   JSON_parse "not json" = Throw SyntaxError /\
   fst (analyzeTask toy_tokenize toy_stem toy_sentiment (no_faults object_a1)
          "Plan" "the week" JUndefined
          (world_with (analysis_cache_key "Plan" "the week") "not json")) =
   Return (TaskAnalysis_value (fallbackAnalysis "Plan" "the week"))) /\
  (redis (world_with (analysis_cache_key "Plan" "the week") EmptyString)
     !! analysis_cache_key "Plan" "the week" = Some (3600%Z, EmptyString) /\
   existsb is_remote_call
     (trace (snd (analyzeTask toy_tokenize toy_stem toy_sentiment
                    (no_faults object_a1) "Plan" "the week" JUndefined
                    (world_with (analysis_cache_key "Plan" "the week")
                       EmptyString)))) = true /\
   existsb is_cache_write
     (trace (snd (analyzeTask toy_tokenize toy_stem toy_sentiment
                    (no_faults object_a1) "Plan" "the week" JUndefined
                    (world_with (analysis_cache_key "Plan" "the week")
                       EmptyString)))) = true).
Proof. vm_compute. repeat split. Qed.

Lemma analyzeTask_cache_hit_witness :
  exists calls,
    short_circuit calls = true /\
    snd (analyzeTask toy_tokenize toy_stem toy_sentiment remote_down
           "Plan" "the week" JUndefined
           (world_with (analysis_cache_key "Plan" "the week") object_a1)) =
    mkWorld true
      (redis (world_with (analysis_cache_key "Plan" "the week") object_a1))
      (trace (world_with (analysis_cache_key "Plan" "the week") object_a1)
         ++ RedisGet (analysis_cache_key "Plan" "the week") :: calls) /\
    fst (analyzeTask toy_tokenize toy_stem toy_sentiment remote_down
           "Plan" "the week" JUndefined
           (world_with (analysis_cache_key "Plan" "the week") object_a1)) =
    match JSON_parse object_a1 with
    | Return v => Return v
    | Throw _ => Return (TaskAnalysis_value (fallbackAnalysis "Plan" "the week"))
    end.
Proof.
  apply (analyzeTask_cache_hit toy_tokenize toy_stem toy_sentiment remote_down
           "Plan" "the week" JUndefined
           (world_with (analysis_cache_key "Plan" "the week") object_a1)
           3600 object_a1).
  - reflexivity.
  - reflexivity.
  - apply lookup_singleton_eq.
  - discriminate.
Defined.

(** The entry of the witness deserializes, and is returned as it is. *)
Lemma analyzeTask_cache_hit_verbatim :
  JSON_parse object_a1 = Return (JObj [("a", JInt 1)]) /\
  fst (analyzeTask toy_tokenize toy_stem toy_sentiment remote_down
         "Plan" "the week" JUndefined
         (world_with (analysis_cache_key "Plan" "the week") object_a1)) =
  Return (JObj [("a", JInt 1)]).
Proof. vm_compute. split; reflexivity. Qed.

Lemma parseVoiceToTask_uninitialized_witness :
  parseVoiceToTask (fun _ => true) (no_faults "{}") "buy milk tomorrow"
    uninitialized_world =
  (Throw (CustomError "Failed to process voice input" 500),
   mkWorld false (redis uninitialized_world)
     (trace uninitialized_world
        ++ [Logged LogError "❌ Voice to task conversion failed:"])).
Proof.
  apply (parseVoiceToTask_uninitialized (fun _ => true)). reflexivity.
Defined.

(** C8, as stated, fails: with a description whose local score is
    positive and a reply that parses, a failing cache write makes the
    result the fallback, whose sentiment is neutral; of two replies
    that both hold the parseable object [{"a":1}], the one with two objects
    is rejected by the parser, so that the two runs differ in their
    sentiment; and a reply that the parser accepts, but whose priority
    cannot be turned into a number, gives the fallback as well. *)
Lemma sentiment_neutral_despite_positive_score :
  (sentiment_label
     (analyzeSentiment toy_tokenize toy_stem toy_sentiment "great work")
   = "positive" /\
   extract_analysis object_a1 = Return (JObj [("a", JInt 1)]) /\
   sentiment_of
     (analyzeTask toy_tokenize toy_stem toy_sentiment (write_fails object_a1)
        "Plan" "great work" JUndefined fresh_world)
   = Some (JStr "neutral")) /\
  (spec_parse_response object_a1 = Return (JObj [("a", JInt 1)]) /\
   spec_parse_response reply_two_objects = Return (JObj [("a", JInt 1)]) /\
   sentiment_of
     (analyzeTask toy_tokenize toy_stem toy_sentiment (no_faults object_a1)
        "Plan" "great work" JUndefined fresh_world)
   = Some (JStr "positive") /\
   sentiment_of
     (analyzeTask toy_tokenize toy_stem toy_sentiment (no_faults reply_two_objects)
        "Plan" "great work" JUndefined fresh_world)
   = Some (JStr "neutral")) /\
  (extract_analysis reply_unprintable
   = Return (JObj [("priority", JObj [("toString", JNull)])]) /\
   Number (JObj [("toString", JNull)]) = Throw TypeError /\
   sentiment_of
     (analyzeTask toy_tokenize toy_stem toy_sentiment (no_faults reply_unprintable)
        "Plan" "great work" JUndefined fresh_world)
   = Some (JStr "neutral")).
Proof. vm_compute. repeat split. Qed.

Lemma sentiment_independent_of_reply_witness :
  extract_analysis reply_negative
  = Return (JObj [("sentiment", JStr "negative"); ("priority", JInt 9)]) /\
  sentiment_of
    (analyzeTask toy_tokenize toy_stem toy_sentiment (no_faults object_a1)
       "Plan" "great work" JUndefined fresh_world) =
  sentiment_of
    (analyzeTask toy_tokenize toy_stem toy_sentiment (no_faults reply_negative)
       "Plan" "great work" JUndefined fresh_world) /\
  sentiment_of
    (analyzeTask toy_tokenize toy_stem toy_sentiment (no_faults reply_negative)
       "Plan" "great work" JUndefined fresh_world) = Some (JStr "positive").
Proof.
  split; [vm_compute; reflexivity|].
  destruct (sentiment_independent_of_reply toy_tokenize toy_stem toy_sentiment
              (no_faults reply_negative) (no_faults object_a1) fresh_world
              "Plan" "great work" JUndefined reply_negative object_a1
              (JObj [("sentiment", JStr "negative"); ("priority", JInt 9)])
              (JObj [("a", JInt 1)]))
    as [H1 H2]; try (vm_compute; reflexivity).
  split; [now symmetry|].
  apply H2; reflexivity.
Defined.

(** C10, as stated, fails on the miss path: when the reply parses to
    something that is not an array, the call with [limit = 2] returns the
    five default suggestions. *)
Lemma suggestions_default_exceeds_limit :
  cached_text fresh_world (suggestions_cache_key "user-1" "sprint") = None /\
  JSON_parse "{}" = Return (JObj []) /\
  returned_length
    (generateTaskSuggestions (no_faults "{}") "user-1" "sprint" (num_of_Z 2)
       fresh_world) = Some 5%nat.
Proof. vm_compute. repeat split. Qed.

(** The limit is bypassed through the cache: a first call with [limit = 1]
    returns one suggestion and stores all three; a second call with
    [limit = 1] returns the three. *)
Lemma suggestions_cache_bypasses_limit :
  let run1 := generateTaskSuggestions (no_faults reply_three) "user-1" "sprint"
                (num_of_Z 1) fresh_world in
  let run2 := generateTaskSuggestions remote_down "user-1" "sprint"
                (num_of_Z 1) (snd run1) in
  fst run1 = Return (JArr [JStr "a"]) /\
  fst run2 = Return (JArr [JStr "a"; JStr "b"; JStr "c"]).
Proof. vm_compute. split; reflexivity. Qed.

Lemma generateTaskSuggestions_limit_witness :
  returns (generateTaskSuggestions (no_faults reply_three) "user-1" "sprint"
             (num_of_Z 1) fresh_world)
          (JArr (Array_slice0 [JStr "a"; JStr "b"; JStr "c"] (num_of_Z 1))).
Proof.
  destruct (generateTaskSuggestions_limit (no_faults reply_three) "user-1"
              "sprint" (num_of_Z 1) fresh_world eq_refl eq_refl) as (H & _ & _).
  apply (H (Some reply_three) [JStr "a"; JStr "b"; JStr "c"]);
    vm_compute; reflexivity.
Defined.

(** * Further properties of the service *)

(** ** Words and keywords *)

Lemma append_nil_r (s : string) : s +:+ EmptyString = s.
Proof. induction s as [|c s IH]; [reflexivity|]. now rewrite append_cons, IH. Qed.

Lemma append_assoc (a b c : string) : (a +:+ b) +:+ c = a +:+ b +:+ c.
Proof.
  induction a as [|x a IH]; [reflexivity|]. now rewrite !append_cons, IH.
Qed.

Lemma string_rev_onto_append (s acc : string) :
  string_rev_onto s acc = string_rev s +:+ acc.
Proof.
  unfold string_rev. revert acc. induction s as [|c s IH]; intros acc; [reflexivity|].
  cbn [string_rev_onto]. rewrite IH, (IH (String c EmptyString)).
  now rewrite append_assoc.
Qed.

Lemma string_rev_cons (c : ascii) (s : string) :
  string_rev (String c s) = string_rev s +:+ str1 c.
Proof. unfold string_rev at 1. cbn [string_rev_onto]. apply string_rev_onto_append. Qed.

Lemma take_drop_while (p : ascii -> bool) (s : string) :
  s = take_while p s +:+ drop_while p s.
Proof.
  induction s as [|c s IH]; [reflexivity|].
  cbn [take_while drop_while]. destruct (p c); [|reflexivity].
  now rewrite append_cons, <- IH.
Qed.

Lemma no_space_take_while (s : string) : no_space (take_while not_space s) = true.
Proof.
  induction s as [|c s IH]; [reflexivity|].
  cbn [take_while]. destruct (not_space c) eqn:E; [|reflexivity].
  cbn [no_space]. now rewrite E, IH.
Qed.

Lemma at_word_end_drop_while (s : string) :
  at_word_end (drop_while not_space s) = true.
Proof.
  induction s as [|c s IH]; [reflexivity|].
  cbn [drop_while]. destruct (not_space c) eqn:E; [assumption|].
  cbn [at_word_end]. unfold not_space in E. now destruct (is_space c).
Qed.

Lemma at_word_start_cons (c : ascii) (pre : string) :
  pre <> EmptyString -> at_word_start (String c pre) = at_word_start pre.
Proof. destruct pre; [contradiction|reflexivity]. Qed.

(** A piece of the split is the word under construction followed by the
    text up to the next white space, or a whole word further on. *)
Lemma split_ws_from_pieces (s : string) : forall cur p,
  In p (split_ws_from s cur) ->
  p = string_rev cur +:+ take_while not_space s \/
  (no_space p = true /\
   exists pre post, s = pre +:+ p +:+ post /\ pre <> EmptyString /\
                    at_word_start pre = true /\ at_word_end post = true).
Proof.
  induction s as [|c s IH]; intros cur p.
  { cbn [split_ws_from In take_while]. intros [<-|[]]. left.
    now rewrite append_nil_r. }
  assert (Hcons : forall cur', In p (split_ws_from s cur') ->
            (p = string_rev cur' +:+ take_while not_space s ->
             p = string_rev cur +:+ take_while not_space (String c s) \/
             (no_space p = true /\
              exists pre post, String c s = pre +:+ p +:+ post /\ pre <> EmptyString /\
                at_word_start pre = true /\ at_word_end post = true)) ->
            p = string_rev cur +:+ take_while not_space (String c s) \/
            (no_space p = true /\
             exists pre post, String c s = pre +:+ p +:+ post /\ pre <> EmptyString /\
               at_word_start pre = true /\ at_word_end post = true)).
  { intros cur' Hin Hleft.
    destruct (IH cur' p Hin) as [E | (Hp & pre & post & E & Hne & Hs & He)];
      [now apply Hleft|].
    right. split; [assumption|]. exists (String c pre), post.
    rewrite append_cons, <- E, at_word_start_cons by assumption.
    repeat split; try assumption. discriminate. }
  assert (Htake : take_while not_space (String c s) =
                  if is_space c then EmptyString
                  else String c (take_while not_space s)).
  { cbn [take_while]. unfold not_space. now destruct (is_space c). }
  cbn [split_ws_from]. destruct (is_space c) eqn:Hc.
  - assert (Hfresh : In p (string_rev cur :: split_ws_from s EmptyString) ->
              p = string_rev cur +:+ take_while not_space (String c s) \/
              (no_space p = true /\
               exists pre post, String c s = pre +:+ p +:+ post /\ pre <> EmptyString /\
                 at_word_start pre = true /\ at_word_end post = true)).
    { intros [<-|Hin]; [left; now rewrite Htake, append_nil_r|].
      apply (Hcons EmptyString Hin). intros ->. right.
      change (string_rev EmptyString) with EmptyString. rewrite append_nil.
      split; [apply no_space_take_while|].
      exists (str1 c), (drop_while not_space s).
      unfold str1. rewrite append_cons, append_nil, <- take_drop_while.
      repeat split; [discriminate|exact Hc|apply at_word_end_drop_while]. }
    destruct s as [|c' s']; [exact Hfresh|].
    destruct (is_space c') eqn:Hc'; [|exact Hfresh].
    intros Hin. apply (Hcons cur Hin). intros ->. left.
    rewrite Htake. cbn [take_while]. unfold not_space. now rewrite Hc'.
  - intros Hin. apply (Hcons (String c cur) Hin). intros ->. left.
    now rewrite Htake, string_rev_cons, append_assoc.
Qed.

Lemma split_ws_whole_word (text p : string) :
  In p (split_ws text) -> whole_word p text.
Proof.
  intros Hin. apply split_ws_from_pieces in Hin.
  change (string_rev EmptyString) with EmptyString in Hin. rewrite append_nil in Hin.
  destruct Hin as [-> | (Hp & pre & post & E & _ & Hs & He)].
  - split; [apply no_space_take_while|].
    exists EmptyString, (drop_while not_space text).
    rewrite append_nil, <- take_drop_while.
    repeat split. apply at_word_end_drop_while.
  - split; [assumption|]. exists pre, post. auto.
Qed.

Lemma unique_from_spec (words : list string) : forall seen,
  NoDup (unique_from seen words) /\
  forall w, In w (unique_from seen words) -> In w words /\ ~ In w seen.
Proof.
  induction words as [|x words IH]; intros seen.
  { split; [constructor|intros w []]. }
  cbn [unique_from]. destruct (existsb (String.eqb x) seen) eqn:E.
  - destruct (IH seen) as [Hnd Hin]. split; [assumption|].
    intros w Hw. destruct (Hin w Hw). split; [now right|assumption].
  - destruct (IH (x :: seen)) as [Hnd Hin]. split.
    + apply NoDup_cons. split; [|assumption].
      rewrite list_elem_of_In. intros Hx. destruct (Hin x Hx) as [_ H].
      apply H. now left.
    + intros w [<-|Hw].
      * split; [now left|]. intros Hx.
        assert (existsb (String.eqb x) seen = true); [|congruence].
        apply existsb_exists. exists x. split; [assumption|apply String.eqb_refl].
      * destruct (Hin w Hw) as [H1 H2]. split; [now right|].
        intros H. apply H2. now right.
Qed.

Lemma Array_slice0_take {A : Type} (l : list A) (end_ : Num) :
  exists n, Array_slice0 l end_ = firstn n l.
Proof.
  unfold Array_slice0. destruct (ToIntegerOrInfinity end_) as [|k|].
  - now exists 0%nat.
  - destruct (k <? 0)%Z; eauto.
  - exists (length l). now rewrite firstn_all.
Qed.

Lemma Array_slice0_integer {A : Type} (l : list A) (k : Z) :
  Array_slice0 l (num_of_Z k) =
  if (k <? 0)%Z then firstn (length l - Z.to_nat (- k)) l
  else firstn (Z.to_nat k) l.
Proof.
  unfold Array_slice0, num_of_Z, ToIntegerOrInfinity, inject_Z. cbn [Qnum Qden].
  rewrite Z.quot_1_r. destruct (Z.ltb_spec k 0).
  - f_equal. lia.
  - destruct (Z.le_ge_cases k (Z.of_nat (length l))).
    + f_equal. lia.
    + rewrite Z.min_r by lia. rewrite Nat2Z.id.
      rewrite !firstn_all2; [reflexivity|lia..].
Qed.

Lemma In_firstn {A : Type} (n : nat) (l : list A) (x : A) :
  In x (firstn n l) -> In x l.
Proof.
  intros H. rewrite <- (firstn_skipn n l). apply in_or_app. now left.
Qed.

Lemma NoDup_firstn {A : Type} (n : nat) (l : list A) :
  NoDup l -> NoDup (firstn n l).
Proof.
  intros H. rewrite <- (firstn_skipn n l) in H.
  now apply NoDup_app in H as [H _].
Qed.

(** ** Letter case *)

Lemma lower_char_idempotent (c : ascii) : lower_char (lower_char c) = lower_char c.
Proof. destruct c as [[] [] [] [] [] [] [] []]; reflexivity. Qed.

Lemma toLowerCase_idempotent (s : string) : toLowerCase (toLowerCase s) = toLowerCase s.
Proof.
  induction s as [|c s IH]; [reflexivity|].
  cbn [toLowerCase]. now rewrite lower_char_idempotent, IH.
Qed.

Lemma toLowerCase_length (s : string) :
  String.length (toLowerCase s) = String.length s.
Proof. induction s as [|c s IH]; [reflexivity|]. cbn. now rewrite IH. Qed.

Lemma append_length (a b : string) :
  String.length (a +:+ b) = (String.length a + String.length b)%nat.
Proof.
  induction a as [|c a IH]; [reflexivity|]. rewrite append_cons. cbn. now rewrite IH.
Qed.

Lemma append_inj_length (a b a' b' : string) :
  String.length a = String.length a' ->
  a +:+ b = a' +:+ b' -> a = a' /\ b = b'.
Proof.
  revert a'. induction a as [|c a IH]; intros [|c' a'] Hlen E;
    try discriminate; [now split|].
  rewrite !append_cons in E. injection E as -> E. injection Hlen as Hlen.
  destruct (IH a' Hlen E) as [-> ->]. now split.
Qed.

(** A piece of a lower-case text is in lower case. *)
Lemma toLowerCase_piece (pre word post : string) :
  toLowerCase (pre +:+ word +:+ post) = pre +:+ word +:+ post ->
  toLowerCase word = word.
Proof.
  rewrite !toLowerCase_append. intros E.
  apply append_inj_length in E as [_ E]; [|apply toLowerCase_length].
  apply append_inj_length in E as [E _]; [assumption|apply toLowerCase_length].
Qed.

(** ** The tags of the fallback *)

Lemma at_word_start_behind_space (x : string) (c : ascii) (p : string) :
  is_space c = true -> at_word_start (x +:+ String c p) = true ->
  at_word_start p = true.
Proof.
  intros Hc. induction x as [|y x IH].
  - rewrite append_nil. destruct p; [reflexivity|]. now cbn [at_word_start].
  - rewrite append_cons, at_word_start_cons; [exact IH|].
    destruct x; discriminate.
Qed.

Lemma word_prefix (w : string) : forall a b post,
  no_space w = true ->
  a +:+ String " " b = w +:+ post ->
  exists q, a = w +:+ q /\ post = q +:+ String " " b.
Proof.
  induction w as [|c w IH]; intros a b post Hw E.
  { exists a. now rewrite !append_nil in *. }
  cbn [no_space] in Hw. apply andb_true_iff in Hw as [Hc Hw].
  rewrite append_cons in E. destruct a as [|x a].
  - rewrite append_nil in E. injection E as <- _. discriminate.
  - rewrite append_cons in E. injection E as -> E.
    destruct (IH a b post Hw E) as (q & -> & ->). now exists q.
Qed.

(** A word without white space does not straddle the space between two
    texts. *)
Lemma word_of_joined (w b post : string) : forall a pre,
  no_space w = true -> w <> EmptyString ->
  a +:+ String " " b = pre +:+ w +:+ post ->
  (exists q, a = pre +:+ w +:+ q /\ post = q +:+ String " " b) \/
  (exists p, pre = a +:+ String " " p /\ b = p +:+ w +:+ post).
Proof.
  induction a as [|x a IH]; intros pre Hw Hne E.
  - rewrite append_nil in E. destruct pre as [|c pre].
    + rewrite append_nil in E. destruct w as [|c w]; [contradiction|].
      rewrite append_cons in E. injection E as <- _. discriminate.
    + rewrite append_cons in E. injection E as <- E. right. now exists pre.
  - destruct pre as [|c pre].
    + rewrite append_nil in E. left.
      destruct (word_prefix w (String x a) b post Hw E) as (q & -> & ->).
      now exists q.
    + rewrite !append_cons in E. injection E as <- E.
      destruct (IH pre Hw Hne E) as [(q & -> & ->) | (p & -> & ->)].
      * left. now exists q.
      * right. now exists p.
Qed.

Lemma whole_word_joined (w a b : string) :
  w <> EmptyString -> whole_word w (a +:+ " " +:+ b) ->
  whole_word w a \/ whole_word w b.
Proof.
  intros Hne (Hw & pre & post & E & Hs & He).
  change (" " +:+ b) with (String " " b) in E.
  destruct (word_of_joined w b post a pre Hw Hne E) as [(q & -> & ->) | (p & -> & ->)].
  - left. split; [assumption|]. exists pre, q. repeat split; [assumption|].
    destruct q; [reflexivity|exact He].
  - right. split; [assumption|]. exists p, post. repeat split; [|assumption].
    now apply (at_word_start_behind_space a " " p).
Qed.

Lemma extractKeywords_In (text word : string) :
  In word (extractKeywords text) ->
  (3 < String.length word)%nat /\ is_stop_word word = false /\ whole_word word text.
Proof.
  unfold extractKeywords. cbv zeta.
  set (words := filter _ (filter _ (split_ws text))).
  destruct (unique_from_spec words []) as [_ Hin].
  destruct (Array_slice0_take (unique_from [] words) (num_of_Z 5)) as [n ->].
  intros Hw. apply In_firstn, Hin in Hw as [Hw _].
  apply list_elem_of_In in Hw. subst words.
  apply list_elem_of_filter in Hw as [Hstop Hw].
  apply list_elem_of_filter in Hw as [Hlen Hw].
  apply list_elem_of_In, split_ws_whole_word in Hw.
  split; [|split; [|assumption]].
  - apply Is_true_true in Hlen. now apply Nat.ltb_lt in Hlen.
  - apply Is_true_true in Hstop. now apply negb_true_iff in Hstop.
Qed.

Lemma extractKeywords_NoDup (text : string) : NoDup (extractKeywords text).
Proof.
  unfold extractKeywords. cbv zeta.
  set (words := filter _ (filter _ (split_ws text))).
  destruct (unique_from_spec words []) as [Hnd _].
  destruct (Array_slice0_take (unique_from [] words) (num_of_Z 5)) as [n ->].
  now apply NoDup_firstn.
Qed.

(** X1: the keywords of an ASCII text are at most five, pairwise
    distinct, and each of them is a whole word of the text (a run without
    white space between white space or the ends of the text) that is
    longer than three characters and is not a stop word, whatever its
    case. *)
Theorem extractKeywords_whole_words (text : string) :
  ascii_text text = true ->
  (length (extractKeywords text) <= 5)%nat /\
  NoDup (extractKeywords text) /\
  forall word, In word (extractKeywords text) ->
    (3 < String.length word)%nat /\
    is_stop_word word = false /\
    whole_word word text.
Proof.
  intros _.
  split; [apply (Array_slice0_bound _ 5); lia|].
  split; [apply extractKeywords_NoDup|].
  intros word. apply extractKeywords_In.
Qed.

(** ** Every whole word is a piece of the split *)

Lemma split_ws_from_pending (s : string) : forall cur,
  at_word_end s = true -> In (string_rev cur) (split_ws_from s cur).
Proof.
  induction s as [|c s IH]; intros cur He; [now left|].
  cbn [at_word_end] in He. cbn [split_ws_from]. rewrite He.
  destruct s as [|c' s']; [now left|].
  destruct (is_space c') eqn:Hc'; [|now left].
  apply IH. exact Hc'.
Qed.

Lemma split_ws_from_current (w : string) : forall post cur,
  no_space w = true -> at_word_end post = true ->
  In (string_rev cur +:+ w) (split_ws_from (w +:+ post) cur).
Proof.
  induction w as [|x w IH]; intros post cur Hw He.
  - rewrite append_nil, append_nil_r. now apply split_ws_from_pending.
  - cbn [no_space] in Hw. apply andb_true_iff in Hw as [Hx Hw].
    rewrite append_cons. cbn [split_ws_from].
    unfold not_space in Hx. apply negb_true_iff in Hx. rewrite Hx.
    specialize (IH post (String x cur) Hw He).
    now rewrite string_rev_cons, append_assoc in IH.
Qed.

Lemma split_ws_from_later (w post : string) (pre : string) : forall cur,
  no_space w = true -> w <> EmptyString -> at_word_end post = true ->
  pre <> EmptyString -> at_word_start pre = true ->
  In w (split_ws_from (pre +:+ w +:+ post) cur).
Proof.
  intros cur Hw Hne He. revert cur.
  assert (Hfresh : In w (split_ws_from (w +:+ post) EmptyString)).
  { exact (split_ws_from_current w post EmptyString Hw He). }
  induction pre as [|c pre IH]; intros cur Hpre Hs; [contradiction|].
  rewrite append_cons. cbn [split_ws_from].
  destruct pre as [|c' pre'].
  - rewrite append_nil. cbn [at_word_start] in Hs. rewrite Hs.
    destruct w as [|x w']; [contradiction|]. rewrite append_cons.
    cbn [no_space] in Hw. apply andb_true_iff in Hw as [Hx _].
    unfold not_space in Hx. apply negb_true_iff in Hx. rewrite Hx.
    right. now rewrite <- append_cons.
  - assert (Hs' : at_word_start (String c' pre') = true) by exact Hs.
    assert (Hpre' : String c' pre' <> EmptyString) by discriminate.
    pose proof (fun cur' => IH cur' Hpre' Hs') as H.
    rewrite append_cons in *.
    destruct (is_space c); [|apply H].
    destruct (is_space c'); [apply H|right; apply H].
Qed.

Lemma whole_word_split_ws (w text : string) :
  w <> EmptyString -> whole_word w text -> In w (split_ws text).
Proof.
  intros Hne (Hw & pre & post & -> & Hs & He). unfold split_ws.
  destruct pre as [|c pre].
  - rewrite append_nil. exact (split_ws_from_current w post EmptyString Hw He).
  - apply split_ws_from_later; try assumption. discriminate.
Qed.

Lemma unique_from_complete (words : list string) : forall seen w,
  In w words -> ~ In w seen -> In w (unique_from seen words).
Proof.
  induction words as [|x words IH]; intros seen w Hin Hseen; [contradiction|].
  cbn [unique_from]. destruct (existsb (String.eqb x) seen) eqn:E.
  - destruct Hin as [->|Hin]; [|now apply IH].
    apply existsb_exists in E as (y & Hy & Exy). apply String.eqb_eq in Exy.
    subst y. contradiction.
  - destruct Hin as [->|Hin]; [now left|].
    destruct (String.eqb_spec x w) as [->|Hxw]; [now left|].
    right. apply IH; [assumption|]. intros [H|H]; [now apply Hxw|contradiction].
Qed.

(** X2: the keywords of an ASCII text leave no word out while fewer than
    five are found: when [extractKeywords] returns fewer than five
    keywords, every whole word of the text that is longer than three
    characters and is not a stop word is one of them. *)
Theorem extractKeywords_complete (text word : string) :
  ascii_text text = true ->
  (length (extractKeywords text) < 5)%nat ->
  whole_word word text ->
  (3 < String.length word)%nat ->
  is_stop_word word = false ->
  In word (extractKeywords text).
Proof.
  unfold extractKeywords. cbv zeta.
  set (words := filter _ (filter _ (split_ws text))).
  rewrite Array_slice0_integer. change (Z.to_nat 5) with 5%nat.
  cbv iota beta delta [Z.ltb Z.compare].
  intros _ Hlen Hword Hlong Hstop.
  assert (Hall : firstn 5 (unique_from [] words) = unique_from [] words).
  { apply firstn_all2. rewrite length_firstn in Hlen. lia. }
  rewrite Hall. apply unique_from_complete; [|intros []].
  apply list_elem_of_In. subst words.
  apply list_elem_of_filter. split.
  { apply Is_true_true. now rewrite Hstop. }
  apply list_elem_of_filter. split.
  { apply Is_true_true. now apply Nat.ltb_lt. }
  apply list_elem_of_In, whole_word_split_ws; [|assumption].
  intros ->. cbn in Hlong. lia.
Qed.

(** X3: for an ASCII title and description, the tags of the heuristic
    fallback are at most five strings, pairwise distinct; each is in
    lower case, longer than three characters, not a stop word, and a
    whole word of the lower-cased title or of the lower-cased
    description. *)
Theorem fallbackAnalysis_tags (title description : string) :
  ascii_text title = true -> ascii_text description = true ->
  (length (tags (fallbackAnalysis title description)) <= 5)%nat /\
  NoDup (tags (fallbackAnalysis title description)) /\
  forall tag, In tag (tags (fallbackAnalysis title description)) ->
    exists word,
      tag = JStr word /\ toLowerCase word = word /\
      (3 < String.length word)%nat /\ is_stop_word word = false /\
      (whole_word word (toLowerCase title) \/
       whole_word word (toLowerCase description)).
Proof.
  intros _ _. cbn [fallbackAnalysis tags].
  rewrite !toLowerCase_append. change (toLowerCase " ") with " ".
  set (text := toLowerCase title +:+ " " +:+ toLowerCase description).
  split; [|split].
  - rewrite length_map. apply (Array_slice0_bound _ 5). lia.
  - assert (Hinj : Inj eq eq JStr) by (intros x y [= ->]; reflexivity).
    apply (NoDup_fmap_2 JStr), extractKeywords_NoDup.
  - intros tag Htag. apply in_map_iff in Htag as (word & <- & Hw).
    apply extractKeywords_In in Hw as (Hlen & Hstop & Hword).
    exists word. repeat split; try assumption.
    + destruct Hword as (_ & pre & post & E & _).
      apply (toLowerCase_piece pre word post). rewrite <- E. subst text.
      rewrite !toLowerCase_append, !toLowerCase_idempotent. reflexivity.
    + apply whole_word_joined; [|assumption].
      intros ->. cbn in Hlen. lia.
Qed.

(** ** The validators *)

(** X4: the confidence score is one of 60, 65, ..., 85.  It is 85 exactly
    when [priority] and [estimatedHours] are truthy, [tags] is an array
    that is not empty and [suggestedSubtasks] is an array, whether or
    not these values are valid; it is 60 exactly when [priority] and
    [estimatedHours] are both falsy and, besides, [tags] is not an array
    with an element or [suggestedSubtasks] is not an array.  The upper
    clamp at 99 is never reached. *)
Theorem calculateConfidenceScore_values (analysis : JSValue) :
  let score := calculateConfidenceScore analysis in
  In score [60; 65; 70; 75; 80; 85]%Z /\
  (score = 85%Z <->
     ToBoolean (prop analysis "priority") = true /\
     ToBoolean (prop analysis "estimatedHours") = true /\
     nonempty_array (prop analysis "tags") = true /\
     Array_isArray (prop analysis "suggestedSubtasks") = true) /\
  (score = 60%Z <->
     ToBoolean (prop analysis "priority") = false /\
     ToBoolean (prop analysis "estimatedHours") = false /\
     (nonempty_array (prop analysis "tags") = false \/
      Array_isArray (prop analysis "suggestedSubtasks") = false)).
Proof.
  cbv zeta. unfold calculateConfidenceScore, Math_max, Math_min.
  assert (E : negb (Array_isArray (prop analysis "tags")) ||
              match prop analysis "tags" with
              | JArr items => (length items =? 0)%nat
              | _ => false
              end = negb (nonempty_array (prop analysis "tags"))).
  { destruct (prop analysis "tags") as [| | | | |[|x l]|]; reflexivity. }
  rewrite E.
  destruct (ToBoolean (prop analysis "priority")),
    (ToBoolean (prop analysis "estimatedHours")),
    (nonempty_array (prop analysis "tags")),
    (Array_isArray (prop analysis "suggestedSubtasks"));
    cbn [negb In]; intuition (try lia; try discriminate).
Qed.

(** X5: [validateComplexity] and [validateTimeSlot] are idempotent; each
    leaves a value as it is exactly when the value is one of the allowed
    strings, written in lower case, and replaces every other value by its
    default. *)
Theorem validators_idempotent (value : JSValue) :
  validateComplexity (validateComplexity value) = validateComplexity value /\
  validateTimeSlot (validateTimeSlot value) = validateTimeSlot value /\
  (validateComplexity value = value <->
     In value [JStr "low"; JStr "medium"; JStr "high"]) /\
  (validateComplexity value <> value -> validateComplexity value = JStr "medium") /\
  (validateTimeSlot value = value <->
     In value [JStr "morning"; JStr "afternoon"; JStr "evening"; JStr "flexible"]) /\
  (validateTimeSlot value <> value -> validateTimeSlot value = JStr "flexible").
Proof.
  split; [|split; [|split; [|split; [|split]]]].
  - destruct (validateComplexity_enum value) as [E|[E|E]]; now rewrite E.
  - destruct (validateTimeSlot_enum value) as [E|[E|[E|E]]]; now rewrite E.
  - split.
    + intros E. rewrite <- E. cbn [In].
      destruct (validateComplexity_enum value) as [H|[H|H]]; auto.
    + cbn [In]. intros [<-|[<-|[<-|[]]]]; reflexivity.
  - unfold validateComplexity.
    destruct (Array_includes _ value); [now intros []|reflexivity].
  - split.
    + intros E. rewrite <- E. cbn [In].
      destruct (validateTimeSlot_enum value) as [H|[H|[H|H]]]; auto.
    + cbn [In]. intros [<-|[<-|[<-|[<-|[]]]]]; reflexivity.
  - unfold validateTimeSlot.
    destruct (Array_includes _ value); [now intros []|reflexivity].
Qed.

(** ** Cache keys *)

Lemma sextet_cases (z : Z) :
  (0 <= z < 64)%Z -> In z (map Z.of_nat (seq 0 64)).
Proof.
  intros H. apply in_map_iff. exists (Z.to_nat z). split; [lia|].
  apply in_seq. lia.
Qed.

Lemma base64_index_char (z : Z) :
  (0 <= z < 64)%Z ->
  base64_index (base64_char z) = z /\ base64_symbol (base64_char z) = true.
Proof.
  intros H. apply sextet_cases in H.
  assert (A : forallb (fun z => (base64_index (base64_char z) =? z)%Z &&
                                base64_symbol (base64_char z))
                (map Z.of_nat (seq 0 64)) = true) by (vm_compute; reflexivity).
  rewrite forallb_forall in A. apply A, andb_true_iff in H as [H1 H2].
  apply Z.eqb_eq in H1. auto.
Qed.

Lemma base64_char_inj (x y : Z) :
  (0 <= x < 64)%Z -> (0 <= y < 64)%Z ->
  base64_char x = base64_char y -> x = y.
Proof.
  intros Hx Hy E. apply (f_equal base64_index) in E.
  now rewrite (proj1 (base64_index_char x Hx)), (proj1 (base64_index_char y Hy)) in E.
Qed.

Lemma byte_val_range (c : ascii) : (0 <= byte_val c < 256)%Z.
Proof. unfold byte_val. pose proof (nat_ascii_bounded c). lia. Qed.

Lemma byte_val_inj (a b : ascii) : byte_val a = byte_val b -> a = b.
Proof.
  unfold byte_val. intros E. apply Nat2Z.inj in E.
  rewrite <- (ascii_nat_embedding a), <- (ascii_nat_embedding b). now rewrite E.
Qed.

Lemma string_ind3 (P : string -> Prop) :
  P EmptyString ->
  (forall a, P (String a EmptyString)) ->
  (forall a b, P (String a (String b EmptyString))) ->
  (forall a b c s, P s -> P (String a (String b (String c s)))) ->
  forall s, P s.
Proof.
  intros H0 H1 H2 H3.
  assert (H : forall s, P s /\ (forall a, P (String a s)) /\
                        (forall a b, P (String a (String b s)))).
  { induction s as [|c s (IH0 & IH1 & IH2)]; [auto|].
    split; [apply IH1|]. split; [intros a; apply IH2|].
    intros a b. now apply H3. }
  intros s. apply H.
Qed.

Lemma sextet_range (n : Z) :
  (0 <= n < 16777216)%Z ->
  (0 <= n / 262144 < 64)%Z /\ (0 <= (n / 4096) mod 64 < 64)%Z /\
  (0 <= (n / 64) mod 64 < 64)%Z /\ (0 <= n mod 64 < 64)%Z.
Proof. intros H. Z.div_mod_to_equations. lia. Qed.

Lemma base64_char_eq (n m : Z) :
  (0 <= n < 64)%Z -> (0 <= m < 64)%Z -> base64_char n = base64_char m -> n = m.
Proof. apply base64_char_inj. Qed.

Lemma base64_char_symbol (n : Z) (c : ascii) :
  (0 <= n < 64)%Z -> base64_symbol c = false -> base64_char n <> c.
Proof.
  intros Hn Hc <-. rewrite (proj2 (base64_index_char n Hn)) in Hc. discriminate.
Qed.

Lemma base64_inj (s1 : string) : forall s2, base64 s1 = base64 s2 -> s1 = s2.
Proof.
  induction s1 as [|a|a b|a b c s1 IH] using string_ind3;
    intros [|a' [|b' [|c' s2]]]; cbn [base64]; cbv zeta; intros E;
    try discriminate E; try reflexivity; byte_ranges byte_val_range.
  all: injection E; clear E; intros.
  all: try (exfalso;
            match goal with
            | H : _ = base64_char ?n |- _ =>
                apply (base64_char_symbol n "=");
                [sextet_bounds sextet_range|reflexivity|now symmetry]
            | H : base64_char ?n = _ |- _ =>
                apply (base64_char_symbol n "=");
                [sextet_bounds sextet_range|reflexivity|assumption]
            end).
  all: repeat match goal with
         | H : base64_char _ = base64_char _ |- _ =>
             apply base64_char_eq in H; [|sextet_bounds sextet_range..]
         end.
  - assert (byte_val a = byte_val a') by (Z.div_mod_to_equations; lia).
    f_equal. now apply byte_val_inj.
  - assert (byte_val a = byte_val a' /\ byte_val b = byte_val b') as [? ?]
      by (Z.div_mod_to_equations; lia).
    f_equal; [|f_equal]; now apply byte_val_inj.
  - assert (byte_val a = byte_val a' /\ byte_val b = byte_val b' /\
            byte_val c = byte_val c') as (? & ? & ?)
      by (Z.div_mod_to_equations; lia).
    f_equal; [|f_equal; [|f_equal]]; try now apply byte_val_inj.
    now apply IH.
Qed.

Lemma base64_symbols (s : string) : has_char ":" (base64 s) = false.
Proof.
  induction s as [|a|a b|a b c s IH] using string_ind3;
    cbn [base64 has_char]; cbv zeta; byte_ranges byte_val_range; [reflexivity|..].
  all: repeat match goal with
         | |- context [Ascii.eqb ":" (base64_char ?n)] =>
             let E := fresh in
             destruct (Ascii.eqb_spec ":" (base64_char n)) as [E|_];
             [exfalso; apply (base64_char_symbol n ":");
              [sextet_bounds sextet_range|reflexivity|now symmetry]|]
         end.
  all: cbn [orb]; try reflexivity. exact IH.
Qed.

Lemma append_inj_l (p a b : string) : p +:+ a = p +:+ b -> a = b.
Proof.
  induction p as [|c p IH]; [now rewrite !append_nil|].
  rewrite !append_cons. intros [= E]. now apply IH.
Qed.

(** The text behind the last colon of a key determines the split. *)
Lemma colon_split (u1 : string) : forall u2 b1 b2,
  has_char ":" b1 = false -> has_char ":" b2 = false ->
  u1 +:+ String ":" b1 = u2 +:+ String ":" b2 -> u1 = u2 /\ b1 = b2.
Proof.
  induction u1 as [|c u1 IH]; intros [|c' u2] b1 b2 H1 H2;
    rewrite ?append_nil, ?append_cons; intros [= E].
  - now split.
  - subst. rewrite has_char_append in H1. cbn [has_char] in H1.
    rewrite Ascii.eqb_refl in H1. now rewrite orb_true_r in H1.
  - subst. rewrite has_char_append in H2. cbn [has_char] in H2.
    rewrite Ascii.eqb_refl in H2. now rewrite orb_true_r in H2.
  - subst. destruct (IH u2 b1 b2 H1 H2) as [-> ->]; [assumption|now split].
Qed.

(** X6: for ASCII titles and descriptions, two calls of [analyzeTask] use
    the same cache key exactly when the concatenations of their titles
    and descriptions are equal: the base64 encoding loses nothing, the
    boundary between title and description is not part of the key, and
    neither is the context. *)
Theorem analysis_cache_key_collision (title1 description1 title2 description2 : string) :
  ascii_text title1 = true -> ascii_text description1 = true ->
  ascii_text title2 = true -> ascii_text description2 = true ->
  (analysis_cache_key title1 description1 = analysis_cache_key title2 description2 <->
   title1 +:+ description1 = title2 +:+ description2).
Proof.
  intros _ _ _ _. unfold analysis_cache_key. split.
  - intros E. now apply append_inj_l, base64_inj in E.
  - now intros ->.
Qed.

(** X7: for ASCII user ids and contexts, the cache key of
    [generateTaskSuggestions] determines the user and the context: two
    calls share a cache entry only when both their user ids and their
    contexts are equal, even for user ids that hold a colon. *)
Theorem suggestions_cache_key_injective (userId1 context1 userId2 context2 : string) :
  ascii_text userId1 = true -> ascii_text context1 = true ->
  ascii_text userId2 = true -> ascii_text context2 = true ->
  (suggestions_cache_key userId1 context1 = suggestions_cache_key userId2 context2 <->
   userId1 = userId2 /\ context1 = context2).
Proof.
  intros _ _ _ _. unfold suggestions_cache_key. split.
  - intros E. apply append_inj_l in E.
    change (":" +:+ base64 context1) with (String ":" (base64 context1)) in E.
    change (":" +:+ base64 context2) with (String ":" (base64 context2)) in E.
    apply colon_split in E as [-> E]; [|apply base64_symbols..].
    split; [reflexivity|now apply base64_inj].
  - now intros [-> ->].
Qed.

(** ** The order of the calls and the state of the cache *)

Section Coverage.

Variable tokenizer_tokenize : string -> option (list string).
Variable PorterStemmer_stem : string -> string.
Variable sentiment_getSentiment : list string -> Num.
Variable Date_valid : JSValue -> bool.

(** X8: a run of [analyzeTask] leaves the [isInitialized] flag as it is,
    and its calls are, in this order and each at most once, the cache
    get for its key, the construction of the prompt, the remote call
    with that prompt, and the cache write under the same key with a
    lifetime of 3600 seconds; a run may stop after any of them. *)
Theorem analyzeTask_protocol env title description context w :
  let key := analysis_cache_key title description in
  let prompt := buildAnalysisPrompt title description context in
  let w' := snd (analyzeTask tokenizer_tokenize PorterStemmer_stem
                   sentiment_getSentiment env title description context w) in
  isInitialized w' = isInitialized w /\
  exists value events,
    trace w' = (trace w ++ events)%list /\
    calls events `prefix_of`
      [RedisGet key; BuildPrompt prompt; OpenAICreate (analysis_request prompt);
       RedisSetex key 3600 value].
Proof.
  destruct w as [init st tr]. on_every_path.
  all: split; [reflexivity|]; eexists; calls_in_order.
  Unshelve. all: exact EmptyString.
Qed.

(** X9: after a run of [analyzeTask] the cache is as it was before, or
    it differs in the entry of the call's own key only.  That entry then
    holds, with a lifetime of 3600 seconds, the serialization of the very
    value that is returned, and that value is the analysis validated
    from the reply of this run, within the declared ranges.  On every
    failure, where the fallback is returned, and on a cache hit, the
    cache is left as it is: a fallback and a value read from the cache
    are never written. *)
Theorem analyzeTask_caches_what_it_returns env title description context w :
  let key := analysis_cache_key title description in
  let request := analysis_request (buildAnalysisPrompt title description context) in
  let score := analyzeSentiment tokenizer_tokenize PorterStemmer_stem
                 sentiment_getSentiment description in
  let r := analyzeTask tokenizer_tokenize PorterStemmer_stem
             sentiment_getSentiment env title description context w in
  (redis (snd r) = redis w \/
   exists text analysis final,
     cached_text w key = None /\
     reply_text env request = Some text /\
     extract_analysis text = Return analysis /\
     finalAnalysis analysis score = Return final /\
     valid_analysis final /\
     fst r = Return (TaskAnalysis_value final) /\
     redis (snd r) =
       <[key := (3600%Z, JSON_stringify (TaskAnalysis_value final))]> (redis w)) /\
  (analysis_failure env w title description context -> redis (snd r) = redis w) /\
  (cache_hit env w key -> redis (snd r) = redis w).
Proof.
  cbv zeta. split; [|split].
  - destruct w as [init st tr]. on_every_path.
    all: try (left; reflexivity).
    all: right.
    all: match goal with
         | Hx : extract_analysis ?s = Return ?a, Hf : finalAnalysis ?a _ = Return ?t
           |- _ => exists s, a, t
         end.
    all: unfold cached_text, reply_text; cbn [redis].
    all: repeat match goal with
           | H : _ = _ |- _ => rewrite H
           end.
    all: repeat split; try reflexivity.
    all: eapply finalAnalysis_valid; eassumption.
  - intros Hf. destruct w as [init st tr]. revert Hf.
    unfold analysis_failure. on_every_path.
    all: intros Hf; try reflexivity.
    all: unfold cached_text, reply_text in Hf; cbn [redis isInitialized] in Hf.
    all: absurd_coercion finalAnalysis_coercible.
  - intros (Hi & Hg & cached & Hc).
    rewrite (analyzeTask_hit tokenizer_tokenize PorterStemmer_stem
               sentiment_getSentiment env title description context w cached)
      by assumption.
    cbv zeta. now destruct (JSON_parse cached).
Qed.

(** X10: a run of [generateTaskSuggestions] leaves the [isInitialized]
    flag as it is, and its calls are, in this order and each at most
    once, the cache get for its key, the construction of the prompt, the
    remote call with that prompt, and the cache write under the same key
    with a lifetime of 1800 seconds. *)
Theorem generateTaskSuggestions_protocol env userId userContext limit w :
  let key := suggestions_cache_key userId userContext in
  let prompt := suggestions_prompt userContext limit in
  let w' := snd (generateTaskSuggestions env userId userContext limit w) in
  isInitialized w' = isInitialized w /\
  exists value events,
    trace w' = (trace w ++ events)%list /\
    calls events `prefix_of`
      [RedisGet key; BuildPrompt prompt;
       OpenAICreate (user_request prompt (7 # 10) 400);
       RedisSetex key 1800 value].
Proof.
  destruct w as [init st tr]. on_every_path.
  all: split; [reflexivity|]; eexists; calls_in_order.
  Unshelve. all: exact EmptyString.
Qed.

(** X11: on a cache miss [generateTaskSuggestions] stores whatever the
    reply parses to, before it looks at it: when the cache write
    succeeds, the entry of the call's key holds, with a lifetime of 1800
    seconds, the serialization of the whole parsed value, also when that
    value is not an array and the call itself returns the default
    suggestions. *)
Theorem generateTaskSuggestions_caches_reply env userId userContext limit w
    reply suggestions :
  isInitialized w = true -> redis_get_fault env = None ->
  cached_text w (suggestions_cache_key userId userContext) = None ->
  openai_reply env (user_request (suggestions_prompt userContext limit) (7 # 10) 400)
    = Return reply ->
  JSON_parse (default "[]" (truthy_string reply)) = Return suggestions ->
  redis_setex_fault env = None ->
  let r := generateTaskSuggestions env userId userContext limit w in
  redis (snd r) =
    <[suggestions_cache_key userId userContext :=
        (1800%Z, JSON_stringify suggestions)]> (redis w) /\
  (Array_isArray suggestions = false -> fst r = Return (JArr getDefaultSuggestions)).
Proof.
  destruct w as [init st tr]. run. intros -> Hg Hc Hr Hp Hs.
  rewrite Hg, Hc, Hr, Hp, Hs. cbn [fst snd redis].
  split; [reflexivity|]. now destruct suggestions.
Qed.

(** X12: [generateProductivityInsights] never reads or writes the cache
    and leaves the [isInitialized] flag as it is; it builds at most one
    prompt and calls the remote model at most once; and it always
    returns an array: either the default insights, or the array that the
    reply parses to, as it is, with no check of its entries and no bound
    on their number. *)
Theorem generateProductivityInsights_result env userData w :
  let prompt := insights_prompt userData in
  let r := generateProductivityInsights env userData w in
  redis (snd r) = redis w /\
  isInitialized (snd r) = isInitialized w /\
  (exists events,
      trace (snd r) = (trace w ++ events)%list /\
      calls events `prefix_of`
        [BuildPrompt prompt; OpenAICreate (user_request prompt (4 # 10) 1000)]) /\
  exists items,
    fst r = Return (JArr items) /\
    (items = getDefaultInsights \/
     exists reply,
       openai_reply env (user_request prompt (4 # 10) 1000) = Return reply /\
       JSON_parse (default "[]" (truthy_string reply)) = Return (JArr items)).
Proof.
  destruct w as [init st tr]. on_every_path.
  all: split; [reflexivity|]; split; [reflexivity|].
  all: split; [calls_in_order|].
  all: eexists; split; [reflexivity|]; eauto.
Qed.

Lemma js_or_truthy (a b : JSValue) :
  ToBoolean b = true -> ToBoolean (js_or a b) = true.
Proof. unfold js_or. now destruct (ToBoolean a) eqn:E. Qed.

Lemma js_or_cases (a b : JSValue) :
  ToBoolean (js_or a b) = true \/ js_or a b = b.
Proof. unfold js_or. destruct (ToBoolean a) eqn:E; auto. Qed.

Lemma validateDate_cases (dateString dueDate : JSValue) :
  validateDate Date_valid dateString = Return dueDate ->
  dueDate = JNull \/
  (dueDate = dateString /\
   ToBoolean dateString = true /\ Date_valid dateString = true).
Proof.
  unfold validateDate, and_then.
  destruct (ToBoolean dateString); [|intros [= <-]; now left].
  cbn [negb]. destruct (ToPrimitive dateString); [|discriminate].
  destruct (Date_valid dateString); intros [= <-]; auto.
Qed.

Lemma validateDate_coercible (dateString : JSValue) :
  (negb (ToBoolean dateString) || coercible dateString = true ->
   exists dueDate, validateDate Date_valid dateString = Return dueDate) /\
  (negb (ToBoolean dateString) || coercible dateString = false ->
   exists e, validateDate Date_valid dateString = Throw e).
Proof.
  unfold validateDate, coercible, and_then.
  destruct (ToBoolean dateString); cbn [negb orb].
  - destruct (ToPrimitive dateString); split; try discriminate; eauto.
  - split; [eauto|discriminate].
Qed.

(** The object literal of [parseVoiceToTask] is built exactly when its two
    numbers and its date can be validated. *)
Lemma voice_task_coercible (taskData : JSValue) (transcription : string) :
  (exists task, voice_task Date_valid taskData transcription = Return task) <->
  task_coercible taskData = true.
Proof.
  unfold task_coercible, voice_task, and_then.
  destruct (validateRange_coercible (prop taskData "priority")
              (num_of_Z 1) (num_of_Z 10) (num_of_Z 5)) as [P1 P2].
  destruct (validateRange_coercible (prop taskData "estimatedHours")
              (Fin (1 # 2)) (num_of_Z 20) (num_of_Z 1)) as [H1 H2].
  destruct (validateDate_coercible (prop taskData "dueDate")) as [D1 D2].
  destruct (coercible (prop taskData "priority")).
  2: { destruct (P2 eq_refl) as [e ->]. split; [intros [t [=]]|discriminate]. }
  destruct (P1 eq_refl) as [p ->].
  destruct (coercible (prop taskData "estimatedHours")).
  2: { destruct (H2 eq_refl) as [e ->]. split; [intros [t [=]]|discriminate]. }
  destruct (H1 eq_refl) as [h ->].
  destruct (negb (ToBoolean (prop taskData "dueDate")) || _).
  2: { destruct (D2 eq_refl) as [e ->]. split; [intros [t [=]]|discriminate]. }
  destruct (D1 eq_refl) as [d ->]. split; [reflexivity|eauto].
Qed.

Lemma voice_task_shape (taskData : JSValue) (transcription : string) (task : JSValue) :
  voice_task Date_valid taskData transcription = Return task ->
  exists title description priority estimatedHours dueDate tags category,
    task =
      JObj [ ("title", title);
             ("description", description);
             ("priority", JNum priority);
             ("estimatedHours", JNum estimatedHours);
             ("dueDate", dueDate);
             ("tags", JArr tags);
             ("category", category) ] /\
    ToBoolean title = true /\
    (ToBoolean description = true \/ description = JStr transcription) /\
    in_range priority 1 10 /\
    in_range estimatedHours (1 # 2) 20 /\
    (dueDate = JNull \/ ToBoolean dueDate = true /\ Date_valid dueDate = true) /\
    (length tags <= 5)%nat /\
    ToBoolean category = true.
Proof.
  unfold voice_task, and_then.
  destruct (validateRange (prop taskData "priority") _ _ _) as [p|] eqn:Ep;
    [|discriminate].
  destruct (validateRange (prop taskData "estimatedHours") _ _ _) as [h|] eqn:Eh;
    [|discriminate].
  destruct (validateDate Date_valid (prop taskData "dueDate")) as [d|] eqn:Ed;
    [|discriminate].
  intros [= <-].
  exists (js_or (prop taskData "title") (JStr "Voice Task")),
    (js_or (prop taskData "description") (JStr transcription)),
    p, h, d,
    (match prop taskData "tags" with
     | JArr items => Array_slice0 items (num_of_Z 5)
     | _ => [JStr "voice"]
     end),
    (js_or (prop taskData "category") (JStr "other")).
  split; [now destruct (prop taskData "tags")|].
  split; [now apply js_or_truthy|].
  split; [apply js_or_cases|].
  split.
  { eapply validateRange_valid;
      [apply tenth_double_1|apply tenth_double_10| |exact Ep].
    split; unfold Qle; simpl; lia. }
  split.
  { eapply validateRange_valid;
      [apply tenth_double_half|apply tenth_double_20| |exact Eh].
    split; unfold Qle; simpl; lia. }
  split.
  { destruct (validateDate_cases _ _ Ed) as [->|(-> & H1 & H2)]; auto. }
  split; [|now apply js_or_truthy].
  destruct (prop taskData "tags"); cbn [length]; try lia.
  etransitivity; [apply Array_slice0_bound; lia|]. simpl; lia.
Qed.

(** X13: [parseVoiceToTask] never reads or writes the cache and leaves
    the [isInitialized] flag as it is; it builds at most one prompt and
    calls the remote model at most once.  It either raises the error
    with status 500, or returns an object with exactly the fields title,
    description, priority, estimatedHours, dueDate, tags and category, in
    which the title and the category are truthy, the description is
    truthy or is the transcription, the priority lies in [1, 10] and the
    estimated hours in [0.5, 20], the due date is null or a truthy value
    that the date parser accepts, and the tags are an array of at most
    five elements. *)
Theorem parseVoiceToTask_result env transcription w :
  let prompt := voice_prompt transcription in
  let r := parseVoiceToTask Date_valid env transcription w in
  redis (snd r) = redis w /\
  isInitialized (snd r) = isInitialized w /\
  (exists events,
      trace (snd r) = (trace w ++ events)%list /\
      calls events `prefix_of`
        [BuildPrompt prompt; OpenAICreate (user_request prompt (3 # 10) 500)]) /\
  (fst r = Throw (CustomError "Failed to process voice input" 500) \/
   exists title description priority estimatedHours dueDate tags category,
     fst r = Return (JObj [ ("title", title);
                            ("description", description);
                            ("priority", JNum priority);
                            ("estimatedHours", JNum estimatedHours);
                            ("dueDate", dueDate);
                            ("tags", JArr tags);
                            ("category", category) ]) /\
     ToBoolean title = true /\
     (ToBoolean description = true \/ description = JStr transcription) /\
     in_range priority 1 10 /\
     in_range estimatedHours (1 # 2) 20 /\
     (dueDate = JNull \/ ToBoolean dueDate = true /\ Date_valid dueDate = true) /\
     (length tags <= 5)%nat /\
     ToBoolean category = true).
Proof.
  destruct w as [init st tr]. on_every_path.
  all: split; [reflexivity|]; split; [reflexivity|].
  all: split; [calls_in_order|].
  all: try (left; reflexivity).
  all: right.
  all: match goal with
       | E : voice_task _ ?d ?t = Return ?task |- _ =>
           destruct (voice_task_shape d t task E)
             as (title & description & priority & estimatedHours & dueDate
                 & tags & category & -> & H);
           exists title, description, priority, estimatedHours, dueDate, tags,
             category; split; [reflexivity|exact H]
       end.
Qed.

(** X14: [parseVoiceToTask] returns a task exactly when the service is
    initialized, the remote call does not raise, the reply, or the text
    of an empty object when the reply has no content, is valid JSON and
    does not parse to null, and the object literal of the task can be
    built from the parsed value; from a value that is not null it can be
    built exactly when the priority, the estimated hours and the due
    date, unless that is falsy, can be turned into primitive values.  The parsed value need
    not be an object: from a number, a string, a boolean or an array
    every field takes its default. *)
Theorem parseVoiceToTask_returns_iff env transcription w task :
  (fst (parseVoiceToTask Date_valid env transcription w) = Return task <->
   isInitialized w = true /\
   exists reply taskData,
     openai_reply env (user_request (voice_prompt transcription) (3 # 10) 500)
       = Return reply /\
     JSON_parse (default "{}" (truthy_string reply)) = Return taskData /\
     is_nullish taskData = false /\
     voice_task Date_valid taskData transcription = Return task) /\
  (forall taskData,
     is_nullish taskData = false ->
     ((exists built, voice_task Date_valid taskData transcription = Return built) <->
      task_coercible taskData = true)).
Proof.
  split; [|intros taskData _; apply voice_task_coercible].
  destruct w as [init st tr]. on_every_path.
  all: split;
    [intros E;
     first [discriminate E
           |injection E as <-; split; [reflexivity|];
            eexists; eexists; split; [reflexivity|]; split; [eassumption|];
            split; [reflexivity|eassumption]]
    |intros (Hi & reply & taskData & Hr & Hp & Hn & Hv)].
  all: try discriminate Hi; try discriminate Hr.
  all: injection Hr as <-.
  all: match goal with
       | H : JSON_parse _ = _ |- _ =>
           tryif constr_eq H Hp then fail else rewrite H in Hp
       end; try discriminate Hp.
  all: injection Hp as <-; try discriminate Hn.
  all: match goal with
       | H : voice_task _ _ _ = _ |- _ =>
           tryif constr_eq H Hv then fail else rewrite H in Hv
       end; congruence.
Qed.

(** X15: while the service is not initialized, [analyzeTask],
    [generateTaskSuggestions] and [generateProductivityInsights] return
    the heuristic fallback and the default results without any effect:
    the cache is neither read nor written, the remote model is not
    called, and nothing is logged. *)
Theorem uninitialized_service_is_silent env w title description context
    userId userContext limit userData :
  isInitialized w = false ->
  analyzeTask tokenizer_tokenize PorterStemmer_stem sentiment_getSentiment
    env title description context w =
    (Return (TaskAnalysis_value (fallbackAnalysis title description)), w) /\
  generateTaskSuggestions env userId userContext limit w =
    (Return (JArr getDefaultSuggestions), w) /\
  generateProductivityInsights env userData w =
    (Return (JArr getDefaultInsights), w).
Proof. destruct w as [init st tr]. run. intros ->. auto. Qed.

Lemma analyzeTask_validated_run env title description context w text analysis
    final :
  isInitialized w = true -> redis_get_fault env = None ->
  cached_text w (analysis_cache_key title description) = None ->
  reply_text env (analysis_request (buildAnalysisPrompt title description context))
    = Some text ->
  extract_analysis text = Return analysis ->
  finalAnalysis analysis
    (analyzeSentiment tokenizer_tokenize PorterStemmer_stem
       sentiment_getSentiment description) = Return final ->
  redis_setex_fault env = None ->
  let key := analysis_cache_key title description in
  let prompt := buildAnalysisPrompt title description context in
  let stored := JSON_stringify (TaskAnalysis_value final) in
  analyzeTask tokenizer_tokenize PorterStemmer_stem sentiment_getSentiment
    env title description context w =
  (Return (TaskAnalysis_value final),
   mkWorld true (<[key := (3600%Z, stored)]> (redis w))
     (trace w ++
      [RedisGet key; BuildPrompt prompt; OpenAICreate (analysis_request prompt);
       RedisSetex key 3600 stored;
       Logged LogInfo ("🔍 AI task analysis completed with "
                         +:+ pretty (confidenceScore final) +:+ "% confidence")])).
Proof.
  destruct w as [init st tr]. run. intros -> Hg Hc Hr Ha Hf Hs.
  destruct (extract_analysis_object _ _ Ha) as [fields ->].
  rewrite Hg, Hc.
  destruct (openai_reply env _) as [r|]; [|discriminate].
  rewrite Hr, Ha, Hf, Hs. rewrite <- !app_assoc. reflexivity.
Qed.

Lemma stringify_analysis_nonempty (a : TaskAnalysis) :
  truthy_string (Some (JSON_stringify (TaskAnalysis_value a))) =
  Some (JSON_stringify (TaskAnalysis_value a)).
Proof.
  assert (H : exists s, JSON_stringify (TaskAnalysis_value a) = String "{" s).
  { unfold JSON_stringify, TaskAnalysis_value. cbn [serialize].
    destruct (priority a); eexists; reflexivity. }
  destruct H as [s ->]. reflexivity.
Qed.

(** X16: once [analyzeTask] has analysed a task through the remote
    model, validated the reply and written the cache, the next call for
    the same title and description is answered from the cache, whatever
    its context is and however the remote model would answer: beyond the
    cache get it makes no call, it leaves the cache as it is, and it
    returns what the stored text deserializes to, or the fallback when
    that text does not deserialize. *)
Theorem analyzeTask_second_call_cached env env' title description context context'
    w text analysis final :
  isInitialized w = true -> redis_get_fault env = None ->
  cached_text w (analysis_cache_key title description) = None ->
  reply_text env (analysis_request (buildAnalysisPrompt title description context))
    = Some text ->
  extract_analysis text = Return analysis ->
  finalAnalysis analysis
    (analyzeSentiment tokenizer_tokenize PorterStemmer_stem
       sentiment_getSentiment description) = Return final ->
  redis_setex_fault env = None ->
  redis_get_fault env' = None ->
  let key := analysis_cache_key title description in
  let first :=
    analyzeTask tokenizer_tokenize PorterStemmer_stem sentiment_getSentiment
      env title description context w in
  let second :=
    analyzeTask tokenizer_tokenize PorterStemmer_stem sentiment_getSentiment
      env' title description context' (snd first) in
  fst first = Return (TaskAnalysis_value final) /\
  redis (snd second) = redis (snd first) /\
  (exists events,
      trace (snd second) = (trace (snd first) ++ events)%list /\
      calls events = [RedisGet key]) /\
  fst second =
    match JSON_parse (JSON_stringify (TaskAnalysis_value final)) with
    | Return v => Return v
    | Throw _ => Return (TaskAnalysis_value (fallbackAnalysis title description))
    end.
Proof.
  intros Hi Hg Hc Hr Ha Hf Hs Hg'. cbv zeta.
  rewrite (analyzeTask_validated_run env title description context w text analysis
             final) by assumption.
  cbv zeta. cbn [fst snd].
  rewrite (analyzeTask_hit tokenizer_tokenize PorterStemmer_stem sentiment_getSentiment
             env' title description context' _
             (JSON_stringify (TaskAnalysis_value final))).
  - cbv zeta. split; [reflexivity|].
    destruct (JSON_parse _) as [v|e]; cbn [fst snd redis trace].
    + split; [reflexivity|]. split; [|reflexivity].
      eexists. split; reflexivity.
    + split; [reflexivity|]. split; [|reflexivity].
      rewrite <- app_assoc. eexists. split; reflexivity.
  - reflexivity.
  - assumption.
  - unfold cached_text. cbn [redis]. rewrite lookup_insert_eq.
    apply stringify_analysis_nonempty.
Qed.

(** X17: when the cache get raises, [analyzeTask] and
    [generateTaskSuggestions] give up at once: the remote model is not
    called, the cache is left as it is, one error is logged, and the
    fallback analysis and the default suggestions are returned. *)
Theorem cache_outage_stops_remote_calls env e w title description context
    userId userContext limit :
  isInitialized w = true -> redis_get_fault env = Some e ->
  analyzeTask tokenizer_tokenize PorterStemmer_stem sentiment_getSentiment
    env title description context w =
    (Return (TaskAnalysis_value (fallbackAnalysis title description)),
     mkWorld true (redis w)
       (trace w ++ [RedisGet (analysis_cache_key title description);
                    Logged LogError "❌ AI task analysis failed:"])) /\
  generateTaskSuggestions env userId userContext limit w =
    (Return (JArr getDefaultSuggestions),
     mkWorld true (redis w)
       (trace w ++ [RedisGet (suggestions_cache_key userId userContext);
                    Logged LogError "❌ Task suggestion generation failed:"])).
Proof.
  destruct w as [init st tr]. run. intros -> ->.
  rewrite <- !app_assoc. split; reflexivity.
Qed.

(** X18: [generateTaskSuggestions] does not validate [limit].  On a cache
    miss with a reply that parses to an array, and a cache write that
    succeeds, the result is [slice(0, limit)] of that array, always one
    of its prefixes: the empty list for [limit] 0 and for a [limit] that
    is not a number, the first [limit] suggestions for a positive
    integer, the whole array for [Infinity], and for a negative integer
    [-k] the array without its last [k] elements. *)
Theorem generateTaskSuggestions_limit_edges env userId userContext limit w
    reply items :
  isInitialized w = true -> redis_get_fault env = None ->
  cached_text w (suggestions_cache_key userId userContext) = None ->
  openai_reply env (user_request (suggestions_prompt userContext limit) (7 # 10) 400)
    = Return reply ->
  JSON_parse (default "[]" (truthy_string reply)) = Return (JArr items) ->
  redis_setex_fault env = None ->
  exists n,
    fst (generateTaskSuggestions env userId userContext limit w) =
      Return (JArr (firstn n items)) /\
    (limit = NaN -> n = 0%nat) /\
    (limit = PInf -> n = length items) /\
    (forall k, limit = num_of_Z k -> (0 <= k)%Z ->
       firstn n items = firstn (Z.to_nat k) items) /\
    (forall k, limit = num_of_Z k -> (k < 0)%Z ->
       firstn n items = firstn (length items - Z.to_nat (- k)) items).
Proof.
  destruct w as [init st tr]. run. intros -> Hg Hc Hr Hp Hs.
  rewrite Hg, Hc, Hr, Hp, Hs. cbn [fst].
  destruct limit as [| | |q].
  - exists 0%nat. split; [exact (f_equal (fun l => Return (JArr l))
                                   (Array_slice0_integer items 0))|].
    repeat split; try discriminate; intros k [=].
  - exists (length items). split; [cbn; now rewrite firstn_all|].
    repeat split; try discriminate; intros k [=].
  - exists 0%nat. split; [reflexivity|].
    repeat split; try discriminate; intros k [=].
  - destruct (Array_slice0_take items (Fin q)) as [n E]. exists n.
    split; [now rewrite E|].
    split; [discriminate|]. split; [discriminate|].
    split; intros k Hk Hsign; rewrite Hk in E; rewrite <- E, Array_slice0_integer.
    + destruct (Z.ltb_spec k 0); [lia|reflexivity].
    + destruct (Z.ltb_spec k 0); [reflexivity|lia].
Qed.

(** X19: the remote model is called exactly once or not at all.
    [analyzeTask] and [generateTaskSuggestions] call it exactly when the
    service is initialized, the cache get does not raise and the cache
    holds no text, or the empty text, under the key of the call;
    [generateProductivityInsights] and [parseVoiceToTask] call it exactly
    when the service is initialized. *)
Theorem remote_model_called_on_miss env w title description context
    userId userContext limit userData transcription :
  (exists events,
      trace (snd (analyzeTask tokenizer_tokenize PorterStemmer_stem
                    sentiment_getSentiment env title description context w)) =
        (trace w ++ events)%list /\
      List.filter is_remote_call events =
        if isInitialized w then
          match redis_get_fault env,
                cached_text w (analysis_cache_key title description) with
          | None, None =>
              [OpenAICreate
                 (analysis_request (buildAnalysisPrompt title description context))]
          | _, _ => []
          end
        else []) /\
  (exists events,
      trace (snd (generateTaskSuggestions env userId userContext limit w)) =
        (trace w ++ events)%list /\
      List.filter is_remote_call events =
        if isInitialized w then
          match redis_get_fault env,
                cached_text w (suggestions_cache_key userId userContext) with
          | None, None =>
              [OpenAICreate
                 (user_request (suggestions_prompt userContext limit) (7 # 10) 400)]
          | _, _ => []
          end
        else []) /\
  (exists events,
      trace (snd (generateProductivityInsights env userData w)) =
        (trace w ++ events)%list /\
      List.filter is_remote_call events =
        if isInitialized w
        then [OpenAICreate (user_request (insights_prompt userData) (4 # 10) 1000)]
        else []) /\
  (exists events,
      trace (snd (parseVoiceToTask Date_valid env transcription w)) =
        (trace w ++ events)%list /\
      List.filter is_remote_call events =
        if isInitialized w
        then [OpenAICreate (user_request (voice_prompt transcription) (3 # 10) 500)]
        else []).
Proof.
  destruct w as [init st tr].
  split; [|split; [|split]]; on_every_path.
  all: unfold cached_text; cbn [redis].
  all: rewrite <- ?app_assoc; cbn [app].
  all: eexists; split; [first [reflexivity|symmetry; apply app_nil_r]|].
  all: repeat match goal with
         | H : _ = _ |- _ => rewrite H
         end; reflexivity.
Qed.

(** X20: [initialize] never turns an initialized service off and never
    touches the cache: with a key that is a string and not empty the
    service is initialized afterwards; with no key, or with the empty
    string as key, the flag stays as it was.  In both cases it returns
    and logs one line. *)
Theorem initialize_effect (key : option string) (w : World) :
  let r := initialize key w in
  fst r = Return tt /\
  redis (snd r) = redis w /\
  (exists level message,
      trace (snd r) = (trace w ++ [Logged level message])%list) /\
  (isInitialized w = true -> isInitialized (snd r) = true) /\
  (key = None \/ key = Some EmptyString ->
   isInitialized (snd r) = isInitialized w) /\
  (forall c s, key = Some (String c s) -> isInitialized (snd r) = true).
Proof.
  destruct w as [init st tr]. cbv zeta. unfold initialize.
  destruct key as [[|c s]|]; run; cbn [fst snd redis trace isInitialized truthy_string].
  all: split; [reflexivity|]; split; [reflexivity|]; split; [eauto|].
  all: split; [auto|]; split; [|intros c' s' [=]; auto].
  all: intros [H|H]; try discriminate H; reflexivity.
Qed.

End Coverage.

(** X22: the inner [try] of [analyzeTask] has three outcomes only: a
    JSON object, a [SyntaxError] of [JSON.parse], or the error that no
    JSON was found.  It never yields an array, a string, a number, a
    boolean or null, so that reading the fields of the parsed analysis
    cannot fail. *)
Theorem extract_analysis_outcomes (text : string) :
  (exists fields, extract_analysis text = Return (JObj fields)) \/
  extract_analysis text = Throw SyntaxError \/
  extract_analysis text = Throw (Error "No JSON found in response").
Proof.
  destruct (extract_analysis text) as [v|e] eqn:E.
  - left. destruct (extract_analysis_object _ _ E) as [fields ->]. eauto.
  - right. rewrite extract_analysis_brace_span in E.
    destruct (brace_span text) as [region|]; [|injection E as <-; auto].
    destruct (JSON_parse_fuel region) as [[v H]|H]; rewrite H in E;
      [discriminate|injection E as <-; auto].
Qed.

(** ** The further properties on concrete runs *)

Lemma generateTaskSuggestions_caches_reply_witness :
  let r := generateTaskSuggestions (no_faults reply_unordered) "user-1" "sprint"
             (num_of_Z 2) fresh_world in
  JSON_parse reply_unordered = Return (JObj [("1", JInt 2); ("b", JInt 1)]) /\
  JSON_stringify (JObj [("1", JInt 2); ("b", JInt 1)])
  = "{" +:+ quoted "1" +:+ ":2," +:+ quoted "b" +:+ ":1}" /\
  redis (snd r) =
    <[suggestions_cache_key "user-1" "sprint" :=
        (1800%Z, JSON_stringify (JObj [("1", JInt 2); ("b", JInt 1)]))]>
      (redis fresh_world) /\
  (Array_isArray (JObj [("1", JInt 2); ("b", JInt 1)]) = false ->
   fst r = Return (JArr getDefaultSuggestions)).
Proof.
  split; [vm_compute; reflexivity|]. split; [vm_compute; reflexivity|].
  apply (generateTaskSuggestions_caches_reply (no_faults reply_unordered) "user-1"
           "sprint" (num_of_Z 2) fresh_world (Some reply_unordered)
           (JObj [("1", JInt 2); ("b", JInt 1)]));
    vm_compute; reflexivity.
Defined.

Lemma uninitialized_service_is_silent_witness :
  analyzeTask toy_tokenize toy_stem toy_sentiment (no_faults object_a1)
    "Plan" "the week" JUndefined uninitialized_world =
    (Return (TaskAnalysis_value (fallbackAnalysis "Plan" "the week")),
     uninitialized_world) /\
  generateTaskSuggestions (no_faults object_a1) "user-1" "sprint" (num_of_Z 5)
    uninitialized_world =
    (Return (JArr getDefaultSuggestions), uninitialized_world) /\
  generateProductivityInsights (no_faults object_a1) JNull uninitialized_world =
    (Return (JArr getDefaultInsights), uninitialized_world).
Proof.
  apply (uninitialized_service_is_silent toy_tokenize toy_stem toy_sentiment).
  reflexivity.
Defined.

Lemma analyzeTask_second_call_cached_witness :
  let first := analyzeTask toy_tokenize toy_stem toy_sentiment (no_faults reply_noise)
                 "Plan" "great work" JUndefined fresh_world in
  let second := analyzeTask toy_tokenize toy_stem toy_sentiment remote_down
                  "Plan" "great work" (JStr "another context") (snd first) in
  exists final,
    finalAnalysis (JObj [("a", JInt 1)])
      (analyzeSentiment toy_tokenize toy_stem toy_sentiment "great work")
    = Return final /\
    fst first = Return (TaskAnalysis_value final) /\
    redis (snd second) = redis (snd first) /\
    (exists events,
        trace (snd second) = (trace (snd first) ++ events)%list /\
        calls events = [RedisGet (analysis_cache_key "Plan" "great work")]) /\
    fst second =
      match JSON_parse (JSON_stringify (TaskAnalysis_value final)) with
      | Return v => Return v
      | Throw _ => Return (TaskAnalysis_value (fallbackAnalysis "Plan" "great work"))
      end.
Proof.
  destruct (proj1 (finalAnalysis_coercible (JObj [("a", JInt 1)])
                     (analyzeSentiment toy_tokenize toy_stem toy_sentiment
                        "great work")) eq_refl) as [final Hf].
  exists final. split; [exact Hf|].
  apply (analyzeTask_second_call_cached toy_tokenize toy_stem toy_sentiment
           (no_faults reply_noise) remote_down "Plan" "great work" JUndefined
           (JStr "another context") fresh_world reply_noise (JObj [("a", JInt 1)]));
    try exact Hf; vm_compute; reflexivity.
Defined.

Lemma cache_outage_stops_remote_calls_witness :
  analyzeTask toy_tokenize toy_stem toy_sentiment (cache_down object_a1)
    "Plan" "the week" JUndefined fresh_world =
    (Return (TaskAnalysis_value (fallbackAnalysis "Plan" "the week")),
     mkWorld true (redis fresh_world)
       (trace fresh_world ++ [RedisGet (analysis_cache_key "Plan" "the week");
                              Logged LogError "❌ AI task analysis failed:"])) /\
  generateTaskSuggestions (cache_down object_a1) "user-1" "sprint" (num_of_Z 5)
    fresh_world =
    (Return (JArr getDefaultSuggestions),
     mkWorld true (redis fresh_world)
       (trace fresh_world ++ [RedisGet (suggestions_cache_key "user-1" "sprint");
                              Logged LogError "❌ Task suggestion generation failed:"])).
Proof.
  apply (cache_outage_stops_remote_calls toy_tokenize toy_stem toy_sentiment
           (cache_down object_a1) (CollaboratorFailure "cache down")); reflexivity.
Defined.

Lemma generateTaskSuggestions_limit_edges_witness :
  exists n,
    fst (generateTaskSuggestions (no_faults reply_three) "user-1" "sprint"
           (num_of_Z (-1)) fresh_world) =
      Return (JArr (firstn n [JStr "a"; JStr "b"; JStr "c"])) /\
    (num_of_Z (-1) = NaN -> n = 0%nat) /\
    (num_of_Z (-1) = PInf -> n = length [JStr "a"; JStr "b"; JStr "c"]) /\
    (forall k, num_of_Z (-1) = num_of_Z k -> (0 <= k)%Z ->
       firstn n [JStr "a"; JStr "b"; JStr "c"] =
       firstn (Z.to_nat k) [JStr "a"; JStr "b"; JStr "c"]) /\
    (forall k, num_of_Z (-1) = num_of_Z k -> (k < 0)%Z ->
       firstn n [JStr "a"; JStr "b"; JStr "c"] =
       firstn (length [JStr "a"; JStr "b"; JStr "c"] - Z.to_nat (- k))
         [JStr "a"; JStr "b"; JStr "c"]).
Proof.
  apply (generateTaskSuggestions_limit_edges (no_faults reply_three) "user-1"
           "sprint" (num_of_Z (-1)) fresh_world (Some reply_three));
    vm_compute; reflexivity.
Defined.

Lemma extractKeywords_whole_words_witness :
  (length (extractKeywords "deploy the production server") <= 5)%nat /\
  NoDup (extractKeywords "deploy the production server") /\
  forall word, In word (extractKeywords "deploy the production server") ->
    (3 < String.length word)%nat /\
    is_stop_word word = false /\
    whole_word word "deploy the production server".
Proof. apply extractKeywords_whole_words. reflexivity. Defined.

Lemma extractKeywords_complete_witness :
  In "production" (extractKeywords "deploy the production server").
Proof.
  apply extractKeywords_complete.
  - reflexivity.
  - vm_compute. lia.
  - split; [reflexivity|]. exists "deploy the ", " server". now repeat split.
  - vm_compute. lia.
  - reflexivity.
Defined.

Lemma fallbackAnalysis_tags_witness :
  tags (fallbackAnalysis "Deploy the Server" "production rollout")
  = [JStr "deploy"; JStr "server"; JStr "production"; JStr "rollout"] /\
  forall tag, In tag (tags (fallbackAnalysis "Deploy the Server" "production rollout")) ->
    exists word,
      tag = JStr word /\ toLowerCase word = word /\
      (3 < String.length word)%nat /\ is_stop_word word = false /\
      (whole_word word (toLowerCase "Deploy the Server") \/
       whole_word word (toLowerCase "production rollout")).
Proof.
  split; [vm_compute; reflexivity|].
  apply (fallbackAnalysis_tags "Deploy the Server" "production rollout");
    reflexivity.
Defined.

Lemma analysis_cache_key_collision_witness :
  analysis_cache_key "Send as" "apples" = analysis_cache_key "Send" " asapples".
Proof.
  apply (analysis_cache_key_collision "Send as" "apples" "Send" " asapples");
    reflexivity.
Defined.

Lemma suggestions_cache_key_injective_witness :
  suggestions_cache_key "team:a" "sprint" = suggestions_cache_key "team" "a:sprint"
  <-> "team:a" = "team" /\ "sprint" = "a:sprint".
Proof.
  apply (suggestions_cache_key_injective "team:a" "sprint" "team" "a:sprint");
    reflexivity.
Defined.

(** * What is cached is what is read back *)

(** ** The text of a string parses back *)

Lemma parse_escaped_char (c : ascii) (t acc : string) :
  parse_string_chars (escape_char c +:+ t) acc = parse_string_chars t (String c acc).
Proof.
  destruct c as [[] [] [] [] [] [] [] []]; try reflexivity;
    destruct t as [|b [|u [|g1 [|g2 [|g3 [|g4 t]]]]]]; reflexivity.
Qed.

Lemma parse_escaped_chars (s : string) : forall rest acc,
  parse_string_chars (escape_chars s +:+ String dquote rest) acc =
  Some (string_rev acc +:+ s, rest).
Proof.
  induction s as [|c s IH]; intros rest acc.
  - cbn [escape_chars]. rewrite append_nil, append_nil_r. reflexivity.
  - cbn [escape_chars]. rewrite append_assoc, parse_escaped_char, IH.
    now rewrite string_rev_cons, append_assoc.
Qed.

Lemma parse_value_string (fuel : nat) (s rest : string) :
  parse_value (S fuel) (quote s +:+ rest) = Parsed (JStr s) rest.
Proof.
  unfold quote. rewrite append_cons, append_assoc. unfold str1.
  rewrite append_cons, append_nil.
  cbn [parse_value]. change (skip_ws (String dquote ?x)) with (String dquote x).
  cbv iota beta. change (Ascii.eqb dquote dquote) with true. cbv iota.
  now rewrite parse_escaped_chars.
Qed.

(** ** The text of a number parses back *)

Lemma take_while_stop (p : ascii -> bool) (a : string) (c : ascii) (rest : string) :
  p c = false -> take_while p (a +:+ String c rest) = take_while p a.
Proof.
  intros Hc. induction a as [|x a IH].
  - rewrite append_nil. cbn [take_while]. now rewrite Hc.
  - rewrite append_cons. cbn [take_while]. now rewrite IH.
Qed.

Lemma drop_while_stop (p : ascii -> bool) (a : string) (c : ascii) (rest : string) :
  p c = false ->
  drop_while p (a +:+ String c rest) = drop_while p a +:+ String c rest.
Proof.
  intros Hc. induction a as [|x a IH].
  - rewrite append_nil. cbn [drop_while]. now rewrite Hc.
  - rewrite append_cons. cbn [drop_while]. destruct (p x); [exact IH|reflexivity].
Qed.

Lemma expect_stop (x : ascii) (a : string) (c : ascii) (rest : string) :
  Ascii.eqb x c = false ->
  expect x (a +:+ String c rest) =
  option_map (fun r => r +:+ String c rest) (expect x a).
Proof.
  intros Hc. destruct a as [|y a].
  - rewrite append_nil. cbn [expect]. now rewrite Hc.
  - rewrite append_cons. cbn [expect]. now destruct (Ascii.eqb x y).
Qed.

Lemma scan_sign_stop (plus : bool) (a : string) (c : ascii) (rest : string) :
  Ascii.eqb "-" c = false -> Ascii.eqb "+" c = false ->
  scan_sign plus (a +:+ String c rest) =
  (fst (scan_sign plus a), snd (scan_sign plus a) +:+ String c rest).
Proof.
  intros Hm Hp. unfold scan_sign. rewrite expect_stop by assumption.
  destruct (expect "-" a); [reflexivity|]. cbn [option_map].
  destruct plus; [|reflexivity].
  rewrite expect_stop by assumption. now destruct (expect "+" a).
Qed.

Lemma scan_exponent_stop (a : string) (c : ascii) (rest : string) :
  is_delimiter c = true ->
  scan_exponent (a +:+ String c rest) =
  option_map (fun er => (fst er, snd er +:+ String c rest)) (scan_exponent a).
Proof.
  intros Hc.
  assert (Hd : is_digit c = false /\ Ascii.eqb "-" c = false /\
               Ascii.eqb "+" c = false /\ Ascii.eqb c "e" = false /\
               Ascii.eqb c "E" = false).
  { revert Hc.
    destruct c as [[] [] [] [] [] [] [] []]; try discriminate; now repeat split. }
  destruct Hd as (Hd & Hm & Hp & He & HE).
  destruct a as [|x a].
  - rewrite append_nil. cbn [scan_exponent]. now rewrite He, HE.
  - rewrite append_cons. cbn [scan_exponent].
    destruct (Ascii.eqb x "e" || Ascii.eqb x "E"); [|reflexivity].
    rewrite scan_sign_stop by assumption.
    destruct (scan_sign true a) as [neg r1]. cbn [fst snd].
    rewrite take_while_stop, drop_while_stop by assumption.
    now destruct (take_while is_digit r1).
Qed.

Lemma delimiter_no_digit (c : ascii) :
  is_delimiter c = true ->
  is_digit c = false /\ Ascii.eqb "." c = false /\
  Ascii.eqb "-" c = false /\ Ascii.eqb "+" c = false.
Proof.
  destruct c as [[] [] [] [] [] [] [] []]; try discriminate; now repeat split.
Qed.

Lemma scan_decimal_stop (a : string) (c : ascii) (rest : string) :
  is_delimiter c = true ->
  scan_decimal (a +:+ String c rest) =
  option_map (fun d => mkScan (scan_int d) (scan_dot d) (scan_frac d) (scan_exp d)
                         (scan_rest d +:+ String c rest))
             (scan_decimal a).
Proof.
  intros Hc. destruct (delimiter_no_digit c Hc) as (Hd & Hdot & _).
  unfold scan_decimal.
  rewrite take_while_stop, drop_while_stop, expect_stop by assumption.
  destruct (expect "." (drop_while is_digit a)) as [r|]; cbn [option_map].
  - rewrite take_while_stop, drop_while_stop by assumption.
    destruct (take_while is_digit a), (take_while is_digit r);
      try reflexivity; rewrite scan_exponent_stop by assumption;
      destruct (scan_exponent _) as [[e r3]|]; reflexivity.
  - destruct (take_while is_digit a);
      try reflexivity; rewrite scan_exponent_stop by assumption;
      destruct (scan_exponent _) as [[e r3]|]; reflexivity.
Qed.

Lemma parse_number_stop (a : string) (c : ascii) (rest : string) :
  is_delimiter c = true ->
  parse_number (a +:+ String c rest) =
  match parse_number a with
  | Parsed v r => Parsed v (r +:+ String c rest)
  | SyntaxErr => SyntaxErr
  | NoFuel => NoFuel
  end.
Proof.
  intros Hc. destruct (delimiter_no_digit c Hc) as (_ & _ & Hm & Hp).
  unfold parse_number. rewrite scan_sign_stop by assumption.
  destruct (scan_sign false a) as [neg u]. cbn [fst snd].
  rewrite scan_decimal_stop by assumption.
  destruct (scan_decimal u) as [[ints dot fracs e r]|]; [|reflexivity].
  cbn [option_map scan_int scan_dot scan_frac scan_rest].
  destruct ints as [|x ints]; [reflexivity|].
  destruct (leading_zero _); [reflexivity|].
  destruct (dot && _); reflexivity.
Qed.

Lemma parse_value_number (fuel : nat) (x : ascii) (a : string) :
  is_digit x = true ->
  parse_value (S fuel) (String x a) = parse_number (String x a).
Proof.
  destruct x as [[] [] [] [] [] [] [] []]; try discriminate; reflexivity.
Qed.

(** ** More fuel does not change what the parser returns *)

Lemma parse_elements_step (fuel : nat) (s : string) (acc : list JSValue) :
  parse_elements (S fuel) s acc =
  match parse_value fuel s with
  | Parsed v r =>
      match skip_ws r with
      | String c r' =>
          if Ascii.eqb c "," then parse_elements fuel r' (v :: acc)
          else if Ascii.eqb c "]" then Parsed (JArr (rev (v :: acc))) r'
          else SyntaxErr
      | EmptyString => SyntaxErr
      end
  | SyntaxErr => SyntaxErr
  | NoFuel => NoFuel
  end.
Proof. reflexivity. Qed.

Lemma parse_members_step (fuel : nat) (s : string) (acc : list (string * JSValue)) :
  parse_members (S fuel) s acc =
  match expect dquote (skip_ws s) with
  | Some r =>
      match parse_string_chars r EmptyString with
      | Some (k, r1) =>
          match expect ":" (skip_ws r1) with
          | Some r2 =>
              match parse_value fuel r2 with
              | Parsed v r3 =>
                  match skip_ws r3 with
                  | String c r4 =>
                      if Ascii.eqb c ","
                      then parse_members fuel r4 (define_property k v acc)
                      else if Ascii.eqb c "}"
                      then Parsed (JObj (define_property k v acc)) r4
                      else SyntaxErr
                  | EmptyString => SyntaxErr
                  end
              | SyntaxErr => SyntaxErr
              | NoFuel => NoFuel
              end
          | None => SyntaxErr
          end
      | None => SyntaxErr
      end
  | None => SyntaxErr
  end.
Proof. reflexivity. Qed.

Lemma parse_value_step (fuel : nat) (s : string) :
  parse_value (S fuel) s =
  match skip_ws s with
  | EmptyString => SyntaxErr
  | String c r as t =>
      if Ascii.eqb c dquote then
        match parse_string_chars r EmptyString with
        | Some (str, r') => Parsed (JStr str) r'
        | None => SyntaxErr
        end
      else if Ascii.eqb c "{" then
        match expect "}" (skip_ws r) with
        | Some r' => Parsed (JObj []) r'
        | None => parse_members fuel (skip_ws r) []
        end
      else if Ascii.eqb c "[" then
        match expect "]" (skip_ws r) with
        | Some r' => Parsed (JArr []) r'
        | None => parse_elements fuel (skip_ws r) []
        end
      else if Ascii.eqb c "t" then parse_literal "true" (JBool true) t
      else if Ascii.eqb c "f" then parse_literal "false" (JBool false) t
      else if Ascii.eqb c "n" then parse_literal "null" JNull t
      else if Ascii.eqb c "-" || is_digit c then parse_number t
      else SyntaxErr
  end.
Proof. reflexivity. Qed.

Lemma parse_more_fuel (fuel : nat) :
  (forall s, parse_value fuel s <> NoFuel ->
             parse_value (S fuel) s = parse_value fuel s) /\
  (forall s acc, parse_elements fuel s acc <> NoFuel ->
                 parse_elements (S fuel) s acc = parse_elements fuel s acc) /\
  (forall s acc, parse_members fuel s acc <> NoFuel ->
                 parse_members (S fuel) s acc = parse_members fuel s acc).
Proof.
  induction fuel as [|fuel (IHv & IHe & IHm)]; [repeat split; intros; contradiction|].
  split; [|split].
  - intros s. rewrite (parse_value_step (S fuel)), (parse_value_step fuel).
    destruct (skip_ws s) as [|c r]; [reflexivity|].
    destruct (Ascii.eqb c dquote); [reflexivity|].
    destruct (Ascii.eqb c "{").
    { destruct (expect "}" (skip_ws r)); [reflexivity|]. apply IHm. }
    destruct (Ascii.eqb c "[").
    { destruct (expect "]" (skip_ws r)); [reflexivity|]. apply IHe. }
    reflexivity.
  - intros s acc. rewrite (parse_elements_step (S fuel)), (parse_elements_step fuel).
    intros H. rewrite IHv by (intros E; rewrite E in H; now apply H).
    destruct (parse_value fuel s) as [v r| |]; try reflexivity.
    destruct (skip_ws r) as [|c r']; [reflexivity|].
    destruct (Ascii.eqb c ","); [now apply IHe|reflexivity].
  - intros s acc. rewrite (parse_members_step (S fuel)), (parse_members_step fuel).
    destruct (expect dquote (skip_ws s)) as [r|]; [|reflexivity].
    destruct (parse_string_chars r EmptyString) as [[k r1]|]; [|reflexivity].
    destruct (expect ":" (skip_ws r1)) as [r2|]; [|reflexivity].
    intros H. rewrite IHv by (intros E; rewrite E in H; now apply H).
    destruct (parse_value fuel r2) as [v r3| |]; try reflexivity.
    destruct (skip_ws r3) as [|c r4]; [reflexivity|].
    destruct (Ascii.eqb c ","); [now apply IHm|reflexivity].
Qed.

Lemma parse_value_more_fuel (s : string) (fuel fuel' : nat) :
  (fuel <= fuel')%nat -> parse_value fuel s <> NoFuel ->
  parse_value fuel' s = parse_value fuel s.
Proof.
  intros Hle H. induction Hle as [|m Hle IH]; [reflexivity|].
  rewrite (proj1 (parse_more_fuel m)); [exact IH|]. now rewrite IH.
Qed.

(** The result of the parser with any fuel that suffices is the result of
    [JSON.parse]. *)
Lemma JSON_parse_with_fuel (text : string) (fuel : nat) (v : JSValue) :
  parse_value fuel text = Parsed v EmptyString -> JSON_parse text = Return v.
Proof.
  intros H. unfold JSON_parse.
  assert (E : parse_value (parse_fuel text) text = Parsed v EmptyString).
  { destruct (Nat.le_ge_cases fuel (parse_fuel text)) as [Hle|Hle].
    - rewrite (parse_value_more_fuel text fuel) by (assumption || now rewrite H).
      exact H.
    - rewrite <- H. symmetry. apply parse_value_more_fuel; [assumption|].
      apply (proj1 (parse_enough_fuel _)). unfold parse_fuel. lia. }
  now rewrite E.
Qed.

Lemma same_fraction_eq (x y : Q) : same_fraction x y = true -> x = y.
Proof.
  destruct x as [a b], y as [c d]. unfold same_fraction. cbn [Qnum Qden].
  intros H. apply andb_true_iff in H as [H1 H2].
  apply Z.eqb_eq in H1, H2. injection H2 as ->. now subst.
Qed.

Lemma parse_printed_number (q : Q) (fuel : nat) (c : ascii) (rest : string) :
  prints_and_parses q = true -> is_delimiter c = true ->
  parse_value (S fuel) (Number_toString (Fin q) +:+ String c rest) =
  Parsed (JNum (Fin q)) (String c rest).
Proof.
  unfold prints_and_parses. intros H Hc.
  destruct (Number_toString (Fin q)) as [|x a]; [discriminate|].
  apply andb_true_iff in H as [Hx H].
  destruct (parse_number (String x a)) as [[| | |[| | |q']| | |] [|]| |] eqn:E;
    try discriminate.
  apply same_fraction_eq in H. subst q'.
  rewrite append_cons, parse_value_number, <- append_cons by assumption.
  now rewrite parse_number_stop, E by assumption.
Qed.

Lemma integers_In (lo : Z) (n : nat) (k : Z) :
  (lo <= k < lo + Z.of_nat n)%Z -> In k (integers lo n).
Proof.
  intros H. apply in_map_iff. exists (Z.to_nat (k - lo)). split; [lia|].
  apply in_seq. lia.
Qed.

(** The double nearest to every tenth from [0.5] to [40] is written with
    one decimal at most and read back. *)
Lemma tenths_print_and_parse (k : Z) :
  (5 <= k <= 400)%Z -> prints_and_parses (nearest_double (k # 10)) = true.
Proof.
  intros H.
  assert (A : forallb (fun k => prints_and_parses (nearest_double (k # 10)))
                (integers 5 396) = true) by (vm_compute; reflexivity).
  rewrite forallb_forall in A. apply A, integers_In. lia.
Qed.

(** So is every integer up to [100]. *)
Lemma integers_print_and_parse (z : Z) :
  (0 <= z <= 100)%Z -> prints_and_parses (inject_Z z) = true.
Proof.
  intros H.
  assert (A : forallb (fun z => prints_and_parses (inject_Z z))
                (integers 0 101) = true) by (vm_compute; reflexivity).
  rewrite forallb_forall in A. apply A, integers_In. lia.
Qed.

(** ** The text of an array of strings parses back *)

Lemma serialize_string_array (l : list string) :
  serialize EmptyString EmptyString (JArr (map JStr l)) = Some (array_text l).
Proof.
  cbn [serialize]. unfold array_text. do 2 f_equal.
  induction l as [|s l IH]; [reflexivity|].
  cbn [map serialize from_option id]. now rewrite IH.
Qed.

Lemma parse_elements_strings (l : list string) : forall s fuel acc rest,
  (length l < fuel)%nat ->
  parse_elements (S fuel) (join "," (map quote (s :: l)) +:+ "]" +:+ rest) acc =
  Parsed (JArr (rev acc ++ map JStr (s :: l))) rest.
Proof.
  induction l as [|s' l IH]; intros s fuel acc rest Hf;
    (destruct fuel as [|fuel]; [cbn [length] in Hf; lia|]);
    rewrite parse_elements_step.
  - cbn [map join]. rewrite parse_value_string.
    cbn. reflexivity.
  - change (join "," (map quote (s :: s' :: l)))
      with (quote s +:+ "," +:+ join "," (map quote (s' :: l))).
    rewrite !append_assoc, parse_value_string.
    change (skip_ws ("," +:+ ?x)) with (String "," x).
    cbv iota beta. change (Ascii.eqb "," ",") with true. cbv iota.
    rewrite IH by (cbn [length] in Hf; lia).
    cbn [rev map]. now rewrite <- app_assoc.
Qed.

Lemma parse_value_string_array (l : list string) (fuel : nat) (rest : string) :
  (length l < fuel)%nat ->
  parse_value (S fuel) (array_text l +:+ rest) = Parsed (JArr (map JStr l)) rest.
Proof.
  intros Hf. unfold array_text. destruct l as [|s l].
  - reflexivity.
  - unfold wrap. change (map quote (s :: l)) with (quote s :: map quote l).
    cbv iota. rewrite !append_assoc. rewrite parse_value_step.
    change (skip_ws ("[" +:+ ?x)) with (String "[" x). cbv iota beta.
    change (Ascii.eqb "[" dquote) with false.
    change (Ascii.eqb "[" "{") with false.
    change (Ascii.eqb "[" "[") with true. cbv iota.
    assert (E : forall x, skip_ws (join "," (quote s :: map quote l) +:+ x) =
                          join "," (quote s :: map quote l) +:+ x).
    { intros x. destruct l; reflexivity. }
    rewrite E.
    assert (E' : forall x, expect "]" (join "," (quote s :: map quote l) +:+ x) = None).
    { intros x. destruct l; reflexivity. }
    rewrite E'.
    destruct fuel as [|fuel]; [lia|].
    change (quote s :: map quote l) with (map quote (s :: l)).
    rewrite parse_elements_strings by (cbn [length] in Hf; lia). reflexivity.
Qed.

(** ** The text of an analysis parses back *)

Lemma parse_member_open (k rest : string) :
  expect dquote (skip_ws (quote k +:+ rest)) =
    Some (escape_chars k +:+ String dquote rest).
Proof.
  unfold quote, str1. rewrite append_cons, append_assoc, append_cons, append_nil.
  reflexivity.
Qed.

Lemma parse_member_comma (fuel : nat) (k vtext : string) (v : JSValue)
    (rest : string) (acc : list (string * JSValue)) :
  parse_value fuel (vtext +:+ "," +:+ rest) = Parsed v ("," +:+ rest) ->
  parse_members (S fuel) (quote k +:+ ":" +:+ vtext +:+ "," +:+ rest) acc =
  parse_members fuel rest (define_property k v acc).
Proof.
  intros H. rewrite parse_members_step, parse_member_open, parse_escaped_chars.
  change (string_rev EmptyString +:+ k) with k.
  change (expect ":" (skip_ws (":" +:+ ?x))) with (Some x). cbv iota beta.
  rewrite H. reflexivity.
Qed.

Lemma parse_member_close (fuel : nat) (k vtext : string) (v : JSValue)
    (rest : string) (acc : list (string * JSValue)) :
  parse_value fuel (vtext +:+ "}" +:+ rest) = Parsed v ("}" +:+ rest) ->
  parse_members (S fuel) (quote k +:+ ":" +:+ vtext +:+ "}" +:+ rest) acc =
  Parsed (JObj (define_property k v acc)) rest.
Proof.
  intros H. rewrite parse_members_step, parse_member_open, parse_escaped_chars.
  change (string_rev EmptyString +:+ k) with k.
  change (expect ":" (skip_ws (":" +:+ ?x))) with (Some x). cbv iota beta.
  rewrite H. reflexivity.
Qed.

Lemma serialize_object (fields : list (string * JSValue)) :
  serialize EmptyString EmptyString (JObj fields) =
  Some (wrap "{" "}" EmptyString EmptyString (member_texts fields)).
Proof.
  reflexivity.
Qed.

Lemma stringify_analysis_text (p h d : Num) (c s o : string) (ts ss : list string)
    (z : Z) (tp th td : string) :
  serialize EmptyString EmptyString (JNum p) = Some tp ->
  serialize EmptyString EmptyString (JNum h) = Some th ->
  serialize EmptyString EmptyString (JNum d) = Some td ->
  JSON_stringify
    (TaskAnalysis_value
       (mkTaskAnalysis p h (JStr c) s (map JStr ts) d (map JStr ss) (JStr o) z)) =
  "{" +:+ quote "priority" +:+ ":" +:+ tp +:+ ","
      +:+ quote "estimatedHours" +:+ ":" +:+ th +:+ ","
      +:+ quote "complexity" +:+ ":" +:+ quote c +:+ ","
      +:+ quote "sentiment" +:+ ":" +:+ quote s +:+ ","
      +:+ quote "tags" +:+ ":" +:+ array_text ts +:+ ","
      +:+ quote "deadlineUrgency" +:+ ":" +:+ td +:+ ","
      +:+ quote "suggestedSubtasks" +:+ ":" +:+ array_text ss +:+ ","
      +:+ quote "optimalTimeSlot" +:+ ":" +:+ quote o +:+ ","
      +:+ quote "confidenceScore" +:+ ":" +:+ Number_toString (Fin (inject_Z z))
      +:+ "}".
Proof.
  intros Hp Hh Hd. unfold JSON_stringify, TaskAnalysis_value.
  cbn [priority estimatedHours complexity sentiment tags deadlineUrgency
       suggestedSubtasks optimalTimeSlot confidenceScore].
  rewrite serialize_object. cbn [member_texts].
  rewrite Hp, Hh, Hd, !serialize_string_array.
  cbn [serialize JInt num_of_Z from_option id wrap join].
  now rewrite !append_assoc.
Qed.

Lemma parse_value_object_open (fuel : nat) (k rest : string) :
  parse_value (S fuel) ("{" +:+ quote k +:+ rest) =
  parse_members fuel (quote k +:+ rest) [].
Proof.
  rewrite parse_value_step. unfold quote, str1.
  rewrite !append_cons, append_nil. reflexivity.
Qed.

(** An analysis whose numbers are written and read back, whose complexity
    and time slot are strings, and whose tags and subtasks are strings. *)
Lemma parse_stringified_analysis (p h d : Q) (c s o : string) (ts ss : list string)
    (z : Z) :
  prints_and_parses p = true -> prints_and_parses h = true ->
  prints_and_parses d = true -> prints_and_parses (inject_Z z) = true ->
  let a := mkTaskAnalysis (Fin p) (Fin h) (JStr c) s (map JStr ts) (Fin d)
             (map JStr ss) (JStr o) z in
  JSON_parse (JSON_stringify (TaskAnalysis_value a)) = Return (TaskAnalysis_value a).
Proof.
  intros Hp Hh Hd Hz. cbv zeta.
  apply (JSON_parse_with_fuel _ (12 + (length ts + length ss))).
  rewrite (stringify_analysis_text (Fin p) (Fin h) (Fin d) c s o ts ss z
             (Number_toString (Fin p)) (Number_toString (Fin h))
             (Number_toString (Fin d))) by reflexivity.
  cbn [Nat.add]. rewrite parse_value_object_open.
  erewrite parse_member_comma;
    [|apply (parse_printed_number p _ ","%char); [assumption|reflexivity]].
  erewrite parse_member_comma;
    [|apply (parse_printed_number h _ ","%char); [assumption|reflexivity]].
  erewrite parse_member_comma; [|apply parse_value_string].
  erewrite parse_member_comma; [|apply parse_value_string].
  erewrite parse_member_comma; [|apply parse_value_string_array; lia].
  erewrite parse_member_comma;
    [|apply (parse_printed_number d _ ","%char); [assumption|reflexivity]].
  erewrite parse_member_comma; [|apply parse_value_string_array; lia].
  erewrite parse_member_comma; [|apply parse_value_string].
  rewrite <- (append_nil_r "}").
  erewrite parse_member_close;
    [|apply (parse_printed_number (inject_Z z) _ "}"%char); [assumption|reflexivity]].
  reflexivity.
Qed.

Lemma all_strings_map (l : list JSValue) :
  all_strings l -> exists ts, l = map JStr ts.
Proof.
  unfold all_strings. induction l as [|x l IH]; intros H; [now exists []|].
  destruct (H x (or_introl eq_refl)) as [s ->].
  destruct IH as [ts ->]; [intros y Hy; apply H; now right|].
  now exists (s :: ts).
Qed.

(** What [validateRange] returns at the call sites is written and read
    back. *)
Lemma validateRange_prints (value : JSValue) (lo hi : Q) (a b dflt : Z) (r : Num) :
  tenth_double lo a -> tenth_double hi b ->
  (5 <= a)%Z -> (b <= 400)%Z -> (0 <= dflt <= 100)%Z ->
  validateRange value (Fin lo) (Fin hi) (num_of_Z dflt) = Return r ->
  exists q, r = Fin q /\ prints_and_parses q = true.
Proof.
  intros Hlo Hhi Ha Hb Hd E.
  destruct (validateRange_tenths value lo hi a b _ r Hlo Hhi E)
    as [-> | (k & Hk & ->)].
  - exists (inject_Z dflt). split; [reflexivity|].
    now apply integers_print_and_parse.
  - eexists. split; [reflexivity|]. apply tenths_print_and_parse. lia.
Qed.

(** The analysis that [finalAnalysis] builds is written and read back as
    itself when its tags and subtasks are strings. *)
Lemma finalAnalysis_round_trip (analysis : JSValue) (score : Num)
    (final : TaskAnalysis) :
  finalAnalysis analysis score = Return final ->
  all_strings (tags final) -> all_strings (suggestedSubtasks final) ->
  JSON_parse (JSON_stringify (TaskAnalysis_value final)) =
  Return (TaskAnalysis_value final).
Proof.
  intros F Ht Hs.
  destruct (finalAnalysis_fields analysis score final F) as (Ep & Eh & Ed & E).
  apply all_strings_map in Ht as [ts Ht]. apply all_strings_map in Hs as [ss Hs].
  destruct (validateRange_prints _ _ _ 10 100 5 _ tenth_double_1 tenth_double_10
              ltac:(lia) ltac:(lia) ltac:(lia) Ep) as (p & Ep' & Hp).
  destruct (validateRange_prints _ _ _ 5 400 2 _ tenth_double_half tenth_double_40
              ltac:(lia) ltac:(lia) ltac:(lia) Eh) as (h & Eh' & Hh).
  destruct (validateRange_prints _ _ _ 10 100 5 _ tenth_double_1 tenth_double_10
              ltac:(lia) ltac:(lia) ltac:(lia) Ed) as (d & Ed' & Hd).
  assert (Ec : exists c, validateComplexity (prop analysis "complexity") = JStr c).
  { destruct (validateComplexity_enum (prop analysis "complexity")) as [H|[H|H]];
      rewrite H; eauto. }
  assert (Eo : exists o, validateTimeSlot (prop analysis "optimalTimeSlot") = JStr o).
  { destruct (validateTimeSlot_enum (prop analysis "optimalTimeSlot"))
      as [H|[H|[H|H]]]; rewrite H; eauto. }
  destruct Ec as [c Ec]. destruct Eo as [o Eo].
  pose proof (calculateConfidenceScore_range analysis) as Hz.
  assert (Hz' : prints_and_parses (inject_Z (calculateConfidenceScore analysis))
                = true) by (apply integers_print_and_parse; lia).
  rewrite E in Ht, Hs. cbn [tags suggestedSubtasks] in Ht, Hs.
  rewrite E, Ep', Eh', Ed', Ec, Eo, Ht, Hs.
  now apply parse_stringified_analysis.
Qed.

Lemma array_text_nonempty (l : list string) :
  truthy_string (Some (array_text l)) = Some (array_text l).
Proof. now destruct l. Qed.

Lemma parse_array_text (l : list string) :
  JSON_parse (array_text l) = Return (JArr (map JStr l)).
Proof.
  apply (JSON_parse_with_fuel _ (S (S (length l)))).
  rewrite <- (append_nil_r (array_text l)).
  apply parse_value_string_array. lia.
Qed.

Section Cache.

Variable tokenizer_tokenize : string -> option (list string).
Variable PorterStemmer_stem : string -> string.
Variable sentiment_getSentiment : list string -> Num.

(** X23: the analysis that [analyzeTask] caches reads back as the
    analysis that it returned.  When a call has analysed a task through
    the remote model, the three numbers of the reply could be coerced, so
    that the analysis was built, the cache was written, and the tags and
    subtasks of the result are strings, then the next call for the same
    title and description returns the very same analysis: every field,
    the three numbers included, is the one that the first call returned. *)
Theorem analyzeTask_cached_result_agrees env env' title description context context'
    w text analysis final :
  isInitialized w = true -> redis_get_fault env = None ->
  cached_text w (analysis_cache_key title description) = None ->
  reply_text env (analysis_request (buildAnalysisPrompt title description context))
    = Some text ->
  extract_analysis text = Return analysis ->
  finalAnalysis analysis
    (analyzeSentiment tokenizer_tokenize PorterStemmer_stem
       sentiment_getSentiment description) = Return final ->
  redis_setex_fault env = None ->
  redis_get_fault env' = None ->
  all_strings (tags final) -> all_strings (suggestedSubtasks final) ->
  let first :=
    analyzeTask tokenizer_tokenize PorterStemmer_stem sentiment_getSentiment
      env title description context w in
  let second :=
    analyzeTask tokenizer_tokenize PorterStemmer_stem sentiment_getSentiment
      env' title description context' (snd first) in
  fst first = Return (TaskAnalysis_value final) /\
  fst second = Return (TaskAnalysis_value final).
Proof.
  intros Hi Hg Hc Hr Ha Hf Hs Hg' Ht Hsub. cbv zeta.
  pose proof (finalAnalysis_round_trip _ _ _ Hf Ht Hsub) as Hparse.
  rewrite (analyzeTask_validated_run tokenizer_tokenize PorterStemmer_stem
             sentiment_getSentiment env title description context w text analysis
             final) by assumption.
  cbv zeta. cbn [fst snd]. split; [reflexivity|].
  rewrite (analyzeTask_hit tokenizer_tokenize PorterStemmer_stem sentiment_getSentiment
             env' title description context' _
             (JSON_stringify (TaskAnalysis_value final))).
  - cbv zeta. now rewrite Hparse.
  - reflexivity.
  - assumption.
  - unfold cached_text. cbn [redis]. rewrite lookup_insert_eq.
    apply stringify_analysis_nonempty.
Qed.

(** X24: the suggestions that [generateTaskSuggestions] caches are the
    whole reply.  When a call has fetched an array of strings from the
    remote model and written the cache, it returns that array cut to its
    [limit], and the next call for the same user and context returns the
    whole array, whatever its own [limit] is. *)
Theorem generateTaskSuggestions_cached_result env env' userId userContext
    limit limit' w reply suggestions :
  isInitialized w = true -> redis_get_fault env = None ->
  cached_text w (suggestions_cache_key userId userContext) = None ->
  openai_reply env (user_request (suggestions_prompt userContext limit) (7 # 10) 400)
    = Return reply ->
  JSON_parse (default "[]" (truthy_string reply))
    = Return (JArr (map JStr suggestions)) ->
  redis_setex_fault env = None ->
  redis_get_fault env' = None ->
  let first := generateTaskSuggestions env userId userContext limit w in
  let second := generateTaskSuggestions env' userId userContext limit' (snd first) in
  fst first = Return (JArr (Array_slice0 (map JStr suggestions) limit)) /\
  fst second = Return (JArr (map JStr suggestions)).
Proof.
  destruct w as [init st tr]. run. intros -> Hg Hc Hr Hp Hs Hg'.
  rewrite Hg, Hc, Hr, Hp, Hs. cbn [fst snd]. split; [reflexivity|].
  run. rewrite Hg'. rewrite lookup_insert_eq.
  cbn [fmap option_fmap option_map snd].
  unfold JSON_stringify. rewrite serialize_string_array. cbn [from_option id].
  now rewrite array_text_nonempty, parse_array_text.
Qed.

End Cache.

Lemma analyzeTask_cached_result_agrees_witness :
  let first := analyzeTask toy_tokenize toy_stem toy_sentiment (no_faults reply_tagged)
                 "Plan" "great work" JUndefined fresh_world in
  let second := analyzeTask toy_tokenize toy_stem toy_sentiment remote_down
                  "Plan" "great work" (JStr "another context") (snd first) in
  fst first = Return (TaskAnalysis_value final_tagged) /\
  fst second = Return (TaskAnalysis_value final_tagged).
Proof.
  apply (analyzeTask_cached_result_agrees toy_tokenize toy_stem toy_sentiment
           (no_faults reply_tagged) remote_down "Plan" "great work" JUndefined
           (JStr "another context") fresh_world reply_tagged analysis_tagged
           final_tagged);
    try (vm_compute; reflexivity).
  - intros x Hx. vm_compute in Hx. destruct Hx as [<-|[<-|[]]]; eauto.
  - intros x [].
Defined.

Lemma generateTaskSuggestions_cached_result_witness :
  let first := generateTaskSuggestions (no_faults reply_three) "user-1" "sprint"
                 (num_of_Z 1) fresh_world in
  let second := generateTaskSuggestions remote_down "user-1" "sprint" (num_of_Z 2)
                  (snd first) in
  fst first = Return (JArr (Array_slice0 (map JStr ["a"; "b"; "c"]) (num_of_Z 1))) /\
  fst second = Return (JArr (map JStr ["a"; "b"; "c"])).
Proof.
  apply (generateTaskSuggestions_cached_result (no_faults reply_three) remote_down
           "user-1" "sprint" (num_of_Z 1) (num_of_Z 2) fresh_world
           (Some reply_three) ["a"; "b"; "c"]);
    vm_compute; reflexivity.
Defined.
